(** * Nightlamp Bible: the local data layer

    A shallow embedding of the data layer of the Nightlamp Bible reader:
    the importer [js/importKJV.js], the IndexedDB layer [js/db.js], the
    providers [js/providers.js] and the style upsert of [js/app.js],
    together with the properties its specification states.

    Conventions of the embedding:
    - a JavaScript string is the list of its UTF-16 code units;
    - an ordinal (book, chapter, verse number) is an integer;
    - an IndexedDB object store with [keyPath: "key"] is a finite map from
      primary key to record; a cursor or [getAll] visits it in ascending
      primary-key order, strings comparing by code units;
    - an [async] function is a state transformer over the object store it
      touches, with a log of the transactions it opens and an outcome that
      is a value or a thrown error; the storage itself never fails;
    - [Date.now()] is an argument of the call that reads the clock. *)

From Stdlib Require Import ZArith NArith List Ascii String DecimalString Lia.
From Stdlib Require DecimalZ DecimalPos.
From stdpp Require Import base option list sorting lexico gmap.

Local Open Scope N_scope.

(** ** JavaScript strings *)

Abbreviation jsstring := (list N).

(** A string literal of the source, as code units. *)
Definition js (s : string) : jsstring :=
  (λ a, N_of_ascii a) <$> list_ascii_of_string s.

(** [WhiteSpace] and [LineTerminator] of ECMAScript: what [\s] matches and
    what [trim] strips. *)
Definition is_ws (c : N) : bool :=
  (c =? 0x09) || (c =? 0x0A) || (c =? 0x0B) || (c =? 0x0C) || (c =? 0x0D)
  || (c =? 0x20) || (c =? 0xA0) || (c =? 0x1680)
  || ((0x2000 <=? c) && (c <=? 0x200A))
  || (c =? 0x2028) || (c =? 0x2029) || (c =? 0x202F) || (c =? 0x205F)
  || (c =? 0x3000) || (c =? 0xFEFF).

Definition SPACE : N := 0x20.
Definition NBSP : N := 0xA0.

(** [s.replace(/\s+/g, " ")]: the scanner emits one space when it enters a
    run of whitespace and nothing for the rest of the run. *)
Fixpoint replace_ws_runs_from (in_run : bool) (s : jsstring) : jsstring :=
  match s with
  | [] => []
  | c :: t =>
      if is_ws c
      then (if in_run then replace_ws_runs_from true t
            else SPACE :: replace_ws_runs_from true t)
      else c :: replace_ws_runs_from false t
  end.

Definition replace_ws_runs (s : jsstring) : jsstring :=
  replace_ws_runs_from false s.

(** [s.replace(/ /g, " ")] *)
Definition replace_nbsp (s : jsstring) : jsstring :=
  (λ c, if c =? NBSP then SPACE else c) <$> s.

Fixpoint trimStart (s : jsstring) : jsstring :=
  match s with
  | [] => []
  | c :: t => if is_ws c then trimStart t else s
  end.

Fixpoint trimEnd (s : jsstring) : jsstring :=
  match s with
  | [] => []
  | c :: t =>
      match trimEnd t with
      | [] => if is_ws c then [] else [c]
      | t' => c :: t'
      end
  end.

Definition trim (s : jsstring) : jsstring := trimEnd (trimStart s).

(** [normalizeWhitespace] of importKJV.js. *)
Definition normalizeWhitespace (s : jsstring) : jsstring :=
  trim (replace_nbsp (replace_ws_runs s)).

(** The maximal runs of non-whitespace code units of a string, in order;
    [w] is the word being read. *)
Fixpoint split_ws (w : jsstring) (s : jsstring) : list jsstring :=
  match s with
  | [] => match w with [] => [] | _ => [w] end
  | c :: t =>
      if is_ws c
      then match w with [] => split_ws [] t | _ => w :: split_ws [] t end
      else split_ws (w ++ [c]) t
  end.

Definition words (s : jsstring) : list jsstring := split_ws [] s.

(** The words of a list joined by single ASCII spaces. *)
Definition join_space (ws : list jsstring) : jsstring :=
  match ws with
  | [] => []
  | w :: rest => w ++ flat_map (λ x, SPACE :: x) rest
  end.

(** ** Numbers

    The ordinals of the source document and of the locators are
    integer-valued JavaScript numbers, modelled in [Z].  [Number(x)] of a
    missing attribute ([null]) is [0]; an attribute that is not a numeral
    gives [NaN], which every test below treats as it treats [0], so it is
    not kept apart. *)

Local Open Scope Z_scope.

Definition Number_of_attr (a : option Z) : Z := default 0 a.

(** [!n] for a number. *)
Definition falsy_num (n : Z) : bool := n =? 0.

(** [!s] for a string. *)
Definition falsy_str (s : jsstring) : bool :=
  match s with [] => true | _ => false end.

(** A number inside a template literal: its decimal numeral, which is
    what the host prints for an integer below [10^21] in magnitude.  From
    there on the host prints an exponent form; the statements below use
    of the numeral only that it holds no delimiter and determines its
    number, which is true of both forms. *)
Definition Number_toString (n : Z) : jsstring :=
  js (NilZero.string_of_int (Z.to_int n)).

Definition BAR : jsstring := js "|".

(** ** Outcomes of asynchronous calls *)

(** The errors the importer throws: a failed fetch, ["XML parse error. Your
    Bible XML may be malformed."] and ["Importer found 0 verses. XML
    structure may differ from expected."]. *)
Inductive Error :=
  | FetchFailed (status : Z)
  | MalformedSource
  | EmptySource.

Inductive Outcome (A : Type) :=
  | Resolved (a : A)
  | Rejected (e : Error).
Arguments Resolved {A} a.
Arguments Rejected {A} e.

(** An [async] function over a state [S]. *)
Definition Task (S A : Type) : Type := S → Outcome A * S.

Global Instance task_ret {S} : MRet (Task S) := λ A a s, (Resolved a, s).
Global Instance task_bind {S} : MBind (Task S) := λ A B f m s,
  match m s with
  | (Resolved a, s') => f a s'
  | (Rejected e, s') => (Rejected e, s')
  end.

Definition throw {S A} (e : Error) : Task S A := λ s, (Rejected e, s).

Fixpoint for_each {S A} (l : list A) (body : A → Task S unit) : Task S unit :=
  match l with
  | [] => mret tt
  | x :: t => body x ;; for_each t body
  end.

(** ** db.js: the IndexedDB layer *)

Inductive TxMode := readonly | readwrite.

Record Tx := { tx_store : jsstring; tx_mode : TxMode }.

(** One object store of the open database and the transactions opened on
    it so far. *)
Record World (R : Type) := {
  objs : gmap jsstring R;
  txlog : list Tx
}.
Arguments objs {R} w.
Arguments txlog {R} w.

(** The [keyPath] of an object store. *)
Class Keyed (R : Type) := key_of : R → jsstring.

(** Keys that are strings compare by code units. *)
Definition key_le (k1 k2 : jsstring) : Prop := k1 = k2 ∨ lexico k1 k2.

Global Instance key_le_dec : RelDecision key_le :=
  λ k1 k2, or_dec (decide (k1 = k2)) (decide (lexico k1 k2)).

Definition entry_le {R} (p q : jsstring * R) : Prop := key_le p.1 q.1.

Global Instance entry_le_dec {R} : RelDecision (@entry_le R) :=
  λ p q, key_le_dec p.1 q.1.

(** The records of a store in the order a cursor or [getAll] yields them. *)
Definition store_rows {R} (m : gmap jsstring R) : list R :=
  (merge_sort entry_le (map_to_list m)).*2.

Definition STORE_KJV_VERSES : jsstring := js "kjv_verses".
Definition STORE_BOOKMARKS : jsstring := js "bookmarks".
Definition STORE_VERSE_STYLES : jsstring := js "verse_styles".
Definition STORE_SETTINGS : jsstring := js "settings".

(** [s.includes(q)] *)
Fixpoint starts_with (q s : jsstring) : bool :=
  match q, s with
  | [], _ => true
  | _ :: _, [] => false
  | a :: q', b :: s' => (a =? b)%N && starts_with q' s'
  end.

Fixpoint includes (s q : jsstring) : bool :=
  starts_with q s || match s with [] => false | _ :: t => includes t q end.


Section Db.
Context {R : Type} `{Keyed R}.

Definition storeTx (storeName : jsstring) (mode : TxMode) : Task (World R) unit :=
  λ w, (Resolved tt,
        {| objs := objs w;
           txlog := txlog w ++ [{| tx_store := storeName; tx_mode := mode |}] |}).

Definition store_put (r : R) : Task (World R) unit :=
  λ w, (Resolved tt, {| objs := <[key_of r := r]> (objs w); txlog := txlog w |}).

Definition store_delete (key : jsstring) : Task (World R) unit :=
  λ w, (Resolved tt, {| objs := delete key (objs w); txlog := txlog w |}).

Definition store_get (key : jsstring) : Task (World R) (option R) :=
  λ w, (Resolved (objs w !! key), w).

Definition store_getAll : Task (World R) (list R) :=
  λ w, (Resolved (store_rows (objs w)), w).

Definition store_count : Task (World R) nat :=
  λ w, (Resolved (size (objs w)), w).

Definition countStore (storeName : jsstring) : Task (World R) nat :=
  storeTx storeName readonly ;; store_count.

Definition putMany (storeName : jsstring) (rows : list R) : Task (World R) bool :=
  storeTx storeName readwrite ;;
  for_each rows store_put ;;
  mret true.

Definition putOne (storeName : jsstring) (row : R) : Task (World R) bool :=
  storeTx storeName readwrite ;;
  store_put row ;;
  mret true.

(** [req.result || null]: a record is an object, hence truthy. *)
Definition getOne (storeName : jsstring) (key : jsstring) : Task (World R) (option R) :=
  storeTx storeName readonly ;;
  store_get key.

Definition getAll (storeName : jsstring) : Task (World R) (list R) :=
  storeTx storeName readonly ;;
  store_getAll.

(** [idx.getAll(value)]: the records whose index key is [value]; they
    share the index key, so they come in primary-key order. *)
Definition getAllByIndex {I} `{EqDecision I}
    (storeName : jsstring) (index : R → I) (value : I) : Task (World R) (list R) :=
  storeTx storeName readonly ;;
  all ← store_getAll ;
  mret (filter (λ r, index r = value) all).

Definition deleteOne (storeName : jsstring) (key : jsstring) : Task (World R) bool :=
  storeTx storeName readwrite ;;
  store_delete key ;;
  mret true.

Section Search.
(** [String.prototype.toLowerCase] of the host and the [text] property
    of the records of the store. *)
Variable toLowerCase : jsstring → jsstring.
Variable text_of : R → jsstring.

(** The [onsuccess] handler of the cursor request, once per record the
    cursor yields and once more when it is exhausted. *)
Fixpoint cursor_loop (q : jsstring) (limit : nat) (cursor : list R) (hits : list R) : list R :=
    match cursor with
    | [] => hits
    | v :: rest =>
        if (limit <=? length hits)%nat then hits
        else
          let text := toLowerCase (text_of v) in
          cursor_loop q limit rest (if includes text q then hits ++ [v] else hits)
    end.

Definition searchTextCursor (storeName : jsstring) (query : jsstring) (limit : nat)
      : Task (World R) (list R) :=
    let q := toLowerCase (trim query) in
    if falsy_str q then mret []
    else
      storeTx storeName readonly ;;
      all ← store_getAll ;
      mret (cursor_loop q limit all []).
End Search.
End Db.

(** ** importKJV.js: the importer *)

(** Canonical book names. *)
Definition BOOKS : list jsstring := js <$> [
  "Genesis";"Exodus";"Leviticus";"Numbers";"Deuteronomy";
  "Joshua";"Judges";"Ruth";"1 Samuel";"2 Samuel";
  "1 Kings";"2 Kings";"1 Chronicles";"2 Chronicles";
  "Ezra";"Nehemiah";"Esther";"Job";"Psalms";"Proverbs";
  "Ecclesiastes";"Song of Solomon";"Isaiah";"Jeremiah";"Lamentations";
  "Ezekiel";"Daniel";"Hosea";"Joel";"Amos";"Obadiah";"Jonah";"Micah";
  "Nahum";"Habakkuk";"Zephaniah";"Haggai";"Zechariah";"Malachi";
  "Matthew";"Mark";"Luke";"John";"Acts";"Romans";"1 Corinthians";"2 Corinthians";
  "Galatians";"Ephesians";"Philippians";"Colossians";"1 Thessalonians";"2 Thessalonians";
  "1 Timothy";"2 Timothy";"Titus";"Philemon";"Hebrews";"James";"1 Peter";"2 Peter";
  "1 John";"2 John";"3 John";"Jude";"Revelation"
]%string.

(** [BOOKS[i]]: [undefined] outside the table. *)
Definition BOOKS_at (i : Z) : option jsstring :=
  if (0 <=? i) then BOOKS !! Z.to_nat i else None.

(** A record of a verse store: a TextUnit. *)
Record VerseRow := {
  vr_key : jsstring;
  vr_book : jsstring;
  vr_chapter : Z;
  vr_verse : Z;
  vr_text : jsstring
}.

Global Instance VerseRow_keyed : Keyed VerseRow := vr_key.

(** The document [DOMParser] returns, as the importer's selectors see it:
    whether it holds a [parsererror] element, its [book] elements, their
    direct [chapter] children and the direct [verse] children of those,
    each with the integer its [number] attribute denotes ([None] when the
    attribute is absent). *)
Record VerseNode := { v_number : option Z; v_textContent : jsstring }.
Record ChapterNode := { c_number : option Z; c_verses : list VerseNode }.
Record BookNode := { b_number : option Z; b_chapters : list ChapterNode }.
Record XmlDocument := { parsererror : bool; bookNodes : list BookNode }.

(** What [fetch] answers, with its body already parsed. *)
Record Response := { res_ok : bool; res_status : Z; res_xml : XmlDocument }.

(** The composite key of a TextUnit: [`${bookName}|${chapNum}|${verseNum}`]. *)
Definition verseKey (book : jsstring) (chapter verse : Z) : jsstring :=
  book ++ BAR ++ Number_toString chapter ++ BAR ++ Number_toString verse.

(** The variables of the import loop: [rows] and [count]. *)
Record ImportAcc := { rows : list VerseRow; count : nat }.

(** Body of the loop over the verse nodes of a chapter. *)
Definition visit_verse (bookName : jsstring) (chapNum : Z)
    (acc : ImportAcc) (verseNode : VerseNode) : ImportAcc :=
  let verseNum := Number_of_attr (v_number verseNode) in
  let text := normalizeWhitespace (v_textContent verseNode) in
  if falsy_num verseNum || falsy_str text then acc
  else
    {| rows := rows acc ++ [{| vr_key := verseKey bookName chapNum verseNum;
                                vr_book := bookName;
                                vr_chapter := chapNum;
                                vr_verse := verseNum;
                                vr_text := text |}];
       count := S (count acc) |}.

(** Body of the loop over the chapter nodes of a book. *)
Definition visit_chapter (bookName : jsstring)
    (acc : ImportAcc) (chapterNode : ChapterNode) : ImportAcc :=
  let chapNum := Number_of_attr (c_number chapterNode) in
  if falsy_num chapNum then acc
  else foldl (visit_verse bookName chapNum) acc (c_verses chapterNode).

(** Body of the loop over the book nodes. *)
Definition visit_book (acc : ImportAcc) (bookNode : BookNode) : ImportAcc :=
  let bookNum := Number_of_attr (b_number bookNode) in
  match BOOKS_at (bookNum - 1) with
  | None => acc
  | Some bookName => foldl (visit_chapter bookName) acc (b_chapters bookNode)
  end.

Definition collect_rows (xml : XmlDocument) : ImportAcc :=
  foldl visit_book {| rows := []; count := 0 |} (bookNodes xml).

Record ImportResult := { verses : nat; books : nat }.

(** [importBibleFromXML], from the answer of [fetch] on; the progress
    callback only observes [count] and is left out. *)
Definition importBibleFromXML (res : Response) (storeName : jsstring)
    : Task (World VerseRow) ImportResult :=
  if negb (res_ok res) then throw (FetchFailed (res_status res))
  else
    let xml := res_xml res in
    if parsererror xml then throw MalformedSource
    else
      let rows := rows (collect_rows xml) in
      if (length rows =? 0)%nat then throw EmptySource
      else
        putMany storeName rows ;;
        mret {| verses := length rows;
                books := length (remove_dups (vr_book <$> rows)) |}.

(** ** providers.js *)

(** [bookmarkKey] *)
Definition bookmarkKey (translation book : jsstring) (chapter : Z) : jsstring :=
  translation ++ BAR ++ book ++ BAR ++ Number_toString chapter.

(** [verseStyleKey] *)
Definition verseStyleKey (translation book : jsstring) (chapter verse : Z) : jsstring :=
  translation ++ BAR ++ book ++ BAR ++ Number_toString chapter
              ++ BAR ++ Number_toString verse.

(** [arr.sort(cmp)]: a stable sort by the comparator. *)
Fixpoint sort_insert {A} (cmp : A → A → Z) (x : A) (l : list A) : list A :=
  match l with
  | [] => [x]
  | y :: l' => if (cmp x y <=? 0) then x :: l else y :: sort_insert cmp x l'
  end.

Definition array_sort {A} (cmp : A → A → Z) (l : list A) : list A :=
  foldr (sort_insert cmp) [] l.

(** [getChapterFromStore] *)
Definition getChapterFromStore (storeName : jsstring) (book : jsstring) (chapter : Z)
    : Task (World VerseRow) (list VerseRow) :=
  verses ← getAllByIndex storeName (λ r, (vr_book r, vr_chapter r)) (book, chapter) ;
  mret (array_sort (λ a b, vr_verse a - vr_verse b) verses).

(** A record of the bookmarks store. *)
Record Bookmark := {
  bm_key : jsstring;
  bm_translation : jsstring;
  bm_book : jsstring;
  bm_chapter : Z;
  bm_savedAt : Z
}.

Global Instance Bookmark_keyed : Keyed Bookmark := bm_key.

(** [toggleBookmark]; [now] is what [Date.now()] reads. *)
Definition toggleBookmark (now : Z) (translation book : jsstring) (chapter : Z)
    : Task (World Bookmark) bool :=
  let key := bookmarkKey translation book chapter in
  existing ← getOne STORE_BOOKMARKS key ;
  match existing with
  | Some _ =>
      deleteOne STORE_BOOKMARKS key ;;
      mret false
  | None =>
      putOne STORE_BOOKMARKS
        {| bm_key := key; bm_translation := translation; bm_book := book;
           bm_chapter := chapter; bm_savedAt := now |} ;;
      mret true
  end.

(** A record of the verse styles store: an AnnotationRecord.  The default
    object of the upsert has no [updatedAt] yet. *)
Record VerseStyle := {
  vs_key : jsstring;
  vs_translation : jsstring;
  vs_book : jsstring;
  vs_chapter : Z;
  vs_verse : Z;
  vs_color : jsstring;
  vs_underline : bool;
  vs_bold : bool;
  vs_bookmarked : bool;
  vs_note : jsstring;
  vs_noteType : jsstring;
  vs_noteFavorite : bool;
  vs_updatedAt : option Z
}.

Global Instance VerseStyle_keyed : Keyed VerseStyle := vs_key.

Definition with_updatedAt (style : VerseStyle) (now : Z) : VerseStyle :=
  {| vs_key := vs_key style; vs_translation := vs_translation style;
     vs_book := vs_book style; vs_chapter := vs_chapter style;
     vs_verse := vs_verse style; vs_color := vs_color style;
     vs_underline := vs_underline style; vs_bold := vs_bold style;
     vs_bookmarked := vs_bookmarked style; vs_note := vs_note style;
     vs_noteType := vs_noteType style; vs_noteFavorite := vs_noteFavorite style;
     vs_updatedAt := Some now |}.

(** [saveVerseStyle]: [{ ...style, updatedAt: Date.now() }]. *)
Definition saveVerseStyle (now : Z) (style : VerseStyle) : Task (World VerseStyle) unit :=
  putOne STORE_VERSE_STYLES (with_updatedAt style now) ;;
  mret tt.

(** [getStylesForChapter]: the [Map] built by [map.set(r.key, r)]. *)
Definition getStylesForChapter (translation book : jsstring) (chapter : Z)
    : Task (World VerseStyle) (gmap jsstring VerseStyle) :=
  rows ← getAllByIndex STORE_VERSE_STYLES
           (λ r, (vs_translation r, vs_book r, vs_chapter r))
           (translation, book, chapter) ;
  mret (foldl (λ map r, <[vs_key r := r]> map) ∅ rows).

(** A record of the settings store. *)
Record Setting := { set_key : jsstring; set_value : jsstring }.

Global Instance Setting_keyed : Keyed Setting := set_key.

(** [saveSetting] *)
Definition saveSetting (key value : jsstring) : Task (World Setting) unit :=
  putOne STORE_SETTINGS {| set_key := key; set_value := value |} ;;
  mret tt.

(** [loadSetting]: [None] is [null]. *)
Definition loadSetting (key : jsstring) : Task (World Setting) (option jsstring) :=
  row ← getOne STORE_SETTINGS key ;
  mret (match row with Some r => Some (set_value r) | None => None end).

(** ** app.js: the style upsert and the render-time join *)

(** A verse as the reader holds it: [{ ...v, style }]. *)
Record ShownVerse := {
  sv_key : jsstring;
  sv_book : jsstring;
  sv_chapter : Z;
  sv_verse : Z;
  sv_text : jsstring;
  sv_style : option VerseStyle
}.

(** The part of [state] the upsert reads and writes; [state_db] is the
    verse styles store of [state.db]. *)
Record AppState := {
  state_db : World VerseStyle;
  state_translation : jsstring;
  state_verses : list ShownVerse;
  state_stylesMap : gmap jsstring VerseStyle;
  state_selected : option ShownVerse
}.

(** The object a caller passes as [patch]: the properties it sets. *)
Record StylePatch := {
  p_color : option jsstring;
  p_underline : option bool;
  p_bold : option bool;
  p_bookmarked : option bool;
  p_note : option jsstring;
  p_noteType : option jsstring;
  p_noteFavorite : option bool
}.

(** The object literal the upsert falls back to. *)
Definition default_style (key translation book : jsstring) (chapter verse : Z) : VerseStyle :=
  {| vs_key := key; vs_translation := translation; vs_book := book;
     vs_chapter := chapter; vs_verse := verse;
     vs_color := js "none"; vs_underline := false; vs_bold := false;
     vs_bookmarked := false; vs_note := []; vs_noteType := js "study";
     vs_noteFavorite := false; vs_updatedAt := None |}.

(** [{ ...current, ...patch, updatedAt: now }] *)
Definition spread_patch (current : VerseStyle) (patch : StylePatch) (now : Z) : VerseStyle :=
  {| vs_key := vs_key current; vs_translation := vs_translation current;
     vs_book := vs_book current; vs_chapter := vs_chapter current;
     vs_verse := vs_verse current;
     vs_color := default (vs_color current) (p_color patch);
     vs_underline := default (vs_underline current) (p_underline patch);
     vs_bold := default (vs_bold current) (p_bold patch);
     vs_bookmarked := default (vs_bookmarked current) (p_bookmarked patch);
     vs_note := default (vs_note current) (p_note patch);
     vs_noteType := default (vs_noteType current) (p_noteType patch);
     vs_noteFavorite := default (vs_noteFavorite current) (p_noteFavorite patch);
     vs_updatedAt := Some now |}.

Definition with_style (x : ShownVerse) (style : VerseStyle) : ShownVerse :=
  {| sv_key := sv_key x; sv_book := sv_book x; sv_chapter := sv_chapter x;
     sv_verse := sv_verse x; sv_text := sv_text x; sv_style := Some style |}.

(** A call on [state.db]. *)
Definition on_db {A} (t : Task (World VerseStyle) A) : Task AppState A := λ st,
  let '(o, w) := t (state_db st) in
  (o, {| state_db := w; state_translation := state_translation st;
         state_verses := state_verses st; state_stylesMap := state_stylesMap st;
         state_selected := state_selected st |}).

(** The assignments to [state.stylesMap], [state.verses] and
    [state.selected] that follow the save. *)
Definition patch_state (key : jsstring) (v : ShownVerse) (next : VerseStyle)
    : Task AppState unit := λ st,
  (Resolved tt,
   {| state_db := state_db st;
      state_translation := state_translation st;
      state_verses :=
        (λ x, if bool_decide (sv_book x = sv_book v)
                 && (sv_chapter x =? sv_chapter v) && (sv_verse x =? sv_verse v)
              then with_style x next else x) <$> state_verses st;
      state_stylesMap := <[key := next]> (state_stylesMap st);
      state_selected := (λ sel, with_style sel next) <$> state_selected st |}).

(** [upsertSelectedStyle]; [now] is read by the upsert, [now'] by
    [saveVerseStyle]. *)
Definition upsertSelectedStyle (now now' : Z) (patch : StylePatch) : Task AppState unit :=
  λ st,
  match state_selected st with
  | None => (Resolved tt, st)
  | Some v =>
      let key := verseStyleKey (state_translation st) (sv_book v) (sv_chapter v) (sv_verse v) in
      let current :=
        default (default_style key (state_translation st) (sv_book v) (sv_chapter v) (sv_verse v))
                (state_stylesMap st !! key) in
      let next := spread_patch current patch now in
      (on_db (saveVerseStyle now' next) ;;
       patch_state key v next) st
  end.

(** The join of [openChapter]: each verse with the style found under its
    style key, or [null]. *)
Definition join_styles (translation : jsstring) (stylesMap : gmap jsstring VerseStyle)
    (verses : list VerseRow) : list ShownVerse :=
  (λ v, {| sv_key := vr_key v; sv_book := vr_book v; sv_chapter := vr_chapter v;
           sv_verse := vr_verse v; sv_text := vr_text v;
           sv_style := stylesMap !! verseStyleKey translation (vr_book v) (vr_chapter v) (vr_verse v) |})
  <$> verses.

(** ** The rest of db.js, importKJV.js and providers.js *)

(** The code unit of the delimiter of the keys. *)
Definition BAR_code : N := 124%N.

Definition STORE_NIV_CACHE : jsstring := js "niv_cache".
Definition STORE_NIV_VERSES : jsstring := js "niv_verses".
Definition STORE_ESV_VERSES : jsstring := js "esv_verses".
Definition STORE_AMP_VERSES : jsstring := js "amp_verses".
Definition STORE_AMPC_VERSES : jsstring := js "ampc_verses".
Definition STORE_NVI_ES_VERSES : jsstring := js "nvi_es_verses".

(** [importKJVFromXML] *)
Definition importKJVFromXML (res : Response) : Task (World VerseRow) ImportResult :=
  importBibleFromXML res STORE_KJV_VERSES.

(** [getChapterKJV] *)
Definition getChapterKJV (book : jsstring) (chapter : Z)
    : Task (World VerseRow) (list VerseRow) :=
  getChapterFromStore STORE_KJV_VERSES book chapter.

(** The verse stores of the open database, by name. *)
Abbreviation VerseDb := (jsstring → World VerseRow).

(** The database with one store replaced. *)
Definition set_store (storeName : jsstring) (w : World VerseRow) (db : VerseDb) : VerseDb :=
  λ name, if bool_decide (name = storeName) then w else db name.

(** A call on one verse store of the database. *)
Definition in_store {A} (storeName : jsstring) (t : Task (World VerseRow) A)
    : Task VerseDb A := λ db,
  let '(o, w) := t (db storeName) in (o, set_store storeName w db).

Section Translations.
(** [String.prototype.toUpperCase] of the host. *)
Variable toUpperCase : jsstring → jsstring.

(** [getChapterOffline] *)
Definition getChapterOffline (translationId book : jsstring) (chapter : Z)
    : Task VerseDb (list VerseRow) :=
  let id := toUpperCase translationId in
  if bool_decide (id = js "KJV") then
    in_store STORE_KJV_VERSES (getChapterFromStore STORE_KJV_VERSES book chapter)
  else if bool_decide (id = js "ESV") then
    in_store STORE_ESV_VERSES (getChapterFromStore STORE_ESV_VERSES book chapter)
  else if bool_decide (id = js "NIV") then
    in_store STORE_NIV_VERSES (getChapterFromStore STORE_NIV_VERSES book chapter)
  else if bool_decide (id = js "AMP") then
    in_store STORE_AMP_VERSES (getChapterFromStore STORE_AMP_VERSES book chapter)
  else if bool_decide (id = js "AMPC") then
    in_store STORE_AMPC_VERSES (getChapterFromStore STORE_AMPC_VERSES book chapter)
  else if bool_decide (id = js "NVI-ES") || bool_decide (id = js "NVI_ES") then
    in_store STORE_NVI_ES_VERSES (getChapterFromStore STORE_NVI_ES_VERSES book chapter)
  else mret [].

(** [storeForSearch] of app.js. *)
Definition storeForSearch (translationId : jsstring) : jsstring :=
  let id := toUpperCase translationId in
  if bool_decide (id = js "KJV") then STORE_KJV_VERSES
  else if bool_decide (id = js "ESV") then STORE_ESV_VERSES
  else if bool_decide (id = js "NIV") then STORE_NIV_VERSES
  else if bool_decide (id = js "AMP") then STORE_AMP_VERSES
  else if bool_decide (id = js "AMPC") then STORE_AMPC_VERSES
  else if bool_decide (id = js "NVI-ES") || bool_decide (id = js "NVI_ES")
  then STORE_NVI_ES_VERSES
  else STORE_KJV_VERSES.
End Translations.

(** [removeVerseStyle] *)
Definition removeVerseStyle (translation book : jsstring) (chapter verse : Z)
    : Task (World VerseStyle) unit :=
  let key := verseStyleKey translation book chapter verse in
  deleteOne STORE_VERSE_STYLES key ;;
  mret tt.

(** [listBookmarks] *)
Definition listBookmarks (translation : jsstring) : Task (World Bookmark) (list Bookmark) :=
  all ← getAll STORE_BOOKMARKS ;
  mret (array_sort (λ a b, bm_savedAt b - bm_savedAt a)
          (filter (λ b, bm_translation b = translation) all)).

(** [x - y] where a number may be [undefined]: the difference is then
    [NaN], which [sort] reads as [+0].  A comparator that answers so is
    not consistent, and the order the host then gives is left to the
    implementation: [array_sort] gives one such order, and no statement
    below relies on it.  Every style [saveVerseStyle] writes carries its
    [updatedAt]. *)
Definition sub_or_NaN (x y : option Z) : Z :=
  match x, y with
  | Some a, Some b => a - b
  | _, _ => 0
  end.

(** [listAllStyles] *)
Definition listAllStyles (translation : jsstring)
    : Task (World VerseStyle) (list VerseStyle) :=
  all ← getAll STORE_VERSE_STYLES ;
  mret (array_sort (λ a b, sub_or_NaN (vs_updatedAt b) (vs_updatedAt a))
          (filter (λ s, vs_translation s = translation) all)).

(** [listNotes] *)
Definition listNotes (translation : jsstring) : Task (World VerseStyle) (list VerseStyle) :=
  all ← listAllStyles translation ;
  mret (filter (λ s, trim (vs_note s) ≠ []) all).

(** The memo of one reference pack ([_diveCrossrefs], [_diveExplain] or
    [_diveTags]) and the number of times its resource was fetched.  A call
    runs to its end before the next one starts. *)
Record DiveMemo (P : Type) := {
  dive_table : option (gmap jsstring P);
  dive_fetches : nat
}.
Arguments dive_table {P} _.
Arguments dive_fetches {P} _.

(** What the fetch of a pack does: [fetch] or [res.json()] rejects (no
    network and no cached copy, a body that is no JSON), the answer is not
    [ok], or it is [ok] with a body.  The body is a JSON object from verse
    keys to entries; the entries are arrays (cross references, tags) or
    objects (explanations), hence truthy.  A verse key holds the
    delimiter, so it names no property an object inherits, and a body that
    is no object answers every verse key as the empty table does. *)
Inductive PackFetch (P : Type) :=
  | PackRejects
  | PackNotOk
  | PackBody (table : gmap jsstring P).
Arguments PackRejects {P}.
Arguments PackNotOk {P}.
Arguments PackBody {P} table.

(** How a call on a pack settles: with a value, or with the rejection of
    the fetch, which no getter catches. *)
Inductive Settled (A : Type) :=
  | Fulfilled (a : A)
  | Thrown.
Arguments Fulfilled {A} a.
Arguments Thrown {A}.

Section Dive.
Context {P : Type}.

(** [loadJsonOnce]: [null] when the answer is not [ok], the parsed body
    otherwise. *)
Definition loadJsonOnce (response : PackFetch P) (m : DiveMemo P)
    : Settled (option (gmap jsstring P)) * DiveMemo P :=
  let m' := {| dive_table := dive_table m; dive_fetches := S (dive_fetches m) |} in
  match response with
  | PackRejects => (Thrown, m')
  | PackNotOk => (Fulfilled None, m')
  | PackBody table => (Fulfilled (Some table), m')
  end.

(** The test of the memo and its assignment, as the three getters have it:
    [if (_dive === null) _dive = (await loadJsonOnce(url)) || {}].  When
    the [await] throws, the assignment does not happen. *)
Definition dive_ensure (response : PackFetch P) (m : DiveMemo P)
    : Settled (gmap jsstring P) * DiveMemo P :=
  match dive_table m with
  | Some table => (Fulfilled table, m)
  | None =>
      match loadJsonOnce response m with
      | (Fulfilled loaded, m') =>
          (Fulfilled (default ∅ loaded),
           {| dive_table := Some (default ∅ loaded); dive_fetches := dive_fetches m' |})
      | (Thrown, m') => (Thrown, m')
      end
  end.

(** [getDiveExplain]: the entry or [null]. *)
Definition getDiveExplain (response : PackFetch P)
    (book : jsstring) (chapter verse : Z) (m : DiveMemo P)
    : Settled (option P) * DiveMemo P :=
  match dive_ensure response m with
  | (Fulfilled table, m') => (Fulfilled (table !! verseKey book chapter verse), m')
  | (Thrown, m') => (Thrown, m')
  end.
End Dive.

(** [getDiveCrossrefs]: the entry or [[]]. *)
Definition getDiveCrossrefs {X} (response : PackFetch (list X))
    (book : jsstring) (chapter verse : Z) (m : DiveMemo (list X))
    : Settled (list X) * DiveMemo (list X) :=
  match dive_ensure response m with
  | (Fulfilled table, m') =>
      (Fulfilled (default [] (table !! verseKey book chapter verse)), m')
  | (Thrown, m') => (Thrown, m')
  end.

(** [getDiveTags]: the entry or [[]]. *)
Definition getDiveTags (response : PackFetch (list jsstring))
    (book : jsstring) (chapter verse : Z) (m : DiveMemo (list jsstring))
    : Settled (list jsstring) * DiveMemo (list jsstring) :=
  match dive_ensure response m with
  | (Fulfilled table, m') =>
      (Fulfilled (default [] (table !! verseKey book chapter verse)), m')
  | (Thrown, m') => (Thrown, m')
  end.

(** ** The rest of app.js *)

(** An entry of [TRANSLATIONS]; [tm_store] is what [store()] answers. *)
Record TranslationMeta := {
  tm_id : jsstring;
  tm_label : jsstring;
  tm_xml : jsstring;
  tm_store : jsstring
}.

Definition TRANSLATIONS : list TranslationMeta := [
  {| tm_id := js "KJV"; tm_label := js "KJV (English)";
     tm_xml := js "./data/EnglishKJBible.xml"; tm_store := STORE_KJV_VERSES |};
  {| tm_id := js "ESV"; tm_label := js "ESV (English)";
     tm_xml := js "./data/EnglishESVBible.xml"; tm_store := STORE_ESV_VERSES |};
  {| tm_id := js "NIV"; tm_label := js "NIV (English)";
     tm_xml := js "./data/EnglishNIVBible.xml"; tm_store := STORE_NIV_VERSES |};
  {| tm_id := js "AMP"; tm_label := js "AMP (English)";
     tm_xml := js "./data/EnglishAmplifiedBible.xml"; tm_store := STORE_AMP_VERSES |};
  {| tm_id := js "AMPC"; tm_label := js "AMPC (English)";
     tm_xml := js "./data/EnglishAmplifiedClassicBible.xml";
     tm_store := STORE_AMPC_VERSES |};
  {| tm_id := js "NVI-ES"; tm_label := js "NVI (Espa" ++ [241%N] ++ js "ol)";
     tm_xml := js "./data/SpanishNVIBible.xml"; tm_store := STORE_NVI_ES_VERSES |}
].

(** [translationMeta]: [TRANSLATIONS.find(t => t.id === id) || TRANSLATIONS[0]]. *)
Definition translationMeta (id : jsstring) : TranslationMeta :=
  match List.find (λ t, bool_decide (tm_id t = id)) TRANSLATIONS with
  | Some t => t
  | None =>
      nth 0 TRANSLATIONS
        {| tm_id := []; tm_label := []; tm_xml := []; tm_store := [] |}
  end.

(** [ensureKJVImported]; [fetch] is what the network answers for a URL. *)
Definition ensureKJVImported (fetch : jsstring → Response) : Task VerseDb unit :=
  count ← in_store STORE_KJV_VERSES (countStore STORE_KJV_VERSES) ;
  if (0 <? count)%nat then mret tt
  else
    in_store STORE_KJV_VERSES (importKJVFromXML (fetch (js "./data/EnglishKJBible.xml"))) ;;
    mret tt.

(** [ensureTranslationImported] *)
Definition ensureTranslationImported (fetch : jsstring → Response)
    (translationId : jsstring) : Task VerseDb unit :=
  let meta := translationMeta translationId in
  if bool_decide (translationId = js "KJV") then ensureKJVImported fetch
  else
    let storeName := tm_store meta in
    count ← in_store storeName (countStore storeName) ;
    if (0 <? count)%nat then mret tt
    else
      in_store storeName (importBibleFromXML (fetch (tm_xml meta)) storeName) ;;
      mret tt.

(** [state.selected] and [state.selectedKey]. *)
Record Selection := {
  sel_selected : option ShownVerse;
  sel_selectedKey : jsstring
}.

(** [selectVerse], on the two fields of the state it assigns; its key is
    the template [verseKey] has. *)
Definition selectVerse (v : ShownVerse) (s : Selection) : Selection :=
  let key := verseKey (sv_book v) (sv_chapter v) (sv_verse v) in
  if negb (falsy_str (sel_selectedKey s)) && bool_decide (key = sel_selectedKey s)
  then {| sel_selected := None; sel_selectedKey := [] |}
  else {| sel_selected := Some v; sel_selectedKey := key |}.

(** The own properties of [CHAPTER_COUNTS], in the order of the source. *)
Definition CHAPTER_COUNTS : list (jsstring * Z) :=
  (λ p : string * Z, (js p.1, p.2)) <$> [
  ("Genesis",50);("Exodus",40);("Leviticus",27);("Numbers",36);("Deuteronomy",34);
  ("Joshua",24);("Judges",21);("Ruth",4);("1 Samuel",31);("2 Samuel",24);
  ("1 Kings",22);("2 Kings",25);("1 Chronicles",29);("2 Chronicles",36);
  ("Ezra",10);("Nehemiah",13);("Esther",10);("Job",42);("Psalms",150);("Proverbs",31);
  ("Ecclesiastes",12);("Song of Solomon",8);("Isaiah",66);("Jeremiah",52);("Lamentations",5);
  ("Ezekiel",48);("Daniel",12);("Hosea",14);("Joel",3);("Amos",9);("Obadiah",1);("Jonah",4);("Micah",7);
  ("Nahum",3);("Habakkuk",3);("Zephaniah",3);("Haggai",2);("Zechariah",14);("Malachi",4);
  ("Matthew",28);("Mark",16);("Luke",24);("John",21);("Acts",28);("Romans",16);("1 Corinthians",16);("2 Corinthians",13);
  ("Galatians",6);("Ephesians",6);("Philippians",4);("Colossians",4);("1 Thessalonians",5);("2 Thessalonians",3);
  ("1 Timothy",6);("2 Timothy",4);("Titus",3);("Philemon",1);("Hebrews",13);("James",5);("1 Peter",5);("2 Peter",3);
  ("1 John",5);("2 John",1);("3 John",1);("Jude",1);("Revelation",22)
  ]%string.

(** The names of the properties a plain object inherits from
    [Object.prototype]. *)
Definition Object_prototype_names : list jsstring :=
  js <$> ["constructor"; "__defineGetter__"; "__defineSetter__"; "hasOwnProperty";
          "__lookupGetter__"; "__lookupSetter__"; "isPrototypeOf";
          "propertyIsEnumerable"; "toString"; "valueOf"; "__proto__";
          "toLocaleString"]%string.

(** What a property read on [CHAPTER_COUNTS] gives when it is not
    [undefined]: the number of an own entry, or the function or object
    inherited under a name of [Object.prototype]. *)
Inductive CountValue :=
  | NumberValue (n : Z)
  | InheritedValue (name : jsstring).

(** [CHAPTER_COUNTS[book]]; [None] is [undefined]. *)
Definition CHAPTER_COUNTS_at (book : jsstring) : option CountValue :=
  match (list_to_map CHAPTER_COUNTS : gmap jsstring Z) !! book with
  | Some n => Some (NumberValue n)
  | None =>
      if bool_decide (book ∈ Object_prototype_names) then Some (InheritedValue book)
      else None
  end.

(** [maxChaptersForBook] on every string: [CHAPTER_COUNTS[book] || 50]; an
    inherited function or object is truthy and is returned as it is. *)
Definition maxChaptersForBook_value (book : jsstring) : CountValue :=
  match CHAPTER_COUNTS_at book with
  | Some (NumberValue n) => if falsy_num n then NumberValue 50 else NumberValue n
  | Some (InheritedValue name) => InheritedValue name
  | None => NumberValue 50
  end.

(** [maxChaptersForBook] as a number: what [maxChaptersForBook_value]
    holds for every book that names no property the object inherits, the
    books of the selects among them. *)
Definition maxChaptersForBook (book : jsstring) : Z :=
  match (list_to_map CHAPTER_COUNTS : gmap jsstring Z) !! book with
  | Some n => if falsy_num n then 50 else n
  | None => 50
  end.

(** [state.book] and [state.chapter]. *)
Record Position := { pos_book : jsstring; pos_chapter : Z }.

(** The handlers that move the reader, on the two fields of the state
    they assign: the clicks on [topPrevBtn] and [topNextBtn] of
    [setupNavigation], [onBookChanged] with the clamp of
    [populateChapters], and [onChapterChanged]. *)
Definition prev_click (p : Position) : Position :=
  {| pos_book := pos_book p; pos_chapter := Z.max 1 (pos_chapter p - 1) |}.

Definition next_click (p : Position) : Position :=
  let max := maxChaptersForBook (pos_book p) in
  {| pos_book := pos_book p; pos_chapter := Z.min max (pos_chapter p + 1) |}.

Definition populateChapters (p : Position) : Position :=
  let max := maxChaptersForBook (pos_book p) in
  {| pos_book := pos_book p;
     pos_chapter := if (max <? pos_chapter p) then max else pos_chapter p |}.

Definition onBookChanged (value : jsstring) (p : Position) : Position :=
  populateChapters {| pos_book := value; pos_chapter := 1 |}.

Definition onChapterChanged (value : Z) (p : Position) : Position :=
  {| pos_book := pos_book p; pos_chapter := value |}.

Inductive Move :=
  | MovePrev
  | MoveNext
  | MoveBook (value : jsstring)
  | MoveChapter (value : Z).

Definition move (p : Position) (m : Move) : Position :=
  match m with
  | MovePrev => prev_click p
  | MoveNext => next_click p
  | MoveBook value => onBookChanged value p
  | MoveChapter value => onChapterChanged value p
  end.

(** ** Invariants and specification-side definitions *)

Arguments is_ws : simpl never.

(** A string without whitespace. *)
Definition no_ws (w : jsstring) : Prop := Forall (λ c, is_ws c = false) w.

(** The entries of a store as a cursor meets them. *)
Definition store_entries {R} (m : gmap jsstring R) : list (jsstring * R) :=
  merge_sort entry_le (map_to_list m).

(** Every record sits under the value of its key path. *)
Definition store_wf {R} `{Keyed R} (m : gmap jsstring R) : Prop :=
  ∀ k r, m !! k = Some r → key_of r = k.

(** The writes of [putMany]. *)
Definition put_all {R} `{Keyed R} (m : gmap jsstring R) (rows : list R) : gmap jsstring R :=
  foldl (λ m r, <[key_of r := r]> m) m rows.

(** The log after one more transaction. *)
Definition opened {R} (storeName : jsstring) (mode : TxMode) (w : World R) : list Tx :=
  txlog w ++ [{| tx_store := storeName; tx_mode := mode |}].

(** The rows a verse node, a chapter node and a book node contribute. *)
Definition verse_rows (bookName : jsstring) (chapNum : Z) (vn : VerseNode) : list VerseRow :=
  let verseNum := Number_of_attr (v_number vn) in
  let text := normalizeWhitespace (v_textContent vn) in
  if falsy_num verseNum || falsy_str text then []
  else [{| vr_key := verseKey bookName chapNum verseNum; vr_book := bookName;
           vr_chapter := chapNum; vr_verse := verseNum; vr_text := text |}].

Definition chapter_rows (bookName : jsstring) (cn : ChapterNode) : list VerseRow :=
  let chapNum := Number_of_attr (c_number cn) in
  if falsy_num chapNum then []
  else c_verses cn ≫= verse_rows bookName chapNum.

Definition book_rows (bn : BookNode) : list VerseRow :=
  match BOOKS_at (Number_of_attr (b_number bn) - 1) with
  | None => []
  | Some bookName => b_chapters bn ≫= chapter_rows bookName
  end.

Definition grow (acc : ImportAcc) (new : list VerseRow) : ImportAcc :=
  {| rows := rows acc ++ new; count := count acc + length new |}.

Definition made_row (bookName : jsstring) (cn : ChapterNode) (vn : VerseNode) : VerseRow :=
  {| vr_key := verseKey bookName (Number_of_attr (c_number cn)) (Number_of_attr (v_number vn));
     vr_book := bookName;
     vr_chapter := Number_of_attr (c_number cn);
     vr_verse := Number_of_attr (v_number vn);
     vr_text := normalizeWhitespace (v_textContent vn) |}.

(** The records of a verse store are keyed as the importer keys them. *)
Definition verse_store_ok (m : gmap jsstring VerseRow) : Prop :=
  ∀ k r, m !! k = Some r →
    k = vr_key r ∧ vr_key r = verseKey (vr_book r) (vr_chapter r) (vr_verse r).

(** The record a toggle creates. *)
Definition new_bookmark (now : Z) (translation book : jsstring) (chapter : Z) : Bookmark :=
  {| bm_key := bookmarkKey translation book chapter; bm_translation := translation;
     bm_book := book; bm_chapter := chapter; bm_savedAt := now |}.

(** A call of [toggleBookmark] and a run of such calls, one after the other. *)
Record ToggleCall := {
  tc_now : Z; tc_translation : jsstring; tc_book : jsstring; tc_chapter : Z
}.

Definition toggle_calls (calls : list ToggleCall) : Task (World Bookmark) unit :=
  for_each calls (λ c,
    toggleBookmark (tc_now c) (tc_translation c) (tc_book c) (tc_chapter c) ;; mret tt).

(** The records of the bookmarks store are keyed by their own locator. *)
Definition bookmarks_ok (m : gmap jsstring Bookmark) : Prop :=
  ∀ k r, m !! k = Some r →
    k = bookmarkKey (bm_translation r) (bm_book r) (bm_chapter r).

Definition toggle_tx (w : World Bookmark) : list Tx :=
  txlog w ++ [{| tx_store := STORE_BOOKMARKS; tx_mode := readonly |};
              {| tx_store := STORE_BOOKMARKS; tx_mode := readwrite |}].

(** A run of [saveSetting] calls, one after the other. *)
Definition save_calls (calls : list (jsstring * jsstring)) : Task (World Setting) unit :=
  for_each calls (λ c, saveSetting c.1 c.2).

(** The patches [{ bookmarked: b }] and [{ note: x }]. *)
Definition patch_bookmarked (b : bool) : StylePatch :=
  {| p_color := None; p_underline := None; p_bold := None; p_bookmarked := Some b;
     p_note := None; p_noteType := None; p_noteFavorite := None |}.

Definition patch_note (x : jsstring) : StylePatch :=
  {| p_color := None; p_underline := None; p_bold := None; p_bookmarked := None;
     p_note := Some x; p_noteType := None; p_noteFavorite := None |}.

(** The style the upsert starts from. *)
Definition current_style (st : AppState) (v : ShownVerse) : VerseStyle :=
  let key := verseStyleKey (state_translation st) (sv_book v) (sv_chapter v) (sv_verse v) in
  default (default_style key (state_translation st) (sv_book v) (sv_chapter v) (sv_verse v))
          (state_stylesMap st !! key).

(** The cached style of the selected verse, if any, is the style of that
    verse: what [getStylesForChapter] and the upsert itself put there. *)
Definition cache_entry_ok (st : AppState) (v : ShownVerse) : Prop :=
  let key := verseStyleKey (state_translation st) (sv_book v) (sv_chapter v) (sv_verse v) in
  ∀ s, state_stylesMap st !! key = Some s →
    vs_key s = key ∧ vs_translation s = state_translation st
    ∧ vs_book s = sv_book v ∧ vs_chapter s = sv_chapter v.

Definition style_tx (w : World VerseStyle) : list Tx :=
  opened STORE_VERSE_STYLES readwrite w.

(** The records of the styles store, and of the cache, are keyed by their
    own locator. *)
Definition styles_ok (m : gmap jsstring VerseStyle) : Prop :=
  ∀ k s, m !! k = Some s →
    k = vs_key s
    ∧ vs_key s = verseStyleKey (vs_translation s) (vs_book s) (vs_chapter s) (vs_verse s).

(** What the selects offer at a position: the books of [BOOKS] and the
    chapters 1 to [max] that [populateChapters] lists. *)
Definition offered (p : Position) (m : Move) : Prop :=
  match m with
  | MoveBook value => value ∈ BOOKS
  | MoveChapter value => 1 ≤ value ≤ maxChaptersForBook (pos_book p)
  | _ => True
  end.

Fixpoint offered_run (p : Position) (moves : list Move) : Prop :=
  match moves with
  | [] => True
  | m :: moves => offered p m ∧ offered_run (move p m) moves
  end.

(** The reader stays inside a book of the canon. *)
Definition in_book (p : Position) : Prop :=
  pos_book p ∈ BOOKS ∧ 1 ≤ pos_chapter p ≤ maxChaptersForBook (pos_book p).

(** The locator of a verse row. *)
Definition locator (r : VerseRow) : jsstring * Z * Z :=
  (vr_book r, vr_chapter r, vr_verse r).

(** Every stored style carries its [updatedAt]. *)
Definition styles_stamped (m : gmap jsstring VerseStyle) : Prop :=
  ∀ k s, m !! k = Some s → is_Some (vs_updatedAt s).

(** [updatedAt] as a number, [0] when it is missing. *)
Definition stamp (s : VerseStyle) : Z := default 0 (vs_updatedAt s).

(** ** Worked inputs *)

(** Lower-casing of the letters A to Z, for the examples. *)
Definition ascii_toLowerCase (s : jsstring) : jsstring :=
  (λ c, if (65 <=? c)%N && (c <=? 90)%N then (c + 32)%N else c) <$> s.

Definition mk_verse (n : Z) (t : string) : VerseNode :=
  {| v_number := Some n; v_textContent := js t |}.

Definition empty_world {R} : World R := {| objs := ∅; txlog := [] |}.

(** A document with one book of the table, its verses out of order, a
    verse without ordinal, a blank verse, a book beyond the table and a
    book without ordinal. *)
Definition fixture_xml : XmlDocument :=
  {| parsererror := false;
     bookNodes := [
       {| b_number := Some 1;
          b_chapters := [
            {| c_number := Some 1;
               c_verses := [ mk_verse 2 "And the earth was without form";
                             mk_verse 10 "And God called the dry land Earth";
                             mk_verse 1 "  In the   beginning ";
                             {| v_number := None; v_textContent := js "no ordinal" |};
                             mk_verse 3 "   " ] |} ] |};
       {| b_number := Some 67;
          b_chapters := [ {| c_number := Some 1; c_verses := [mk_verse 1 "beyond the table"] |} ] |};
       {| b_number := None;
          b_chapters := [ {| c_number := Some 1; c_verses := [mk_verse 1 "no book ordinal"] |} ] |}
     ] |}.

Definition fixture_response : Response :=
  {| res_ok := true; res_status := 200; res_xml := fixture_xml |}.

Definition malformed_response : Response :=
  {| res_ok := true; res_status := 200;
     res_xml := {| parsererror := true; bookNodes := bookNodes fixture_xml |} |}.

(** A document that holds Genesis 1:1 twice. *)
Definition duplicate_xml : XmlDocument :=
  {| parsererror := false;
     bookNodes := [
       {| b_number := Some 1;
          b_chapters := [
            {| c_number := Some 1;
               c_verses := [ mk_verse 1 "In the beginning";
                             mk_verse 1 "In the beginning, again" ] |} ] |} ] |}.

Definition duplicate_response : Response :=
  {| res_ok := true; res_status := 200; res_xml := duplicate_xml |}.

(** The verse store after the import of the fixture. *)
Definition fixture_world : World VerseRow :=
  (importBibleFromXML fixture_response STORE_KJV_VERSES empty_world).2.

Definition genesis_1_1 : VerseRow :=
  {| vr_key := js "Genesis|1|1"; vr_book := js "Genesis"; vr_chapter := 1;
     vr_verse := 1; vr_text := js "In the beginning" |}.

Definition shown_genesis_1_1 : ShownVerse :=
  {| sv_key := vr_key genesis_1_1; sv_book := vr_book genesis_1_1;
     sv_chapter := vr_chapter genesis_1_1; sv_verse := vr_verse genesis_1_1;
     sv_text := vr_text genesis_1_1; sv_style := None |}.

(** The reader on Genesis 1 in the KJV, verse 1 selected, no style yet. *)
Definition fixture_state : AppState :=
  {| state_db := empty_world; state_translation := js "KJV";
     state_verses := [shown_genesis_1_1]; state_stylesMap := ∅;
     state_selected := Some shown_genesis_1_1 |}.

(** Upper-casing of the letters a to z, for the examples. *)
Definition ascii_toUpperCase (s : jsstring) : jsstring :=
  (λ c, if (97 <=? c)%N && (c <=? 122)%N then (c - 32)%N else c) <$> s.

(** A database whose verse stores are all empty, and a network that
    answers every URL with the fixture, or with the malformed document. *)
Definition fixture_db : VerseDb := λ _, empty_world.

Definition fixture_fetch : jsstring → Response := λ _, fixture_response.

Definition malformed_fetch : jsstring → Response := λ _, malformed_response.

Definition esv_meta : TranslationMeta :=
  {| tm_id := js "ESV"; tm_label := js "ESV (English)";
     tm_xml := js "./data/EnglishESVBible.xml"; tm_store := STORE_ESV_VERSES |}.

(** The reader after a note on Genesis 1:1, and with no verse selected. *)
Definition noted_state : AppState :=
  (upsertSelectedStyle 1000 1001 (patch_note (js "x")) fixture_state).2.

Definition idle_state : AppState :=
  {| state_db := empty_world; state_translation := js "KJV";
     state_verses := [shown_genesis_1_1]; state_stylesMap := ∅;
     state_selected := None |}.

Definition shown_genesis_1_2 : ShownVerse :=
  {| sv_key := js "Genesis|1|2"; sv_book := js "Genesis"; sv_chapter := 1;
     sv_verse := 2; sv_text := js "And the earth was without form"; sv_style := None |}.

Definition no_selection : Selection := {| sel_selected := None; sel_selectedKey := [] |}.

(** A style of Genesis 1, as a caller hands it to the save. *)
Definition mk_style (translation : string) (verse : Z) (note : string) : VerseStyle :=
  {| vs_key := verseStyleKey (js translation) (js "Genesis") 1 verse;
     vs_translation := js translation; vs_book := js "Genesis"; vs_chapter := 1;
     vs_verse := verse; vs_color := js "none"; vs_underline := false; vs_bold := false;
     vs_bookmarked := false; vs_note := js note; vs_noteType := js "study";
     vs_noteFavorite := false; vs_updatedAt := None |}.

(** A store of styles: three of the KJV, saved at 1001 (verse 1), 4001
    (verse 2, a blank note) and 2001 (verse 3), and one of the ESV. *)
Definition styled_world : World VerseStyle :=
  (for_each [ (1001, mk_style "KJV" 1 "x"); (4001, mk_style "KJV" 2 "  ");
              (2001, mk_style "KJV" 3 "y"); (3001, mk_style "ESV" 4 "z") ]
     (λ p, saveVerseStyle p.1 p.2) empty_world).2.

(** A memo before the first call. *)
Definition empty_memo {P} : DiveMemo P := {| dive_table := None; dive_fetches := 0 |}.

(** A pack with one entry, for Genesis 1:1. *)
Definition fixture_tags : gmap jsstring (list jsstring) :=
  {[ js "Genesis|1|1" := [js "creation"] ]}.

(** * Properties *)

(** ** Whitespace normalisation *)

Lemma replace_ws_runs_from_ws b s c :
  c ∈ replace_ws_runs_from b s → is_ws c = true → c = SPACE.
Proof.
  revert b. induction s as [|d t IH]; intros b; simpl.
  - by intros ?%elem_of_nil.
  - destruct (is_ws d) eqn:Hd.
    + destruct b; [by apply IH|].
      intros [->|Hin]%elem_of_cons ?; [done|by eapply IH].
    + intros [->|Hin]%elem_of_cons ?; [congruence|by eapply IH].
Qed.

Lemma replace_nbsp_id s :
  (∀ c, c ∈ s → is_ws c = true → c = SPACE) → replace_nbsp s = s.
Proof.
  intros Hs. unfold replace_nbsp. induction s as [|c t IH]; [done|].
  rewrite fmap_cons. f_equal.
  - destruct (N.eqb_spec c NBSP) as [->|]; [|done].
    symmetry. apply Hs; [left|reflexivity].
  - apply IH. intros d Hd. apply Hs. by right.
Qed.

Lemma replace_ws_runs_from_head_nonws b c t :
  is_ws c = false → replace_ws_runs_from b (c :: t) = c :: replace_ws_runs_from false t.
Proof. intros Hc. simpl. by rewrite Hc. Qed.

Lemma trimStart_replace_ws_runs_from b s :
  trimStart (replace_ws_runs_from b s) = replace_ws_runs_from false (trimStart s).
Proof.
  revert b. induction s as [|c t IH]; intros b; [done|].
  simpl. destruct (is_ws c) eqn:Hc.
  - destruct b; simpl; apply IH.
  - simpl. by rewrite Hc.
Qed.

Lemma trimEnd_no_ws w : no_ws w → trimEnd w = w.
Proof.
  induction 1 as [|c t Hc _ IH]; [done|].
  simpl. rewrite IH, Hc. by destruct t.
Qed.

Lemma trimEnd_snoc_ws w c : is_ws c = true → trimEnd (w ++ [c]) = trimEnd w.
Proof.
  intros Hc. induction w as [|a w IH]; simpl; [by rewrite Hc|by rewrite IH].
Qed.

Lemma trimEnd_app a b : trimEnd b ≠ [] → trimEnd (a ++ b) = a ++ trimEnd b.
Proof.
  intros Hb. induction a as [|c a IH]; [done|].
  simpl. rewrite IH. destruct (a ++ trimEnd b) eqn:E; [|done].
  by apply app_eq_nil in E as [_ ?].
Qed.

Lemma split_ws_cons_acc w s :
  w ≠ [] → ∃ x rest, split_ws w s = (w ++ x) :: rest.
Proof.
  revert w. induction s as [|c t IH]; intros w Hw; simpl.
  - exists [], []. rewrite app_nil_r. by destruct w.
  - destruct (is_ws c).
    + exists [], (split_ws [] t). rewrite app_nil_r. by destruct w.
    + destruct (IH (w ++ [c])) as (x & rest & ->); [by destruct w|].
      exists (c :: x), rest. by rewrite <- app_assoc.
Qed.

Lemma join_space_split_ws_nonnil w s : w ≠ [] → join_space (split_ws w s) ≠ [].
Proof.
  intros Hw. destruct (split_ws_cons_acc w s Hw) as (x & rest & ->).
  simpl. by destruct w.
Qed.

Lemma join_space_cons w rest :
  flat_map (λ x, SPACE :: x) (w :: rest) = SPACE :: join_space (w :: rest).
Proof. done. Qed.

(** The scanner after a word [w]: the trimmed output is the words joined by
    single spaces, whether the scanner is inside a word or inside a run. *)
Lemma trimEnd_scan s : ∀ w, w ≠ [] → no_ws w →
  trimEnd (w ++ replace_ws_runs_from false s) = join_space (split_ws w s)
  ∧ trimEnd (w ++ SPACE :: replace_ws_runs_from true s)
    = w ++ flat_map (λ x, SPACE :: x) (split_ws [] s).
Proof.
  induction s as [|c t IH]; intros w Hw Hnw.
  - simpl. split.
    + rewrite app_nil_r, trimEnd_no_ws by done. destruct w; [done|]. simpl.
      by rewrite app_nil_r.
    + rewrite app_nil_r, trimEnd_snoc_ws, trimEnd_no_ws by done. done.
  - simpl. destruct (is_ws c) eqn:Hc.
    + split.
      * destruct (IH w Hw Hnw) as [_ ->]. by destruct w.
      * by destruct (IH w Hw Hnw) as [_ ->].
    + split.
      * replace (w ++ c :: replace_ws_runs_from false t)
          with ((w ++ [c]) ++ replace_ws_runs_from false t) by by rewrite <- app_assoc.
        apply IH; [by destruct w|].
        apply Forall_app; split; [done|by apply Forall_singleton].
      * replace (w ++ SPACE :: c :: replace_ws_runs_from false t)
          with ((w ++ [SPACE]) ++ ([c] ++ replace_ws_runs_from false t))
          by by rewrite <- app_assoc.
        destruct (IH [c]) as [E _]; [done|by apply Forall_singleton|].
        rewrite trimEnd_app; rewrite E; [|by apply join_space_split_ws_nonnil].
        destruct (split_ws_cons_acc [c] t) as (x & rest & Hsp); [done|].
        rewrite Hsp, join_space_cons. by rewrite <- app_assoc.
Qed.

Lemma words_trimStart s : words (trimStart s) = words s.
Proof.
  unfold words. induction s as [|c t IH]; [done|].
  simpl. destruct (is_ws c) eqn:Hc; [done|]. simpl. by rewrite Hc.
Qed.

(** [normalizeWhitespace] keeps the words of its argument and puts one
    ASCII space between two of them. *)
Lemma normalizeWhitespace_words s :
  normalizeWhitespace s = join_space (words s).
Proof.
  unfold normalizeWhitespace, replace_ws_runs, trim.
  rewrite replace_nbsp_id by apply replace_ws_runs_from_ws.
  rewrite trimStart_replace_ws_runs_from, <- words_trimStart.
  destruct s as [|c t] eqn:Es; [done|rewrite <- Es].
  assert (trimStart s = [] ∨ ∃ d u, trimStart s = d :: u ∧ is_ws d = false) as Hts.
  { clear. induction s as [|c t IH]; [by left|]. simpl.
    destruct (is_ws c) eqn:Hc; [done|]. right. by exists c, t. }
  destruct Hts as [->|(d & u & -> & Hd)]; [done|].
  rewrite replace_ws_runs_from_head_nonws by done.
  destruct (trimEnd_scan u [d]) as [E _]; [done|by apply Forall_singleton|].
  change (d :: replace_ws_runs_from false u) with ([d] ++ replace_ws_runs_from false u).
  rewrite E. unfold words. simpl. by rewrite Hd.
Qed.

(** ** The object store *)

Global Instance key_le_total : Total key_le.
Proof.
  intros k1 k2. unfold key_le.
  destruct (trichotomy lexico k1 k2) as [?|[?|?]]; auto.
Qed.

Global Instance key_le_trans : Transitive key_le.
Proof.
  intros k1 k2 k3 [->|H12] [->|H23]; unfold key_le; auto.
  right. by etrans.
Qed.

Section store.
Context {R : Type}.
Implicit Types (m : gmap jsstring R) (r : R) (k : jsstring).

Global Instance entry_le_total : Total (@entry_le R).
Proof. intros p q. apply (total key_le). Qed.

Global Instance entry_le_trans : Transitive (@entry_le R).
Proof. intros p q s. apply (transitivity (R:=key_le)). Qed.

Lemma store_rows_entries m : store_rows m = (store_entries m).*2.
Proof. done. Qed.

Lemma store_entries_perm m : store_entries m ≡ₚ map_to_list m.
Proof. apply merge_sort_Permutation. Qed.

Lemma elem_of_store_entries m k r : (k, r) ∈ store_entries m ↔ m !! k = Some r.
Proof. by rewrite store_entries_perm, elem_of_map_to_list. Qed.

Lemma NoDup_store_entries_keys m : NoDup (store_entries m).*1.
Proof. rewrite store_entries_perm. apply NoDup_fst_map_to_list. Qed.

(** A cursor meets the entries in strictly ascending order of primary key. *)
Lemma store_entries_sorted m :
  StronglySorted (λ p q, lexico p.1 q.1) (store_entries m).
Proof.
  assert (StronglySorted entry_le (store_entries m)) as Hs
    by apply (StronglySorted_merge_sort _).
  pose proof (NoDup_store_entries_keys m) as Hnd.
  induction Hs as [|p l Hs IH Hall]; [constructor|].
  rewrite fmap_cons in Hnd. apply NoDup_cons in Hnd as [Hp Hnd].
  constructor; [by apply IH|].
  apply Forall_forall. intros q Hq.
  rewrite Forall_forall in Hall. destruct (Hall q Hq) as [E|]; [|done].
  destruct Hp. rewrite E. apply list_elem_of_fmap. by exists q.
Qed.

Lemma elem_of_store_rows m r : r ∈ store_rows m ↔ ∃ k, m !! k = Some r.
Proof.
  rewrite store_rows_entries, list_elem_of_fmap. split.
  - intros ([k r'] & -> & Hin). exists k. by apply elem_of_store_entries.
  - intros [k Hk]. exists (k, r). split; [done|by apply elem_of_store_entries].
Qed.

Lemma length_store_rows m : length (store_rows m) = size m.
Proof.
  rewrite store_rows_entries, length_fmap, store_entries_perm.
  apply length_map_to_list.
Qed.

Context `{Keyed R}.

Lemma store_wf_empty : store_wf (∅ : gmap jsstring R).
Proof. intros k r. by rewrite lookup_empty. Qed.

Lemma store_wf_put m r : store_wf m → store_wf (<[key_of r := r]> m).
Proof.
  intros Hm k r'. destruct (decide (k = key_of r)) as [->|Hne].
  - rewrite lookup_insert_eq. by intros [= ->].
  - rewrite lookup_insert_ne by done. apply Hm.
Qed.

Lemma store_wf_delete m k : store_wf m → store_wf (delete k m).
Proof. intros Hm k' r Hr. apply Hm. by apply lookup_delete_Some in Hr as [_ ?]. Qed.

Lemma store_rows_keys m : store_wf m → key_of <$> store_rows m = (store_entries m).*1.
Proof.
  intros Hm. rewrite store_rows_entries, <- list_fmap_compose.
  apply list_fmap_ext. intros i [k r] Hi. simpl.
  apply Hm, elem_of_store_entries. by eapply list_elem_of_lookup_2.
Qed.

Lemma NoDup_store_rows_keys m : store_wf m → NoDup (key_of <$> store_rows m).
Proof. intros Hm. rewrite store_rows_keys by done. apply NoDup_store_entries_keys. Qed.

Lemma store_wf_put_all m rows : store_wf m → store_wf (put_all m rows).
Proof.
  revert m. induction rows as [|r t IH]; intros m Hm; [done|].
  apply IH. by apply store_wf_put.
Qed.

Lemma put_all_union m rows : put_all m rows = put_all ∅ rows ∪ m.
Proof.
  revert m. induction rows as [|r t IH]; intros m; simpl.
  - by rewrite (left_id_L ∅ (∪)).
  - rewrite (IH (<[_:=_]> m)), (IH (<[_:=_]> ∅)).
    rewrite <- (assoc_L (∪)). f_equal.
    by rewrite <- insert_union_l, (left_id_L ∅ (∪)).
Qed.

(** Writing a batch again changes nothing. *)
Lemma put_all_idemp m rows : put_all (put_all m rows) rows = put_all m rows.
Proof.
  rewrite (put_all_union (put_all m rows)), (put_all_union m).
  by rewrite (assoc_L (∪)), (idemp_L (∪)).
Qed.

Lemma for_each_store_put rows (w : World R) :
  for_each rows store_put w
  = (Resolved tt, {| objs := put_all (objs w) rows; txlog := txlog w |}).
Proof.
  revert w. induction rows as [|r t IH]; intros w; [by destruct w|].
  simpl. unfold mbind, task_bind. simpl. by rewrite IH.
Qed.

Lemma putMany_run storeName rows (w : World R) :
  putMany storeName rows w
  = (Resolved true, {| objs := put_all (objs w) rows;
                       txlog := opened storeName readwrite w |}).
Proof.
  unfold putMany, mbind, task_bind. simpl. by rewrite for_each_store_put.
Qed.

Lemma putOne_run storeName r (w : World R) :
  putOne storeName r w
  = (Resolved true, {| objs := <[key_of r := r]> (objs w);
                       txlog := opened storeName readwrite w |}).
Proof. done. Qed.

Lemma getOne_run storeName k (w : World R) :
  getOne storeName k w
  = (Resolved (objs w !! k),
     {| objs := objs w; txlog := opened storeName readonly w |}).
Proof. done. Qed.

End store.

(** ** The importer *)

Lemma grow_nil acc : grow acc [] = acc.
Proof. destruct acc. unfold grow. simpl. by rewrite app_nil_r, Nat.add_0_r. Qed.

Lemma grow_grow acc l1 l2 : grow (grow acc l1) l2 = grow acc (l1 ++ l2).
Proof.
  unfold grow. simpl. rewrite length_app, <- app_assoc. f_equal. lia.
Qed.

Lemma visit_verse_grow bookName chapNum acc vn :
  visit_verse bookName chapNum acc vn = grow acc (verse_rows bookName chapNum vn).
Proof.
  unfold visit_verse, verse_rows.
  destruct (falsy_num _ || falsy_str _); [by rewrite grow_nil|].
  unfold grow. simpl. f_equal. lia.
Qed.

Lemma foldl_grow {A} (visit : ImportAcc → A → ImportAcc) (f : A → list VerseRow) :
  (∀ acc x, visit acc x = grow acc (f x)) →
  ∀ l acc, foldl visit acc l = grow acc (l ≫= f).
Proof.
  intros Hv l. induction l as [|x l IH]; intros acc; simpl.
  - by rewrite grow_nil.
  - by rewrite IH, Hv, grow_grow.
Qed.

Lemma visit_chapter_grow bookName acc cn :
  visit_chapter bookName acc cn = grow acc (chapter_rows bookName cn).
Proof.
  unfold visit_chapter, chapter_rows.
  destruct (falsy_num _); [by rewrite grow_nil|].
  apply foldl_grow, visit_verse_grow.
Qed.

Lemma visit_book_grow acc bn : visit_book acc bn = grow acc (book_rows bn).
Proof.
  unfold visit_book, book_rows.
  destruct (BOOKS_at _); [|by rewrite grow_nil].
  apply foldl_grow, visit_chapter_grow.
Qed.

(** The loops of the importer collect the contributions of the book nodes
    in document order, and [count] is the number of rows. *)
Lemma collect_rows_eq xml :
  rows (collect_rows xml) = bookNodes xml ≫= book_rows
  ∧ count (collect_rows xml) = length (rows (collect_rows xml)).
Proof.
  unfold collect_rows. rewrite (foldl_grow _ _ visit_book_grow). done.
Qed.

Lemma falsy_num_false n : falsy_num n = false ↔ n ≠ 0.
Proof. unfold falsy_num. by rewrite Z.eqb_neq. Qed.

Lemma falsy_str_false s : falsy_str s = false ↔ s ≠ [].
Proof. by destruct s. Qed.

Lemma BOOKS_at_Some n : is_Some (BOOKS_at (n - 1)) ↔ 1 ≤ n ≤ 66.
Proof.
  unfold BOOKS_at. destruct (Z.leb_spec 0 (n - 1)) as [Hn|Hn].
  - rewrite lookup_lt_is_Some.
    change (length BOOKS) with 66%nat. lia.
  - split; [by intros [? ?]|lia].
Qed.

Lemma elem_of_verse_rows bookName chapNum vn r :
  r ∈ verse_rows bookName chapNum vn ↔
    Number_of_attr (v_number vn) ≠ 0
    ∧ normalizeWhitespace (v_textContent vn) ≠ []
    ∧ r = {| vr_key := verseKey bookName chapNum (Number_of_attr (v_number vn));
             vr_book := bookName; vr_chapter := chapNum;
             vr_verse := Number_of_attr (v_number vn);
             vr_text := normalizeWhitespace (v_textContent vn) |}.
Proof.
  unfold verse_rows. rewrite <- falsy_num_false, <- falsy_str_false.
  destruct (falsy_num _), (falsy_str _); simpl;
    rewrite ?elem_of_nil, ?list_elem_of_singleton; intuition congruence.
Qed.

Lemma elem_of_chapter_rows bookName cn r :
  r ∈ chapter_rows bookName cn ↔
    Number_of_attr (c_number cn) ≠ 0
    ∧ ∃ vn, vn ∈ c_verses cn
            ∧ r ∈ verse_rows bookName (Number_of_attr (c_number cn)) vn.
Proof.
  unfold chapter_rows. rewrite <- falsy_num_false.
  destruct (falsy_num _).
  - rewrite elem_of_nil. intuition congruence.
  - rewrite list_elem_of_bind. split.
    + intros (vn & Hr & Hvn). split; [done|by exists vn].
    + intros (_ & vn & Hvn & Hr). by exists vn.
Qed.

Lemma elem_of_book_rows bn r :
  r ∈ book_rows bn ↔
    ∃ bookName, BOOKS_at (Number_of_attr (b_number bn) - 1) = Some bookName
      ∧ ∃ cn, cn ∈ b_chapters bn ∧ r ∈ chapter_rows bookName cn.
Proof.
  unfold book_rows. destruct (BOOKS_at _) as [bookName|].
  - rewrite list_elem_of_bind. split.
    + intros (cn & Hr & Hcn). exists bookName. split; [done|by exists cn].
    + intros (? & [= <-] & cn & Hcn & Hr). by exists cn.
  - rewrite elem_of_nil. split; [done|by intros (? & ? & _)].
Qed.

Lemma elem_of_collect_rows xml r :
  r ∈ rows (collect_rows xml) ↔
    ∃ bn cn vn bookName,
      bn ∈ bookNodes xml
      ∧ BOOKS_at (Number_of_attr (b_number bn) - 1) = Some bookName
      ∧ cn ∈ b_chapters bn ∧ Number_of_attr (c_number cn) ≠ 0
      ∧ vn ∈ c_verses cn ∧ Number_of_attr (v_number vn) ≠ 0
      ∧ normalizeWhitespace (v_textContent vn) ≠ []
      ∧ r = made_row bookName cn vn.
Proof.
  destruct (collect_rows_eq xml) as [-> _].
  rewrite list_elem_of_bind. split.
  - intros (bn & Hr & Hbn).
    apply elem_of_book_rows in Hr as (bookName & Hb & cn & Hcn & Hr).
    apply elem_of_chapter_rows in Hr as (Hc & vn & Hvn & Hr).
    apply elem_of_verse_rows in Hr as (Hv & Ht & ->).
    by exists bn, cn, vn, bookName.
  - intros (bn & cn & vn & bookName & Hbn & Hb & Hcn & Hc & Hvn & Hv & Ht & ->).
    exists bn. split; [|done].
    apply elem_of_book_rows. exists bookName. split; [done|].
    exists cn. split; [done|].
    apply elem_of_chapter_rows. split; [done|].
    exists vn. split; [done|]. by apply elem_of_verse_rows.
Qed.

(** What a call of the importer does, by the checks it passes. *)
Lemma importBibleFromXML_run res storeName w :
  importBibleFromXML res storeName w =
    if negb (res_ok res) then (Rejected (FetchFailed (res_status res)), w)
    else if parsererror (res_xml res) then (Rejected MalformedSource, w)
    else
      let written := rows (collect_rows (res_xml res)) in
      match written with
      | [] => (Rejected EmptySource, w)
      | _ => (Resolved {| verses := length written;
                          books := length (remove_dups (vr_book <$> written)) |},
              {| objs := put_all (objs w) written;
                 txlog := opened storeName readwrite w |})
      end.
Proof.
  unfold importBibleFromXML.
  destruct (negb _); [done|]. destruct (parsererror _); [done|].
  destruct (rows _) as [|r l] eqn:E; [done|].
  change (length (r :: l) =? 0)%nat with false. cbv iota.
  unfold mbind, task_bind. by rewrite putMany_run.
Qed.

Lemma words_acc_spec s : ∀ w, no_ws w →
  Forall (λ x, x ≠ [] ∧ no_ws x) (split_ws w s).
Proof.
  induction s as [|c t IH]; intros w Hw; simpl.
  - destruct w; [constructor|]. constructor; [by split|constructor].
  - destruct (is_ws c) eqn:Hc.
    + destruct w; [apply IH; constructor|].
      constructor; [by split|]. apply IH. constructor.
    + apply IH. apply Forall_app. split; [done|]. by apply Forall_singleton.
Qed.

(** A word is a non-empty run of code units that are not whitespace. *)
Lemma words_spec s : Forall (λ x, x ≠ [] ∧ no_ws x) (words s).
Proof. apply words_acc_spec. constructor. Qed.

Lemma concat_split_ws s : ∀ w,
  concat (split_ws w s) = w ++ filter (λ c, is_ws c = false) s.
Proof.
  induction s as [|c t IH]; intros w; simpl.
  - rewrite filter_nil, app_nil_r. destruct w; [done|]. simpl. by rewrite app_nil_r.
  - rewrite filter_cons. destruct (is_ws c) eqn:Hc.
    + rewrite decide_False by done.
      destruct w; [apply IH|]. simpl. by rewrite IH.
    + rewrite decide_True by done. by rewrite IH, <- app_assoc.
Qed.

(** The words hold the code units that are not whitespace, in order. *)
Lemma concat_words s : concat (words s) = filter (λ c, is_ws c = false) s.
Proof. apply concat_split_ws. Qed.

Lemma words_nil_iff s : words s = [] ↔ Forall (λ c, is_ws c = true) s.
Proof.
  split.
  - intros Hw. pose proof (concat_words s) as Hc. rewrite Hw in Hc. simpl in Hc.
    apply Forall_forall. intros c Hin.
    destruct (is_ws c) eqn:E; [done|].
    assert (c ∈ filter (λ c, is_ws c = false) s) as Hf by by apply list_elem_of_filter.
    rewrite <- Hc in Hf. by apply elem_of_nil in Hf.
  - unfold words. induction 1 as [|c t Hc _ IH]; [done|]. simpl. by rewrite Hc.
Qed.

Lemma trim_nil_iff s : trim s = [] ↔ Forall (λ c, is_ws c = true) s.
Proof.
  unfold trim. induction s as [|c t IH]; [done|].
  simpl. destruct (is_ws c) eqn:Hc.
  - rewrite IH. split; [by constructor|by inversion 1].
  - split.
    + simpl. rewrite Hc. by destruct (trimEnd t).
    + inversion 1; congruence.
Qed.

Section put_all.
Context {R : Type} `{Keyed R}.

Lemma put_all_snoc (m : gmap jsstring R) rows r :
  put_all m (rows ++ [r]) = <[key_of r := r]> (put_all m rows).
Proof. unfold put_all. by rewrite foldl_app. Qed.

Lemma put_all_lookup_None (m : gmap jsstring R) rows k :
  put_all m rows !! k = None ↔ m !! k = None ∧ k ∉ key_of <$> rows.
Proof.
  induction rows as [|r rows IH] using rev_ind.
  - simpl. rewrite elem_of_nil. tauto.
  - rewrite put_all_snoc, fmap_app, elem_of_app, lookup_insert_None, IH.
    simpl. rewrite list_elem_of_singleton. intuition congruence.
Qed.

Lemma put_all_lookup_elem (m : gmap jsstring R) rows r :
  r ∈ rows → is_Some (put_all m rows !! key_of r).
Proof.
  intros Hr. destruct (put_all m rows !! key_of r) eqn:E; [done|].
  apply put_all_lookup_None in E as [_ []].
  apply list_elem_of_fmap. by exists r.
Qed.

Lemma size_put_all_NoDup rows :
  NoDup (key_of <$> rows) → size (put_all (∅ : gmap jsstring R) rows) = length rows.
Proof.
  induction rows as [|r rows IH] using rev_ind; [done|].
  rewrite fmap_app, NoDup_app. intros (Hnd & Hdisj & _).
  rewrite put_all_snoc, map_size_insert_None.
  - rewrite length_app, IH by done. simpl. lia.
  - apply put_all_lookup_None. split; [done|].
    intros Hin. apply (Hdisj _ Hin). simpl. left.
Qed.
End put_all.

Lemma countStore_run {R} `{Keyed R} storeName (w : World R) :
  (countStore storeName w).1 = Resolved (size (objs w)).
Proof. done. Qed.

Lemma getAll_run {R} `{Keyed R} storeName (w : World R) :
  (getAll storeName w).1 = Resolved (store_rows (objs w)).
Proof. done. Qed.

(** C6: importing a document a second time leaves the collection as the
    first import left it: the same records under the same keys, hence the
    same row count and the same listing, and the second import gives the
    same answer as the first. *)
Theorem import_twice_same_collection res storeName (w : World VerseRow) :
  let first := importBibleFromXML res storeName w in
  let second := importBibleFromXML res storeName first.2 in
  objs second.2 = objs first.2
  ∧ (countStore storeName second.2).1 = (countStore storeName first.2).1
  ∧ (getAll storeName second.2).1 = (getAll storeName first.2).1
  ∧ second.1 = first.1.
Proof.
  cbv zeta. rewrite !countStore_run, !getAll_run, !importBibleFromXML_run.
  destruct (negb _); [done|]. destruct (parsererror _); [done|].
  cbv zeta. destruct (rows _) as [|r l]; [done|].
  cbn [fst snd objs]. by rewrite put_all_idemp.
Qed.

(** C7: after a successful fetch, a document with a parse error is refused
    as malformed and a document that yields no verse row is refused as
    empty; a refused import opens no transaction and leaves the collection
    as it was. *)
Theorem import_failure_leaves_collection res storeName (w : World VerseRow) :
  res_ok res = true →
  (parsererror (res_xml res) = true →
     importBibleFromXML res storeName w = (Rejected MalformedSource, w))
  ∧ (parsererror (res_xml res) = false → rows (collect_rows (res_xml res)) = [] →
       importBibleFromXML res storeName w = (Rejected EmptySource, w))
  ∧ (∀ e w', importBibleFromXML res storeName w = (Rejected e, w') → w' = w).
Proof.
  intros Hok. rewrite importBibleFromXML_run, Hok. simpl.
  split; [by intros ->|]. split; [by intros -> ->|].
  intros e w'. destruct (parsererror _); [by intros [= _ ->]|].
  cbv zeta. destruct (rows _); [by intros [= _ ->]|done].
Qed.

(** C8: the rows the importer collects are those of the verse nodes whose
    book ordinal is in the table of names (1 to 66), whose chapter and
    verse ordinals are present and not zero and whose normalised text is
    not empty; a verse node without ordinal, with ordinal zero or with
    blank text and a book node outside the table leave the rows as they
    are.  The text of a row is the words of the node's text joined by
    single ASCII spaces, a word being a maximal run of code units that are
    not whitespace, and the non-breaking space is whitespace. *)
Theorem importer_skips_and_normalizes (xml : XmlDocument) :
  (∀ r, r ∈ rows (collect_rows xml) ↔
     ∃ bn cn vn bookName,
       bn ∈ bookNodes xml
       ∧ BOOKS_at (Number_of_attr (b_number bn) - 1) = Some bookName
       ∧ cn ∈ b_chapters bn ∧ Number_of_attr (c_number cn) ≠ 0
       ∧ vn ∈ c_verses cn ∧ Number_of_attr (v_number vn) ≠ 0
       ∧ normalizeWhitespace (v_textContent vn) ≠ []
       ∧ r = made_row bookName cn vn)
  ∧ (∀ bookName chapNum acc vn,
       v_number vn = None ∨ v_number vn = Some 0
       ∨ normalizeWhitespace (v_textContent vn) = [] →
       visit_verse bookName chapNum acc vn = acc)
  ∧ (∀ acc bn,
       BOOKS_at (Number_of_attr (b_number bn) - 1) = None → visit_book acc bn = acc)
  ∧ (∀ n, is_Some (BOOKS_at (n - 1)) ↔ 1 ≤ n ≤ 66)
  ∧ (∀ s, normalizeWhitespace s = join_space (words s)
          ∧ Forall (λ x, x ≠ [] ∧ Forall (λ c, is_ws c = false) x) (words s)
          ∧ concat (words s) = filter (λ c, is_ws c = false) s
          ∧ (normalizeWhitespace s = [] ↔ Forall (λ c, is_ws c = true) s))
  ∧ is_ws NBSP = true.
Proof.
  split; [apply elem_of_collect_rows|].
  split.
  { intros bookName chapNum acc vn Hskip. unfold visit_verse.
    destruct Hskip as [-> | [-> | ->]]; [done|done|]. by rewrite orb_true_r. }
  split; [by intros acc bn Hb; unfold visit_book; rewrite Hb|].
  split; [apply BOOKS_at_Some|].
  split; [|done]. intros s.
  split; [apply normalizeWhitespace_words|]. split; [apply words_spec|].
  split; [apply concat_words|].
  rewrite normalizeWhitespace_words, <- words_nil_iff.
  pose proof (words_spec s) as Hw.
  destruct (words s) as [|x l]; [done|].
  apply Forall_cons in Hw as [[Hx _] _]. split; [|done].
  simpl. by destruct x.
Qed.

(** ** Search *)

Lemma starts_with_spec q s : starts_with q s = true ↔ ∃ post, s = q ++ post.
Proof.
  revert s. induction q as [|a q IH]; intros s; simpl.
  - split; [by exists s|done].
  - destruct s as [|b s]; [split; [done|by intros [? ?]]|].
    rewrite andb_true_iff, N.eqb_eq, IH. split.
    + intros [-> [post ->]]. by exists post.
    + intros [post [= -> ->]]. eauto.
Qed.

(** [includes] is containment as a contiguous substring. *)
Lemma includes_spec s q : includes s q = true ↔ ∃ pre post, s = pre ++ q ++ post.
Proof.
  induction s as [|c t IH].
  - simpl. rewrite orb_false_r, starts_with_spec. split.
    + intros [post ->]. by exists [], post.
    + intros (pre & post & E). symmetry in E.
      apply app_eq_nil in E as [-> E]. apply app_eq_nil in E as [-> ->]. by exists [].
  - cbn [includes]. rewrite orb_true_iff, starts_with_spec, IH. split.
    + intros [[post ->]|(pre & post & ->)]; [by exists [], post|by exists (c :: pre), post].
    + intros ([|d pre] & post & E); [left; by exists post|right].
      injection E as -> ->. by exists pre, post.
Qed.

Section search.
Context {R : Type} `{Keyed R}.
Variable toLowerCase : jsstring → jsstring.
Variable text_of : R → jsstring.

Lemma cursor_loop_take q limit cursor hits :
  (length hits ≤ limit)%nat →
  cursor_loop toLowerCase text_of q limit cursor hits
  = take limit (hits ++ filter (λ r, includes (toLowerCase (text_of r)) q = true) cursor).
Proof.
  revert hits. induction cursor as [|v rest IH]; intros hits Hlen; simpl.
  - rewrite filter_nil, app_nil_r. by rewrite take_ge.
  - destruct (Nat.leb_spec limit (length hits)) as [Hfull|Hroom].
    + by rewrite take_app_le, take_ge by lia.
    + rewrite filter_cons.
      destruct (includes (toLowerCase (text_of v)) q) eqn:E.
      * rewrite decide_True by done. rewrite IH by (rewrite length_app; simpl; lia).
        by rewrite <- app_assoc.
      * rewrite decide_False by done. by apply IH.
Qed.

Lemma searchTextCursor_nonblank storeName query limit (w : World R) :
  toLowerCase (trim query) ≠ [] →
  searchTextCursor toLowerCase text_of storeName query limit w
  = (Resolved (cursor_loop toLowerCase text_of (toLowerCase (trim query)) limit
                 (store_rows (objs w)) []),
     {| objs := objs w; txlog := opened storeName readonly w |}).
Proof.
  intros Hq. unfold searchTextCursor.
  by destruct (toLowerCase (trim query)).
Qed.

(** C2: when lower-casing keeps the trimmed query empty or non-empty as it
    was, the search on a query that is not blank opens one read-only
    transaction and answers with the records whose lower-cased text
    contains the lower-cased trimmed query, in the order of the cursor
    (ascending primary key), cut after [limit] records: [min] of the number
    of matches and [limit] records.  On a blank query it answers [[]] at
    once and opens no transaction. *)
Theorem searchTextCursor_spec storeName query limit (w : World R) :
  falsy_str (toLowerCase (trim query)) = falsy_str (trim query) →
  let q := toLowerCase (trim query) in
  let matches :=
    filter (λ r, includes (toLowerCase (text_of r)) q = true) (store_rows (objs w)) in
  (¬ Forall (λ c, is_ws c = true) query →
     searchTextCursor toLowerCase text_of storeName query limit w
     = (Resolved (take limit matches),
        {| objs := objs w;
           txlog := txlog w ++ [{| tx_store := storeName; tx_mode := readonly |}] |})
     ∧ length (take limit matches) = Nat.min (length matches) limit)
  ∧ (Forall (λ c, is_ws c = true) query →
       searchTextCursor toLowerCase text_of storeName query limit w = (Resolved [], w))
  ∧ (∀ s, includes s q = true ↔ ∃ pre post, s = pre ++ q ++ post)
  ∧ (∃ entries, store_rows (objs w) = entries.*2
       ∧ StronglySorted (λ p p', lexico p.1 p'.1) entries
       ∧ ∀ k r, (k, r) ∈ entries ↔ objs w !! k = Some r).
Proof.
  intros Hlower q matches.
  split; [|split; [|split]].
  - intros Hq. rewrite <- trim_nil_iff in Hq.
    apply falsy_str_false in Hq. rewrite <- Hlower in Hq. apply falsy_str_false in Hq.
    split; [|rewrite length_take; lia].
    rewrite searchTextCursor_nonblank by done.
    by rewrite cursor_loop_take by (simpl; lia).
  - intros Hq. rewrite <- trim_nil_iff in Hq. unfold searchTextCursor.
    rewrite Hlower, Hq. done.
  - intros s. apply includes_spec.
  - exists (store_entries (objs w)). split; [done|].
    split; [apply store_entries_sorted|apply elem_of_store_entries].
Qed.
End search.

(** ** Chapters *)

Section array_sort.
Context {A : Type} (f : A → Z).

Lemma sort_insert_perm x l : sort_insert (λ a b, f a - f b) x l ≡ₚ x :: l.
Proof.
  induction l as [|y l IH]; [done|]. simpl.
  destruct (f x - f y <=? 0); [done|]. by rewrite IH, Permutation_swap.
Qed.

Lemma array_sort_perm l : array_sort (λ a b, f a - f b) l ≡ₚ l.
Proof.
  induction l as [|x l IH]; [done|]. simpl.
  by rewrite sort_insert_perm, IH.
Qed.

Lemma sort_insert_sorted x l :
  StronglySorted (λ a b, f a ≤ f b) l →
  StronglySorted (λ a b, f a ≤ f b) (sort_insert (λ a b, f a - f b) x l).
Proof.
  induction 1 as [|y l Hl IH Hy]; simpl; [repeat constructor|].
  destruct (Z.leb_spec (f x - f y) 0) as [Hle|Hgt].
  - constructor; [by constructor|].
    constructor; [lia|]. eapply Forall_impl; [exact Hy|]. simpl. lia.
  - constructor; [done|].
    rewrite sort_insert_perm. constructor; [lia|done].
Qed.

Lemma array_sort_sorted l :
  StronglySorted (λ a b, f a ≤ f b) (array_sort (λ a b, f a - f b) l).
Proof.
  induction l as [|x l IH]; [constructor|]. by apply sort_insert_sorted.
Qed.

Lemma sorted_strict l :
  StronglySorted (λ a b, f a ≤ f b) l → NoDup (f <$> l) →
  StronglySorted (λ a b, f a < f b) l.
Proof.
  induction 1 as [|x l Hl IH Hx]; [constructor|].
  rewrite fmap_cons. intros [Hnx Hnd]%NoDup_cons.
  constructor; [by apply IH|].
  apply Forall_forall. intros y Hy. rewrite Forall_forall in Hx.
  specialize (Hx y Hy). destruct (decide (f x = f y)) as [E|]; [|lia].
  destruct Hnx. rewrite E. apply list_elem_of_fmap. by exists y.
Qed.
End array_sort.

Lemma NoDup_fmap_inj_on {A B} (f : A → B) (l : list A) x y :
  NoDup (f <$> l) → x ∈ l → y ∈ l → f x = f y → x = y.
Proof.
  induction l as [|a l IH]; [by intros _ ?%elem_of_nil|].
  rewrite fmap_cons. intros [Ha Hnd]%NoDup_cons.
  intros [->|Hx]%elem_of_cons [->|Hy]%elem_of_cons E; auto.
  - destruct Ha. rewrite E. apply list_elem_of_fmap. by exists y.
  - destruct Ha. rewrite <- E. apply list_elem_of_fmap. by exists x.
Qed.

Lemma getChapterFromStore_run storeName book chapter (w : World VerseRow) :
  getChapterFromStore storeName book chapter w
  = (Resolved (array_sort (λ a b, vr_verse a - vr_verse b)
                 (filter (λ r, (vr_book r, vr_chapter r) = (book, chapter))
                    (store_rows (objs w)))),
     {| objs := objs w; txlog := opened storeName readonly w |}).
Proof. done. Qed.

(** C4: the chapter fetch always resolves.  It answers with the records of
    the store that carry the book and the chapter, each once, in ascending
    order of verse number whatever their order in the store; in a store
    keyed as the importer keys it the order is strict.  When no record
    carries the book and the chapter the answer is the empty list. *)
Theorem getChapterFromStore_sorted storeName book chapter (w : World VerseRow) :
  ∃ verses w',
    getChapterFromStore storeName book chapter w = (Resolved verses, w')
    ∧ objs w' = objs w
    ∧ verses ≡ₚ filter (λ r, (vr_book r, vr_chapter r) = (book, chapter))
                   (store_rows (objs w))
    ∧ (∀ r, r ∈ verses ↔
            (∃ k, objs w !! k = Some r) ∧ vr_book r = book ∧ vr_chapter r = chapter)
    ∧ StronglySorted (λ a b, vr_verse a ≤ vr_verse b) verses
    ∧ (verse_store_ok (objs w) →
         StronglySorted (λ a b, vr_verse a < vr_verse b) verses)
    ∧ ((∀ k r, objs w !! k = Some r → ¬ (vr_book r = book ∧ vr_chapter r = chapter)) →
         verses = []).
Proof.
  eexists _, _. split; [apply getChapterFromStore_run|].
  set (hits := filter _ _).
  assert (∀ r, r ∈ hits ↔
            (∃ k, objs w !! k = Some r) ∧ vr_book r = book ∧ vr_chapter r = chapter) as Hhits.
  { intros r. unfold hits. rewrite list_elem_of_filter, elem_of_store_rows.
    split; [intros [[= ? ?] ?]|intros (? & -> & ->)]; done. }
  split; [done|]. split; [apply (array_sort_perm vr_verse)|].
  split; [intros r; by rewrite (array_sort_perm vr_verse)|].
  split; [apply (array_sort_sorted vr_verse)|]. split.
  - intros Hok. apply (sorted_strict vr_verse); [apply (array_sort_sorted vr_verse)|].
    rewrite (array_sort_perm vr_verse).
    assert (store_wf (objs w)) as Hwf by (intros k r Hr; by destruct (Hok k r Hr) as [-> _]).
    pose proof (NoDup_store_rows_keys (objs w) Hwf) as Hnd.
    apply NoDup_fmap_2_strong.
    + intros x y Hx Hy E.
      apply Hhits in Hx as ([kx Hx] & Hbx & Hcx), Hy as ([ky Hy] & Hby & Hcy).
      apply (NoDup_fmap_inj_on key_of (store_rows (objs w))); try done.
      * apply elem_of_store_rows; eauto.
      * apply elem_of_store_rows; eauto.
      * destruct (Hok _ _ Hx) as [_ Ex], (Hok _ _ Hy) as [_ Ey].
        unfold key_of, VerseRow_keyed. rewrite Ex, Ey. congruence.
    + apply NoDup_filter. by apply NoDup_fmap_1 in Hnd.
  - intros Hnone. apply Permutation_nil_r. rewrite (array_sort_perm vr_verse).
    destruct hits as [|r l]; [done|].
    assert (r ∈ r :: l) as Hr by left.
    apply Hhits in Hr as ([k Hk] & ? & ?). by destruct (Hnone k r Hk).
Qed.

(** ** Bookmarks *)

Lemma toggleBookmark_run now translation book chapter (w : World Bookmark) :
  toggleBookmark now translation book chapter w =
    match objs w !! bookmarkKey translation book chapter with
    | Some _ =>
        (Resolved false,
         {| objs := delete (bookmarkKey translation book chapter) (objs w);
            txlog := toggle_tx w |})
    | None =>
        (Resolved true,
         {| objs := <[bookmarkKey translation book chapter :=
                        new_bookmark now translation book chapter]> (objs w);
            txlog := toggle_tx w |})
    end.
Proof.
  unfold toggleBookmark, mbind, task_bind, toggle_tx. rewrite getOne_run.
  destruct (objs w !! _); simpl; unfold opened; simpl; by rewrite <- app_assoc.
Qed.

Lemma bookmarks_ok_empty : bookmarks_ok ∅.
Proof. intros k r. by rewrite lookup_empty. Qed.

Lemma bookmarks_ok_toggle now translation book chapter (w : World Bookmark) :
  bookmarks_ok (objs w) →
  bookmarks_ok (objs (toggleBookmark now translation book chapter w).2).
Proof.
  intros Hok. rewrite toggleBookmark_run.
  destruct (objs w !! _) eqn:E; simpl; intros k r.
  - intros [_ Hr]%lookup_delete_Some. by apply Hok.
  - intros [[<- <-]|[_ Hr]]%lookup_insert_Some; [done|by apply Hok].
Qed.

Lemma bookmarks_ok_toggle_calls calls (w : World Bookmark) :
  bookmarks_ok (objs w) → bookmarks_ok (objs (toggle_calls calls w).2).
Proof.
  revert w. induction calls as [|c calls IH]; intros w Hok; [done|].
  unfold toggle_calls. simpl. unfold mbind, task_bind.
  pose proof (bookmarks_ok_toggle (tc_now c) (tc_translation c) (tc_book c)
                (tc_chapter c) w Hok) as Hstep.
  rewrite toggleBookmark_run in *.
  destruct (objs w !! _); simpl in *; by apply IH.
Qed.

Lemma NoDup_all_equal {A} (l : list A) a :
  NoDup l → (∀ x, x ∈ l → x = a) → (length l ≤ 1)%nat.
Proof.
  intros Hnd Hall. destruct l as [|x [|y l]]; simpl; [lia|lia|].
  apply NoDup_cons in Hnd as [Hx _]. destruct Hx.
  rewrite (Hall x), <- (Hall y); [left|right; left|left].
Qed.

Lemma filter_fmap_snd {K A} (P : A → Prop) `{∀ x, Decision (P x)} (l : list (K * A)) :
  filter P l.*2 = (filter (λ p, P p.2) l).*2.
Proof.
  induction l as [|p l IH]; [done|].
  rewrite fmap_cons, !filter_cons. simpl.
  destruct (decide (P p.2)); simpl; by rewrite IH.
Qed.

Lemma bookmarks_at_most_one (m : gmap jsstring Bookmark) translation book chapter :
  bookmarks_ok m →
  (length (filter (λ r, bm_translation r = translation ∧ bm_book r = book
                        ∧ bm_chapter r = chapter) (store_rows m)) ≤ 1)%nat.
Proof.
  intros Hok. rewrite store_rows_entries, filter_fmap_snd, length_fmap.
  rewrite <- (length_fmap fst).
  apply (NoDup_all_equal _ (bookmarkKey translation book chapter)).
  - apply NoDup_fmap_fst.
    + intros k r1 r2 [_ H1]%list_elem_of_filter [_ H2]%list_elem_of_filter.
      apply elem_of_store_entries in H1, H2. congruence.
    + apply NoDup_filter. eapply NoDup_fmap_1, NoDup_store_entries_keys.
  - intros k ([k' r] & -> & [(<- & <- & <-) Hin]%list_elem_of_filter)%list_elem_of_fmap.
    apply elem_of_store_entries in Hin. by apply Hok.
Qed.

(** C5: a toggle on a chapter that has a bookmark under the derived key
    deletes it and answers [false] (removed); on a chapter that has none
    it stores a bookmark stamped with the clock reading and answers [true]
    (added).  Three toggles in a row from a chapter without a bookmark
    answer added, removed, added.  After any run of toggles on an empty
    store at most one record carries a given translation, book and
    chapter. *)
Theorem toggleBookmark_toggles now translation book chapter (w : World Bookmark) :
  let key := bookmarkKey translation book chapter in
  (is_Some (objs w !! key) →
     ∃ w', toggleBookmark now translation book chapter w = (Resolved false, w')
           ∧ objs w' = delete key (objs w) ∧ objs w' !! key = None)
  ∧ (objs w !! key = None →
       ∃ w', toggleBookmark now translation book chapter w = (Resolved true, w')
             ∧ objs w' = <[key := new_bookmark now translation book chapter]> (objs w)
             ∧ bm_savedAt <$> objs w' !! key = Some now)
  ∧ (objs w !! key = None → ∀ now2 now3,
       ∃ w1 w2 w3,
         toggleBookmark now translation book chapter w = (Resolved true, w1)
         ∧ toggleBookmark now2 translation book chapter w1 = (Resolved false, w2)
         ∧ toggleBookmark now3 translation book chapter w2 = (Resolved true, w3)
         ∧ objs w2 = objs w)
  ∧ (∀ calls t b c,
       length (filter (λ r, bm_translation r = t ∧ bm_book r = b ∧ bm_chapter r = c)
                 (store_rows (objs (toggle_calls calls empty_world).2))) ≤ 1)%nat.
Proof.
  intros key. split; [|split; [|split]].
  - intros [r Hr]. eexists. rewrite toggleBookmark_run. fold key. rewrite Hr.
    split; [done|]. simpl. split; [done|apply lookup_delete_eq].
  - intros Hnone. eexists. rewrite toggleBookmark_run. fold key. rewrite Hnone.
    split; [done|]. simpl. split; [done|]. by rewrite lookup_insert_eq.
  - intros Hnone now2 now3.
    set (w1 := {| objs := <[key := new_bookmark now translation book chapter]> (objs w);
                  txlog := toggle_tx w |}).
    set (w2 := {| objs := delete key (objs w1); txlog := toggle_tx w1 |}).
    exists w1, w2,
      {| objs := <[key := new_bookmark now3 translation book chapter]> (objs w2);
         txlog := toggle_tx w2 |}.
    rewrite !toggleBookmark_run. fold key. rewrite Hnone.
    split; [done|]. cbn [objs w1]. rewrite lookup_insert_eq.
    split; [done|]. cbn [objs w2]. rewrite lookup_delete_eq.
    split; [done|]. by apply delete_insert_id.
  - intros calls t b c. apply bookmarks_at_most_one.
    apply bookmarks_ok_toggle_calls, bookmarks_ok_empty.
Qed.

(** ** Settings *)

Lemma saveSetting_run key value (w : World Setting) :
  saveSetting key value w
  = (Resolved tt, {| objs := <[key := {| set_key := key; set_value := value |}]> (objs w);
                     txlog := opened STORE_SETTINGS readwrite w |}).
Proof. done. Qed.

Lemma loadSetting_run key (w : World Setting) :
  loadSetting key w
  = (Resolved (set_value <$> objs w !! key),
     {| objs := objs w; txlog := opened STORE_SETTINGS readonly w |}).
Proof.
  unfold loadSetting, mbind, task_bind. rewrite getOne_run.
  by destruct (objs w !! key).
Qed.

Lemma save_calls_lookup_None calls key (w : World Setting) :
  key ∉ calls.*1 → objs (save_calls calls w).2 !! key = objs w !! key.
Proof.
  revert w. induction calls as [|[k v] calls IH]; intros w Hk; [done|].
  rewrite fmap_cons, not_elem_of_cons in Hk. destruct Hk as [Hne Hk].
  unfold save_calls. simpl. unfold mbind, task_bind. rewrite saveSetting_run.
  fold (save_calls calls). rewrite IH by done. simpl.
  by rewrite lookup_insert_ne.
Qed.

(** C10: loading a key after saving a value under it answers that value;
    of two saves under one key the later wins; a save under another key
    does not disturb it; a key the store has no record for, such as one no
    save of a run on an empty store names, loads as [null]. *)
Theorem setting_save_then_load key value (w : World Setting) :
  (loadSetting key (saveSetting key value w).2).1 = Resolved (Some value)
  ∧ (∀ value',
       (loadSetting key (saveSetting key value' (saveSetting key value w).2).2).1
       = Resolved (Some value'))
  ∧ (∀ key' value', key' ≠ key →
       (loadSetting key (saveSetting key' value' (saveSetting key value w).2).2).1
       = Resolved (Some value))
  ∧ (objs w !! key = None → (loadSetting key w).1 = Resolved None)
  ∧ (∀ calls, key ∉ calls.*1 →
       (loadSetting key (save_calls calls empty_world).2).1 = Resolved None).
Proof.
  rewrite !loadSetting_run, !saveSetting_run. cbn [fst snd objs].
  split; [by rewrite lookup_insert_eq|].
  split; [intros value'; rewrite loadSetting_run, saveSetting_run; cbn [fst snd objs];
          by rewrite lookup_insert_eq|].
  split; [intros key' value' Hne; rewrite loadSetting_run, saveSetting_run;
          cbn [fst snd objs]; by rewrite lookup_insert_ne, lookup_insert_eq|].
  split; [by intros ->|].
  intros calls Hk. rewrite loadSetting_run. cbn [fst].
  by rewrite save_calls_lookup_None.
Qed.

(** ** Verse styles *)

Section put_all_lookup.
Context {R : Type} `{Keyed R}.

Lemma put_all_lookup_NoDup (rows : list R) k r :
  NoDup (key_of <$> rows) →
  put_all ∅ rows !! k = Some r ↔ r ∈ rows ∧ key_of r = k.
Proof.
  induction rows as [|x rows IH] using rev_ind.
  - intros _. simpl. rewrite lookup_empty, elem_of_nil. split; [done|by intros [[] _]].
  - rewrite fmap_app, NoDup_app. intros (Hnd & Hdisj & _).
    rewrite put_all_snoc, lookup_insert_Some, IH, elem_of_app, list_elem_of_singleton by done.
    split.
    + intros [[<- <-]|(Hne & Hr & <-)]; auto.
    + intros [[Hr| ->] <-]; [right|by left].
      split; [|done]. intros E. apply (Hdisj (key_of r)).
      * apply list_elem_of_fmap. by exists r.
      * rewrite <- E. simpl. left.
Qed.
End put_all_lookup.

Lemma getStylesForChapter_run translation book chapter (w : World VerseStyle) :
  getStylesForChapter translation book chapter w
  = (Resolved (put_all ∅ (filter (λ r, (vs_translation r, vs_book r, vs_chapter r)
                                       = (translation, book, chapter))
                            (store_rows (objs w)))),
     {| objs := objs w; txlog := opened STORE_VERSE_STYLES readonly w |}).
Proof. done. Qed.

(** In the [Map] of a chapter a style sits under its own key. *)
Lemma chapter_styles_lookup (translation book : jsstring) (chapter : Z)
    (m : gmap jsstring VerseStyle) (k : jsstring) (s : VerseStyle) :
  store_wf m →
  put_all ∅ (filter (λ r, (vs_translation r, vs_book r, vs_chapter r)
                           = (translation, book, chapter)) (store_rows m)) !! k
  = Some s
  ↔ m !! k = Some s
    ∧ vs_translation s = translation ∧ vs_book s = book ∧ vs_chapter s = chapter.
Proof.
  intros Hwf. rewrite put_all_lookup_NoDup.
  - rewrite list_elem_of_filter, elem_of_store_rows. split.
    + intros [[[= ? ? ?] [k' Hk']] <-]. by rewrite (Hwf _ _ Hk').
    + intros (Hs & -> & -> & ->). split; [split; [done|by exists k]|by apply Hwf].
  - pose proof (NoDup_store_rows_keys m Hwf) as Hnd.
    revert Hnd. generalize (store_rows m). intros l.
    induction l as [|x l IH]; [done|].
    rewrite fmap_cons, filter_cons. intros [Hx Hl]%NoDup_cons.
    destruct (decide _); [|by apply IH].
    rewrite fmap_cons. apply NoDup_cons. split; [|by apply IH].
    intros (y & Ey & [_ Hy]%list_elem_of_filter)%list_elem_of_fmap.
    apply Hx. apply list_elem_of_fmap. by exists y.
Qed.

Lemma upsertSelectedStyle_run now now' patch (st : AppState) v :
  state_selected st = Some v →
  let key := verseStyleKey (state_translation st) (sv_book v) (sv_chapter v) (sv_verse v) in
  let next := spread_patch (current_style st v) patch now in
  upsertSelectedStyle now now' patch st
  = (Resolved tt,
     {| state_db := {| objs := <[vs_key next := with_updatedAt next now']> (objs (state_db st));
                       txlog := style_tx (state_db st) |};
        state_translation := state_translation st;
        state_verses :=
          (λ x, if bool_decide (sv_book x = sv_book v)
                   && (sv_chapter x =? sv_chapter v) && (sv_verse x =? sv_verse v)
                then with_style x next else x) <$> state_verses st;
        state_stylesMap := <[key := next]> (state_stylesMap st);
        state_selected := Some (with_style v next) |}).
Proof.
  intros Hsel. unfold upsertSelectedStyle. rewrite Hsel.
  unfold mbind, task_bind, on_db, saveVerseStyle, mbind, task_bind.
  rewrite putOne_run. cbn. by rewrite Hsel.
Qed.

Lemma vs_key_spread current patch now : vs_key (spread_patch current patch now) = vs_key current.
Proof. done. Qed.

Lemma cache_entry_ok_fresh st v :
  state_stylesMap st
    !! verseStyleKey (state_translation st) (sv_book v) (sv_chapter v) (sv_verse v) = None →
  cache_entry_ok st v.
Proof. intros Hnone s Hs. by rewrite Hnone in Hs. Qed.

Lemma current_style_key st v :
  cache_entry_ok st v →
  vs_key (current_style st v)
  = verseStyleKey (state_translation st) (sv_book v) (sv_chapter v) (sv_verse v)
  ∧ vs_translation (current_style st v) = state_translation st
  ∧ vs_book (current_style st v) = sv_book v
  ∧ vs_chapter (current_style st v) = sv_chapter v.
Proof.
  unfold cache_entry_ok, current_style. intros Hok.
  destruct (state_stylesMap st !! _) as [s|] eqn:E; [by apply Hok|done].
Qed.

(** The record an upsert stores and the one it caches, property by
    property. *)
Lemma upsertSelectedStyle_stored now now' patch (st : AppState) v cur :
  state_selected st = Some v →
  let key := verseStyleKey (state_translation st) (sv_book v) (sv_chapter v) (sv_verse v) in
  current_style st v = cur → vs_key cur = key →
  let merged := λ stamp,
    {| vs_key := key; vs_translation := vs_translation cur; vs_book := vs_book cur;
       vs_chapter := vs_chapter cur; vs_verse := vs_verse cur;
       vs_color := default (vs_color cur) (p_color patch);
       vs_underline := default (vs_underline cur) (p_underline patch);
       vs_bold := default (vs_bold cur) (p_bold patch);
       vs_bookmarked := default (vs_bookmarked cur) (p_bookmarked patch);
       vs_note := default (vs_note cur) (p_note patch);
       vs_noteType := default (vs_noteType cur) (p_noteType patch);
       vs_noteFavorite := default (vs_noteFavorite cur) (p_noteFavorite patch);
       vs_updatedAt := Some stamp |} in
  let st' := (upsertSelectedStyle now now' patch st).2 in
  objs (state_db st') = <[key := merged now']> (objs (state_db st))
  ∧ state_stylesMap st' = <[key := merged now]> (state_stylesMap st)
  ∧ txlog (state_db st') = style_tx (state_db st)
  ∧ state_translation st' = state_translation st
  ∧ state_selected st' = Some (with_style v (merged now)).
Proof.
  intros Hsel key <- Ek merged st'. unfold st'.
  rewrite (upsertSelectedStyle_run _ _ _ _ v Hsel). cbv zeta.
  cbn [snd state_db state_stylesMap state_translation state_selected objs txlog].
  rewrite vs_key_spread. fold key. rewrite Ek.
  unfold merged, with_updatedAt, spread_patch.
  cbn [vs_key vs_translation vs_book vs_chapter vs_verse vs_color vs_underline vs_bold
         vs_bookmarked vs_note vs_noteType vs_noteFavorite vs_updatedAt].
  fold key. rewrite Ek. done.
Qed.

(** C3: with a verse selected and no style cached for it, the upsert
    writes, under the style key of the verse, the default style (colour
    "none", not underlined, not bold, not bookmarked, empty note, note type
    "study", not favourite) with the properties of the patch laid over it
    and [updatedAt] set to the clock reading.  With a style cached for it,
    it writes that style with the properties of the patch laid over it:
    every property the patch does not name keeps its value.  After an
    upsert of [{ bookmarked: true }] followed by an upsert of [{ note: x }]
    on the same selection, the stored style, read by key or through the
    styles of the chapter, is the style the first upsert started from with
    [bookmarked] true, note [x] and the last clock reading, every other
    property as it was. *)
Theorem upsertSelectedStyle_merges now now' patch (st : AppState) v :
  state_selected st = Some v →
  let t := state_translation st in
  let key := verseStyleKey t (sv_book v) (sv_chapter v) (sv_verse v) in
  let fresh := default_style key t (sv_book v) (sv_chapter v) (sv_verse v) in
  let st' := (upsertSelectedStyle now now' patch st).2 in
  (state_stylesMap st !! key = None →
     let written := λ stamp,
       {| vs_key := key; vs_translation := t; vs_book := sv_book v;
          vs_chapter := sv_chapter v; vs_verse := sv_verse v;
          vs_color := default (js "none") (p_color patch);
          vs_underline := default false (p_underline patch);
          vs_bold := default false (p_bold patch);
          vs_bookmarked := default false (p_bookmarked patch);
          vs_note := default [] (p_note patch);
          vs_noteType := default (js "study") (p_noteType patch);
          vs_noteFavorite := default false (p_noteFavorite patch);
          vs_updatedAt := Some stamp |} in
     objs (state_db st') = <[key := written now']> (objs (state_db st))
     ∧ state_stylesMap st' !! key = Some (written now))
  ∧ (∀ cur, state_stylesMap st !! key = Some cur → vs_key cur = key →
     let written := λ stamp,
       {| vs_key := key; vs_translation := vs_translation cur; vs_book := vs_book cur;
          vs_chapter := vs_chapter cur; vs_verse := vs_verse cur;
          vs_color := default (vs_color cur) (p_color patch);
          vs_underline := default (vs_underline cur) (p_underline patch);
          vs_bold := default (vs_bold cur) (p_bold patch);
          vs_bookmarked := default (vs_bookmarked cur) (p_bookmarked patch);
          vs_note := default (vs_note cur) (p_note patch);
          vs_noteType := default (vs_noteType cur) (p_noteType patch);
          vs_noteFavorite := default (vs_noteFavorite cur) (p_noteFavorite patch);
          vs_updatedAt := Some stamp |} in
     objs (state_db st') = <[key := written now']> (objs (state_db st))
     ∧ state_stylesMap st' !! key = Some (written now))
  ∧ (cache_entry_ok st v → store_wf (objs (state_db st)) →
     ∀ now2 now2' x,
       let cur := default fresh (state_stylesMap st !! key) in
       let st1 := (upsertSelectedStyle now now' (patch_bookmarked true) st).2 in
       let st2 := (upsertSelectedStyle now2 now2' (patch_note x) st1).2 in
       ∃ s styles w',
         objs (state_db st2) !! key = Some s
         ∧ getStylesForChapter t (sv_book v) (sv_chapter v) (state_db st2)
           = (Resolved styles, w')
         ∧ styles !! key = Some s
         ∧ s = {| vs_key := key; vs_translation := vs_translation cur;
                  vs_book := vs_book cur; vs_chapter := vs_chapter cur;
                  vs_verse := vs_verse cur; vs_color := vs_color cur;
                  vs_underline := vs_underline cur; vs_bold := vs_bold cur;
                  vs_bookmarked := true; vs_note := x;
                  vs_noteType := vs_noteType cur;
                  vs_noteFavorite := vs_noteFavorite cur;
                  vs_updatedAt := Some now2' |}).
Proof.
  intros Hsel t key fresh st'. split; [|split].
  - intros Hnone written.
    destruct (upsertSelectedStyle_stored now now' patch st v fresh Hsel) as (Edb & Emap & _).
    + unfold current_style. fold t key. by rewrite Hnone.
    + done.
    + fold st' in Edb, Emap. split; [exact Edb|].
      rewrite Emap. fold key. by rewrite lookup_insert_eq.
  - intros cur Hcur Ek written.
    destruct (upsertSelectedStyle_stored now now' patch st v cur Hsel) as (Edb & Emap & _).
    + unfold current_style. fold t key. by rewrite Hcur.
    + exact Ek.
    + fold st' in Edb, Emap. split; [exact Edb|].
      rewrite Emap. fold key. by rewrite lookup_insert_eq.
  - intros Hok Hwf now2 now2' x cur st1 st2.
    assert (current_style st v = cur) as Ecur0 by done.
    destruct (current_style_key st v Hok) as (Ek & Et & Eb & Ec). fold t key in Ek.
    rewrite Ecur0 in Ek, Et, Eb, Ec.
    set (next1 := λ stamp,
           {| vs_key := key; vs_translation := vs_translation cur;
              vs_book := vs_book cur; vs_chapter := vs_chapter cur;
              vs_verse := vs_verse cur; vs_color := vs_color cur;
              vs_underline := vs_underline cur; vs_bold := vs_bold cur;
              vs_bookmarked := true; vs_note := vs_note cur;
              vs_noteType := vs_noteType cur; vs_noteFavorite := vs_noteFavorite cur;
              vs_updatedAt := Some stamp |}).
    assert (objs (state_db st1) = <[key := next1 now']> (objs (state_db st))
            ∧ state_stylesMap st1 = <[key := next1 now]> (state_stylesMap st)
            ∧ state_translation st1 = t
            ∧ state_selected st1 = Some (with_style v (next1 now)))
      as (Edb1 & Emap1 & Et1 & Esel1).
    { destruct (upsertSelectedStyle_stored now now' (patch_bookmarked true) st v cur
                  Hsel Ecur0 Ek) as (H1 & H2 & _ & H3 & H4).
      split; [exact H1|]. split; [exact H2|]. split; [exact H3|exact H4]. }
    assert (verseStyleKey (state_translation st1) (sv_book (with_style v (next1 now)))
              (sv_chapter (with_style v (next1 now))) (sv_verse (with_style v (next1 now)))
            = key) as Ekey1 by (rewrite Et1; done).
    assert (current_style st1 (with_style v (next1 now)) = next1 now) as Ecur1.
    { unfold current_style. rewrite Ekey1, Emap1. by rewrite lookup_insert_eq. }
    set (s := {| vs_key := key; vs_translation := vs_translation cur;
                 vs_book := vs_book cur; vs_chapter := vs_chapter cur;
                 vs_verse := vs_verse cur; vs_color := vs_color cur;
                 vs_underline := vs_underline cur; vs_bold := vs_bold cur;
                 vs_bookmarked := true; vs_note := x;
                 vs_noteType := vs_noteType cur;
                 vs_noteFavorite := vs_noteFavorite cur;
                 vs_updatedAt := Some now2' |}).
    assert (objs (state_db st2) = <[key := s]> (objs (state_db st1))) as Edb2.
    { destruct (upsertSelectedStyle_stored now2 now2' (patch_note x) st1
                  (with_style v (next1 now)) (next1 now) Esel1 Ecur1) as (H1 & _).
      - by rewrite Ekey1.
      - fold st2 in H1. rewrite Ekey1 in H1. exact H1. }
    exists s. eexists _, _. rewrite getStylesForChapter_run.
    split; [by rewrite Edb2, lookup_insert_eq|]. split; [done|]. split; [|done].
    apply chapter_styles_lookup.
    + rewrite Edb2, Edb1.
      change (store_wf (<[key_of s := s]>
                          (<[key_of (next1 now') := next1 now']> (objs (state_db st))))).
      apply (store_wf_put (<[key_of (next1 now') := next1 now']> (objs (state_db st))) s).
      apply (store_wf_put (objs (state_db st)) (next1 now')). exact Hwf.
    + rewrite Edb2, lookup_insert_eq. done.
Qed.

Lemma styles_ok_empty : styles_ok ∅.
Proof. intros k s. by rewrite lookup_empty. Qed.

Lemma styles_ok_insert m s :
  styles_ok m →
  vs_key s = verseStyleKey (vs_translation s) (vs_book s) (vs_chapter s) (vs_verse s) →
  styles_ok (<[vs_key s := s]> m).
Proof.
  intros Hm Hs k s'. intros [[<- <-]|[_ Hk]]%lookup_insert_Some; [done|by apply Hm].
Qed.

Lemma verseStyleKey_verseKey translation book chapter verse :
  verseStyleKey translation book chapter verse
  = translation ++ BAR ++ verseKey book chapter verse.
Proof. done. Qed.

Lemma collect_rows_keyed xml r :
  r ∈ rows (collect_rows xml) →
  vr_key r = verseKey (vr_book r) (vr_chapter r) (vr_verse r).
Proof.
  intros (bn & cn & vn & bookName & _ & _ & _ & _ & _ & _ & _ & ->)%elem_of_collect_rows.
  done.
Qed.

Lemma current_style_ok st v :
  styles_ok (state_stylesMap st) →
  let cur := current_style st v in
  vs_key cur = verseStyleKey (vs_translation cur) (vs_book cur) (vs_chapter cur) (vs_verse cur)
  ∧ vs_key cur
    = verseStyleKey (state_translation st) (sv_book v) (sv_chapter v) (sv_verse v).
Proof.
  intros Hok. unfold current_style.
  destruct (state_stylesMap st !! _) as [s|] eqn:E; [|done].
  destruct (Hok _ _ E) as [Ek Es]. cbn [default]. split; [exact Es|symmetry; exact Ek].
Qed.

Lemma styles_ok_upsert now now' patch st :
  styles_ok (objs (state_db st)) → styles_ok (state_stylesMap st) →
  styles_ok (objs (state_db (upsertSelectedStyle now now' patch st).2))
  ∧ styles_ok (state_stylesMap (upsertSelectedStyle now now' patch st).2).
Proof.
  intros Hdb Hcache. destruct (state_selected st) as [v|] eqn:Hsel.
  - rewrite (upsertSelectedStyle_run _ _ _ _ v Hsel). cbv zeta.
    cbn [snd state_db state_stylesMap objs].
    destruct (current_style_ok st v Hcache) as [Ec Ek].
    set (cur := current_style st v) in *.
    split.
    + apply (styles_ok_insert _ (with_updatedAt (spread_patch cur patch now) now')); done.
    + rewrite <- Ek. by apply (styles_ok_insert _ (spread_patch cur patch now)).
  - unfold upsertSelectedStyle. by rewrite Hsel.
Qed.

(** C1, as the code has it: the key of a style record is the translation
    id, the delimiter and the key of the TextUnit of its verse.  For a
    TextUnit written by the importer, every style record in the store
    after an upsert that carries the locator of the TextUnit is stored
    under that key, and the join at render time looks it up there. *)
Theorem style_key_prefixes_verse_key xml r now now' patch (st : AppState) :
  r ∈ rows (collect_rows xml) →
  styles_ok (objs (state_db st)) → styles_ok (state_stylesMap st) →
  let st' := (upsertSelectedStyle now now' patch st).2 in
  (∀ k s, objs (state_db st') !! k = Some s →
     vs_book s = vr_book r → vs_chapter s = vr_chapter r → vs_verse s = vr_verse r →
     k = vs_key s ∧ vs_key s = vs_translation s ++ BAR ++ vr_key r)
  ∧ (∀ translation stylesMap,
       sv_style <$> join_styles translation stylesMap [r]
       = [stylesMap !! (translation ++ BAR ++ vr_key r)])
  ∧ styles_ok (objs (state_db st')) ∧ styles_ok (state_stylesMap st').
Proof.
  intros Hr Hdb Hcache st'.
  destruct (styles_ok_upsert now now' patch st Hdb Hcache) as [Hdb' Hcache'].
  pose proof (collect_rows_keyed xml r Hr) as Hkey.
  split; [|split; [|done]].
  - intros k s Hs Eb Ec Ev. destruct (Hdb' k s Hs) as [-> Ek].
    split; [done|]. by rewrite Ek, verseStyleKey_verseKey, Hkey, Eb, Ec, Ev.
  - intros translation stylesMap. simpl.
    by rewrite verseStyleKey_verseKey, <- Hkey.
Qed.

Example fixture_rows :
  (λ r, (vr_key r, vr_verse r, vr_text r)) <$> rows (collect_rows fixture_xml)
  = [ (js "Genesis|1|2", 2, js "And the earth was without form");
      (js "Genesis|1|10", 10, js "And God called the dry land Earth");
      (js "Genesis|1|1", 1, js "In the beginning") ].
Proof. vm_compute. reflexivity. Qed.

Example fixture_cursor_order :
  vr_verse <$> store_rows (objs fixture_world) = [1; 10; 2].
Proof. vm_compute. reflexivity. Qed.

Example fixture_chapter :
  match (getChapterFromStore STORE_KJV_VERSES (js "Genesis") 1 fixture_world).1 with
  | Resolved verses => vr_verse <$> verses
  | Rejected _ => []
  end = [1; 2; 10].
Proof. vm_compute. reflexivity. Qed.

Lemma verse_store_ok_empty : verse_store_ok ∅.
Proof. intros k r. by rewrite lookup_empty. Qed.

Lemma verse_store_ok_put_all m written :
  verse_store_ok m →
  Forall (λ r, vr_key r = verseKey (vr_book r) (vr_chapter r) (vr_verse r)) written →
  verse_store_ok (put_all m written).
Proof.
  revert m. induction written as [|r l IH]; intros m Hm Hall; [done|].
  apply Forall_cons in Hall as [Hr Hl]. simpl. apply IH; [|done].
  intros k r'. intros [[<- <-]|[_ Hk]]%lookup_insert_Some; [done|by apply Hm].
Qed.

(** The importer keeps a verse store keyed by locator. *)
Lemma verse_store_ok_import res storeName (w : World VerseRow) :
  verse_store_ok (objs w) →
  verse_store_ok (objs (importBibleFromXML res storeName w).2).
Proof.
  intros Hw. rewrite importBibleFromXML_run.
  destruct (negb _); [done|]. destruct (parsererror _); [done|].
  cbv zeta. destruct (rows _) as [|r l] eqn:E; [done|].
  cbn [snd objs]. apply verse_store_ok_put_all; [done|].
  rewrite <- E. apply Forall_forall. intros x Hx. by eapply collect_rows_keyed.
Qed.

(** The claim of C1 as stated fails: the style saved for Genesis 1:1 in the
    KJV has key ["KJV|Genesis|1|1"], the TextUnit has ["Genesis|1|1"]. *)
Lemma style_key_is_not_verse_key :
  let st' := (upsertSelectedStyle 1000 1001 (patch_bookmarked true) fixture_state).2 in
  ∃ r s,
    r ∈ rows (collect_rows fixture_xml)
    ∧ objs (state_db st') !! vs_key s = Some s
    ∧ (vs_book s, vs_chapter s, vs_verse s) = (vr_book r, vr_chapter r, vr_verse r)
    ∧ vr_key r = js "Genesis|1|1"
    ∧ vs_key s = js "KJV|Genesis|1|1"
    ∧ vs_key s ≠ vr_key r.
Proof.
  cbv zeta. exists genesis_1_1.
  exists (with_updatedAt
            (spread_patch (default_style (js "KJV|Genesis|1|1") (js "KJV") (js "Genesis") 1 1)
               (patch_bookmarked true) 1000) 1001).
  split; [vm_compute; do 2 right; left|].
  split; [vm_compute; reflexivity|].
  split; [reflexivity|]. split; [reflexivity|]. split; [reflexivity|].
  vm_compute. discriminate.
Qed.

Lemma style_key_prefixes_verse_key_witness :
  let st' := (upsertSelectedStyle 1000 1001 (patch_bookmarked true) fixture_state).2 in
  (∀ k s, objs (state_db st') !! k = Some s →
     vs_book s = vr_book genesis_1_1 → vs_chapter s = vr_chapter genesis_1_1 →
     vs_verse s = vr_verse genesis_1_1 →
     k = vs_key s ∧ vs_key s = vs_translation s ++ BAR ++ vr_key genesis_1_1)
  ∧ (∀ translation stylesMap,
       sv_style <$> join_styles translation stylesMap [genesis_1_1]
       = [stylesMap !! (translation ++ BAR ++ vr_key genesis_1_1)])
  ∧ styles_ok (objs (state_db st')) ∧ styles_ok (state_stylesMap st').
Proof.
  apply (style_key_prefixes_verse_key fixture_xml genesis_1_1 1000 1001
           (patch_bookmarked true) fixture_state).
  - vm_compute. do 2 right. left.
  - apply styles_ok_empty.
  - apply styles_ok_empty.
Defined.

(** ** The statements at the worked inputs *)

Lemma searchTextCursor_spec_witness :
  falsy_str (ascii_toLowerCase (trim (js " AND "))) = falsy_str (trim (js " AND "))
  ∧ ¬ Forall (λ c, is_ws c = true) (js " AND ")
  ∧ (vr_verse <$> store_rows (objs fixture_world) = [1; 10; 2]
     ∧ ∃ hits w',
         searchTextCursor ascii_toLowerCase vr_text STORE_KJV_VERSES (js " AND ") 1
           fixture_world = (Resolved hits, w')
         ∧ vr_verse <$> hits = [10]
         ∧ txlog w' = txlog fixture_world
                      ++ [{| tx_store := STORE_KJV_VERSES; tx_mode := readonly |}])
  ∧ searchTextCursor ascii_toLowerCase vr_text STORE_KJV_VERSES [0x20; 0xA0; 0x09]%N 1
      fixture_world = (Resolved [], fixture_world).
Proof.
  assert (¬ Forall (λ c, is_ws c = true) (js " AND ")) as Hnb.
  { intros HF. apply trim_nil_iff in HF. vm_compute in HF. discriminate. }
  destruct (searchTextCursor_spec ascii_toLowerCase vr_text STORE_KJV_VERSES
              (js " AND ") 1 fixture_world eq_refl) as (Hhit & _).
  destruct (searchTextCursor_spec ascii_toLowerCase vr_text STORE_KJV_VERSES
              [0x20; 0xA0; 0x09]%N 1 fixture_world eq_refl) as (_ & Hblank & _).
  split; [reflexivity|]. split; [exact Hnb|]. split.
  - split; [vm_compute; reflexivity|].
    destruct (Hhit Hnb) as [E _]. eexists _, _. split; [exact E|].
    split; [vm_compute; reflexivity|reflexivity].
  - apply Hblank. repeat constructor.
Defined.

Lemma upsertSelectedStyle_merges_witness :
  let noted :=
    {| vs_key := js "KJV|Genesis|1|1"; vs_translation := js "KJV";
       vs_book := js "Genesis"; vs_chapter := 1; vs_verse := 1;
       vs_color := js "none"; vs_underline := false; vs_bold := false;
       vs_bookmarked := false; vs_note := js "x"; vs_noteType := js "study";
       vs_noteFavorite := false; vs_updatedAt := Some 1000 |} in
  state_selected fixture_state = Some shown_genesis_1_1
  ∧ state_stylesMap fixture_state !! js "KJV|Genesis|1|1" = None
  ∧ objs (state_db (upsertSelectedStyle 1000 1001 (patch_note (js "x")) fixture_state).2)
    = <[js "KJV|Genesis|1|1" := with_updatedAt noted 1001]> ∅
  ∧ objs (state_db
            (upsertSelectedStyle 2000 2001 (patch_note (js "x"))
               (upsertSelectedStyle 1000 1001 (patch_bookmarked true) fixture_state).2).2)
      !! js "KJV|Genesis|1|1"
    = Some {| vs_key := js "KJV|Genesis|1|1"; vs_translation := js "KJV";
              vs_book := js "Genesis"; vs_chapter := 1; vs_verse := 1;
              vs_color := js "none"; vs_underline := false; vs_bold := false;
              vs_bookmarked := true; vs_note := js "x"; vs_noteType := js "study";
              vs_noteFavorite := false; vs_updatedAt := Some 2001 |}
  ∧ state_selected noted_state = Some (with_style shown_genesis_1_1 noted)
  ∧ state_stylesMap noted_state !! js "KJV|Genesis|1|1" = Some noted
  ∧ objs (state_db (upsertSelectedStyle 2000 2001 (patch_bookmarked true) noted_state).2)
    = <[js "KJV|Genesis|1|1" :=
          {| vs_key := js "KJV|Genesis|1|1"; vs_translation := js "KJV";
             vs_book := js "Genesis"; vs_chapter := 1; vs_verse := 1;
             vs_color := js "none"; vs_underline := false; vs_bold := false;
             vs_bookmarked := true; vs_note := js "x"; vs_noteType := js "study";
             vs_noteFavorite := false; vs_updatedAt := Some 2001 |}]>
        (objs (state_db noted_state)).
Proof.
  intros noted.
  destruct (upsertSelectedStyle_merges 1000 1001 (patch_note (js "x")) fixture_state
              shown_genesis_1_1 eq_refl) as (Hfresh & _ & _).
  destruct (upsertSelectedStyle_merges 1000 1001 (patch_bookmarked true) fixture_state
              shown_genesis_1_1 eq_refl) as (_ & _ & Htwo).
  destruct (upsertSelectedStyle_merges 2000 2001 (patch_bookmarked true) noted_state
              (with_style shown_genesis_1_1 noted) eq_refl) as (_ & Hcached & _).
  split; [reflexivity|]. split; [reflexivity|]. split.
  { destruct (Hfresh eq_refl) as (E & _). exact E. }
  split.
  { destruct (Htwo (cache_entry_ok_fresh fixture_state shown_genesis_1_1 eq_refl)
                   store_wf_empty 2000 2001 (js "x"))
      as (s & styles & w' & Hs & _ & _ & ->).
    exact Hs. }
  split; [reflexivity|]. split; [reflexivity|].
  destruct (Hcached noted eq_refl eq_refl) as (E & _). exact E.
Defined.

Lemma getChapterFromStore_sorted_witness :
  verse_store_ok (objs fixture_world)
  ∧ vr_verse <$> store_rows (objs fixture_world) = [1; 10; 2]
  ∧ ∃ verses w',
      getChapterFromStore STORE_KJV_VERSES (js "Genesis") 1 fixture_world
      = (Resolved verses, w')
      ∧ StronglySorted (λ a b, vr_verse a < vr_verse b) verses
      ∧ vr_verse <$> verses = [1; 2; 10].
Proof.
  assert (verse_store_ok (objs fixture_world)) as Hok
    by apply verse_store_ok_import, verse_store_ok_empty.
  split; [exact Hok|]. split; [vm_compute; reflexivity|].
  destruct (getChapterFromStore_sorted STORE_KJV_VERSES (js "Genesis") 1 fixture_world)
    as (verses & w' & E & _ & _ & _ & _ & Hstrict & _).
  exists verses, w'. split; [exact E|]. split; [exact (Hstrict Hok)|].
  vm_compute in E. injection E as <- _. vm_compute. reflexivity.
Defined.

Lemma toggleBookmark_toggles_witness :
  objs (empty_world : World Bookmark) !! bookmarkKey (js "KJV") (js "Genesis") 1 = None
  ∧ ∃ w1 w2 w3,
      toggleBookmark 1000 (js "KJV") (js "Genesis") 1 empty_world = (Resolved true, w1)
      ∧ toggleBookmark 2000 (js "KJV") (js "Genesis") 1 w1 = (Resolved false, w2)
      ∧ toggleBookmark 3000 (js "KJV") (js "Genesis") 1 w2 = (Resolved true, w3)
      ∧ objs w2 = ∅.
Proof.
  split; [reflexivity|].
  destruct (toggleBookmark_toggles 1000 (js "KJV") (js "Genesis") 1 empty_world)
    as (_ & _ & Hthree & _).
  destruct (Hthree eq_refl 2000 3000) as (w1 & w2 & w3 & E1 & E2 & E3 & E).
  exists w1, w2, w3. split; [exact E1|]. split; [exact E2|]. split; [exact E3|exact E].
Defined.

Lemma import_failure_leaves_collection_witness :
  res_ok malformed_response = true
  ∧ parsererror (res_xml malformed_response) = true
  ∧ importBibleFromXML malformed_response STORE_KJV_VERSES fixture_world
    = (Rejected MalformedSource, fixture_world).
Proof.
  split; [reflexivity|]. split; [reflexivity|].
  destruct (import_failure_leaves_collection malformed_response STORE_KJV_VERSES
              fixture_world eq_refl) as (Hbad & _).
  exact (Hbad eq_refl).
Defined.

Lemma importer_skips_and_normalizes_witness :
  visit_verse (js "Genesis") 1 {| rows := []; count := 0 |}
    {| v_number := None; v_textContent := js "no ordinal" |}
  = {| rows := []; count := 0 |}
  ∧ visit_verse (js "Genesis") 1 {| rows := []; count := 0 |} (mk_verse 3 "   ")
    = {| rows := []; count := 0 |}
  ∧ visit_book {| rows := []; count := 0 |}
      {| b_number := Some 67;
         b_chapters := [ {| c_number := Some 1; c_verses := [mk_verse 1 "beyond the table"] |} ] |}
    = {| rows := []; count := 0 |}.
Proof.
  destruct (importer_skips_and_normalizes fixture_xml) as (_ & Hverse & Hbook & _).
  split; [apply Hverse; left; reflexivity|].
  split; [apply Hverse; right; right; reflexivity|].
  apply Hbook. reflexivity.
Defined.

Lemma setting_save_then_load_witness :
  js "fontPx" ≠ js "theme"
  ∧ (loadSetting (js "theme")
       (saveSetting (js "fontPx") (js "14")
          (saveSetting (js "theme") (js "dark") empty_world).2).2).1
    = Resolved (Some (js "dark"))
  ∧ objs (empty_world : World Setting) !! js "theme" = None
  ∧ (loadSetting (js "theme") empty_world).1 = Resolved None.
Proof.
  assert (js "fontPx" ≠ js "theme") as Hne by (vm_compute; discriminate).
  destruct (setting_save_then_load (js "theme") (js "dark") empty_world)
    as (_ & _ & Hother & Hnone & _).
  split; [exact Hne|]. split; [exact (Hother _ (js "14") Hne)|].
  split; [reflexivity|exact (Hnone eq_refl)].
Defined.

(** ** Keys *)

Lemma js_inj s1 s2 : js s1 = js s2 → s1 = s2.
Proof.
  unfold js. revert s2. induction s1 as [|a s1 IH]; intros [|b s2] E; try done.
  simpl in E. injection E as Ea Es. f_equal; [|by apply IH].
  rewrite <- (ascii_N_embedding a), <- (ascii_N_embedding b). by rewrite Ea.
Qed.

(** Distinct integers have distinct numerals. *)
Lemma Number_toString_inj n m : Number_toString n = Number_toString m → n = m.
Proof.
  intros E%js_inj. apply DecimalZ.to_int_inj.
  assert (∀ z, NilZero.int_of_string (NilZero.string_of_int (Z.to_int z)) = Some (Z.to_int z)) as H.
  { intros z. apply NilZero.isi; destruct z; simpl; try done;
      intros [= E']; by apply DecimalPos.Unsigned.to_uint_nonnil in E'. }
  pose proof (H n) as Hn. rewrite E, H in Hn. by injection Hn.
Qed.

Lemma js_String a s : js (String a s) = N_of_ascii a :: js s.
Proof. done. Qed.

Lemma uint_no_bar d : BAR_code ∉ js (NilEmpty.string_of_uint d).
Proof.
  induction d; cbn [NilEmpty.string_of_uint]; rewrite ?js_String;
    [apply not_elem_of_nil|..]; (apply not_elem_of_cons; split; [by vm_compute|done]).
Qed.

(** A numeral holds no delimiter. *)
Lemma Number_toString_no_bar n : BAR_code ∉ Number_toString n.
Proof.
  unfold Number_toString.
  assert (∀ d, BAR_code ∉ js (NilZero.string_of_uint d)) as Hu.
  { intros d. destruct d; try apply (uint_no_bar (_ _)).
    vm_compute. by intros [=]%list_elem_of_singleton. }
  destruct (Z.to_int n); simpl; [apply Hu|].
  apply not_elem_of_cons. split; [done|apply Hu].
Qed.

(** Splitting at the first delimiter is unambiguous. *)
Lemma app_bar_inj (a1 a2 r1 r2 : jsstring) :
  BAR_code ∉ a1 → BAR_code ∉ a2 →
  a1 ++ BAR ++ r1 = a2 ++ BAR ++ r2 → a1 = a2 ∧ r1 = r2.
Proof.
  revert a2. induction a1 as [|x a1 IH]; intros [|y a2] H1 H2 E.
  - by injection E.
  - injection E as <- _. destruct H2. left.
  - injection E as -> _. destruct H1. left.
  - injection E as <- E. apply not_elem_of_cons in H1 as [_ H1], H2 as [_ H2].
    destruct (IH a2 H1 H2 E) as [-> ->]. done.
Qed.

Lemma BOOKS_no_bar : Forall (λ b, BAR_code ∉ b) BOOKS.
Proof.
  apply Forall_forall. intros b Hb.
  assert (bool_decide (Forall (λ b, BAR_code ∉ b) BOOKS) = true) as H by (vm_compute; reflexivity).
  apply bool_decide_eq_true in H. by apply (proj1 (Forall_forall _ _) H).
Qed.

(** Two locators whose book names hold no delimiter have the same key
    only when they are the same locator. *)
Lemma verseKey_eq_inv book1 chapter1 verse1 book2 chapter2 verse2 :
  BAR_code ∉ book1 → BAR_code ∉ book2 →
  verseKey book1 chapter1 verse1 = verseKey book2 chapter2 verse2 →
  book1 = book2 ∧ chapter1 = chapter2 ∧ verse1 = verse2.
Proof.
  intros H1 H2 E. unfold verseKey in E.
  apply app_bar_inj in E as [-> E]; [|done..].
  apply app_bar_inj in E as [Ec Ev]; [|apply Number_toString_no_bar..].
  by apply Number_toString_inj in Ec as ->, Ev as ->.
Qed.

Lemma collect_rows_book xml r : r ∈ rows (collect_rows xml) → vr_book r ∈ BOOKS.
Proof.
  intros (bn & cn & vn & bookName & _ & Hb & _ & _ & _ & _ & _ & ->)%elem_of_collect_rows.
  simpl. unfold BOOKS_at in Hb. destruct (0 <=? _); [|done].
  by eapply list_elem_of_lookup_2.
Qed.

Lemma collect_rows_key_inj xml r1 r2 :
  r1 ∈ rows (collect_rows xml) → r2 ∈ rows (collect_rows xml) →
  vr_key r1 = vr_key r2 →
  (vr_book r1, vr_chapter r1, vr_verse r1) = (vr_book r2, vr_chapter r2, vr_verse r2).
Proof.
  intros H1 H2 E.
  rewrite (collect_rows_keyed xml r1 H1), (collect_rows_keyed xml r2 H2) in E.
  pose proof BOOKS_no_bar as Hnb. rewrite Forall_forall in Hnb.
  apply verseKey_eq_inv in E as (-> & -> & ->); [done|..];
    apply Hnb; by eapply collect_rows_book.
Qed.

(** X1: two locators whose book names hold no delimiter have the same
    TextUnit key only when they are the same locator; no canonical book
    name holds the delimiter, so two rows the importer collects from a
    document have the same key only when they have the same locator. *)
Theorem verseKey_inj book1 chapter1 verse1 book2 chapter2 verse2 :
  (BAR_code ∉ book1 → BAR_code ∉ book2 →
   verseKey book1 chapter1 verse1 = verseKey book2 chapter2 verse2 →
   book1 = book2 ∧ chapter1 = chapter2 ∧ verse1 = verse2)
  ∧ (book1 ∈ BOOKS → BAR_code ∉ book1)
  ∧ (∀ xml r1 r2,
       r1 ∈ rows (collect_rows xml) → r2 ∈ rows (collect_rows xml) →
       vr_key r1 = vr_key r2 → locator r1 = locator r2).
Proof.
  split; [apply verseKey_eq_inv|]. split.
  - pose proof BOOKS_no_bar as Hnb. rewrite Forall_forall in Hnb. apply Hnb.
  - intros xml r1 r2. apply collect_rows_key_inj.
Qed.

(** ** Import, count and read *)

Lemma collect_rows_NoDup_keys xml :
  NoDup (locator <$> rows (collect_rows xml)) →
  NoDup (vr_key <$> rows (collect_rows xml)).
Proof.
  intros Hnd. apply NoDup_fmap_2_strong; [|by apply NoDup_fmap_1 in Hnd].
  intros r1 r2 H1 H2 E.
  apply (NoDup_fmap_inj_on locator (rows (collect_rows xml))); try done.
  by apply (collect_rows_key_inj xml).
Qed.

Section store_of_batch.
Context {R : Type} `{Keyed R}.

Lemma NoDup_store_rows (m : gmap jsstring R) : store_wf m → NoDup (store_rows m).
Proof. intros Hwf. eapply NoDup_fmap_1, (NoDup_store_rows_keys m Hwf). Qed.

(** A batch with distinct keys written into an empty store is the store. *)
Lemma store_rows_put_all (batch : list R) :
  NoDup (key_of <$> batch) → store_rows (put_all ∅ batch) ≡ₚ batch.
Proof.
  intros Hnd. apply NoDup_Permutation.
  - apply NoDup_store_rows, store_wf_put_all, store_wf_empty.
  - by apply NoDup_fmap_1 in Hnd.
  - intros r. rewrite elem_of_store_rows. split.
    + intros [k Hk]. by apply put_all_lookup_NoDup in Hk as [? _].
    + intros Hr. exists (key_of r). by apply put_all_lookup_NoDup.
Qed.
End store_of_batch.

Lemma chapter_rows_strict (m : gmap jsstring VerseRow) book chapter :
  verse_store_ok m →
  StronglySorted (λ a b, vr_verse a < vr_verse b)
    (array_sort (λ a b, vr_verse a - vr_verse b)
       (filter (λ r, (vr_book r, vr_chapter r) = (book, chapter)) (store_rows m))).
Proof.
  intros Hok. apply (sorted_strict vr_verse); [apply (array_sort_sorted vr_verse)|].
  rewrite (array_sort_perm vr_verse).
  assert (store_wf m) as Hwf by (intros k r Hr; by destruct (Hok k r Hr) as [-> _]).
  pose proof (NoDup_store_rows_keys m Hwf) as Hnd.
  apply NoDup_fmap_2_strong; [|apply NoDup_filter; by apply NoDup_fmap_1 in Hnd].
  intros x y [[= Hbx Hcx] Hx]%list_elem_of_filter [[= Hby Hcy] Hy]%list_elem_of_filter E.
  apply (NoDup_fmap_inj_on key_of (store_rows m)); try done.
  apply elem_of_store_rows in Hx as [kx Hx], Hy as [ky Hy].
  destruct (Hok _ _ Hx) as [_ Ex], (Hok _ _ Hy) as [_ Ey].
  unfold key_of, VerseRow_keyed. rewrite Ex, Ey. congruence.
Qed.

(** X2: when the verses a document yields have pairwise distinct locators,
    importing it into an empty store leaves exactly these rows there:
    [countStore] answers the reported number of verses, [getAll] lists the
    rows, and [getOne] finds each under its key. *)
Theorem import_distinct_locators_stored res storeName (w w' : World VerseRow) result :
  objs w = ∅ →
  NoDup (locator <$> rows (collect_rows (res_xml res))) →
  importBibleFromXML res storeName w = (Resolved result, w') →
  (countStore storeName w').1 = Resolved (verses result)
  ∧ (∃ all, (getAll storeName w').1 = Resolved all
            ∧ all ≡ₚ rows (collect_rows (res_xml res)))
  ∧ (∀ r, r ∈ rows (collect_rows (res_xml res)) →
          (getOne storeName (vr_key r) w').1 = Resolved (Some r)).
Proof.
  intros Hempty Hnd%collect_rows_NoDup_keys.
  rewrite importBibleFromXML_run.
  destruct (negb _); [done|]. destruct (parsererror _); [done|].
  cbv zeta. destruct (rows _) as [|r0 l] eqn:E; [done|].
  revert Hnd. generalize (r0 :: l). clear E r0 l. intros batch Hnd [= <- <-].
  rewrite countStore_run, getAll_run. cbn [objs verses]. rewrite Hempty.
  split; [by rewrite (size_put_all_NoDup batch)|].
  split; [eexists; split; [done|by apply store_rows_put_all]|].
  intros r Hr. rewrite getOne_run. cbn [fst objs].
  f_equal. by apply put_all_lookup_NoDup.
Qed.

(** X3: under the same conditions the chapter fetch after the import
    answers with the rows of the document that carry the book and the
    chapter, each once, in strictly ascending order of verse number. *)
Theorem import_then_getChapter res storeName (w w' : World VerseRow) result book chapter :
  objs w = ∅ →
  NoDup (locator <$> rows (collect_rows (res_xml res))) →
  importBibleFromXML res storeName w = (Resolved result, w') →
  ∃ verses w'',
    getChapterFromStore storeName book chapter w' = (Resolved verses, w'')
    ∧ verses ≡ₚ filter (λ r, (vr_book r, vr_chapter r) = (book, chapter))
                   (rows (collect_rows (res_xml res)))
    ∧ StronglySorted (λ a b, vr_verse a < vr_verse b) verses
    ∧ objs w'' = objs w'.
Proof.
  intros Hempty Hloc Himp.
  pose proof (collect_rows_NoDup_keys _ Hloc) as Hnd.
  pose proof (verse_store_ok_import res storeName w) as Hok.
  rewrite Himp, Hempty in Hok. specialize (Hok verse_store_ok_empty). cbn [snd] in Hok.
  rewrite importBibleFromXML_run in Himp.
  destruct (negb _); [done|]. destruct (parsererror _); [done|].
  cbv zeta in Himp. destruct (rows _) as [|r0 l]; [done|].
  injection Himp as _ <-.
  eexists _, _. split; [apply getChapterFromStore_run|].
  cbn [objs] in *. rewrite Hempty in *.
  split; [|split; [by apply chapter_rows_strict|done]].
  rewrite (array_sort_perm vr_verse).
  change (put_all (<[key_of r0:=r0]> ∅) l) with (put_all ∅ (r0 :: l)).
  by rewrite store_rows_put_all.
Qed.

(** ** Normalised text *)

Lemma split_ws_app_no_ws acc w s :
  no_ws w → split_ws acc (w ++ s) = split_ws (acc ++ w) s.
Proof.
  intros Hw. revert acc. induction Hw as [|c w Hc _ IH]; intros acc.
  - by rewrite app_nil_r.
  - simpl. rewrite Hc, IH. by rewrite <- app_assoc.
Qed.

Lemma split_ws_joined rest : ∀ acc,
  acc ≠ [] → Forall (λ x, x ≠ [] ∧ no_ws x) rest →
  split_ws acc (flat_map (λ x, SPACE :: x) rest) = acc :: rest.
Proof.
  induction rest as [|x rest IH]; intros acc Hacc Hall.
  - simpl. by destruct acc.
  - apply Forall_cons in Hall as [[Hx Hnx] Hall].
    change (flat_map (λ x, SPACE :: x) (x :: rest))
      with (SPACE :: (x ++ flat_map (λ x, SPACE :: x) rest)).
    change (split_ws acc (SPACE :: (x ++ flat_map (λ x, SPACE :: x) rest)))
      with (match acc with
            | [] => split_ws [] (x ++ flat_map (λ x, SPACE :: x) rest)
            | _ => acc :: split_ws [] (x ++ flat_map (λ x, SPACE :: x) rest)
            end).
    rewrite split_ws_app_no_ws, IH by done. by destruct acc.
Qed.

(** Joining words and splitting again gives the words back. *)
Lemma words_join_space ws :
  Forall (λ x, x ≠ [] ∧ no_ws x) ws → words (join_space ws) = ws.
Proof.
  destruct ws as [|w rest]; [done|].
  intros [[Hw Hnw] Hall]%Forall_cons. unfold words. simpl.
  by rewrite split_ws_app_no_ws, split_ws_joined.
Qed.

Lemma trimEnd_head c t : is_ws c = false → ∃ t', trimEnd (c :: t) = c :: t'.
Proof. intros Hc. simpl. rewrite Hc. destruct (trimEnd t); eauto. Qed.

Lemma trimEnd_idemp s : trimEnd (trimEnd s) = trimEnd s.
Proof.
  induction s as [|c t IH]; [done|]. simpl.
  destruct (trimEnd t) as [|d t'] eqn:E.
  - destruct (is_ws c) eqn:Hc; [done|]. simpl. by rewrite Hc.
  - change (trimEnd (c :: d :: t'))
      with (match trimEnd (d :: t') with [] => if is_ws c then [] else [c] | u => c :: u end).
    by rewrite IH.
Qed.

Lemma trimStart_head s :
  trimStart s = [] ∨ ∃ c t, trimStart s = c :: t ∧ is_ws c = false.
Proof.
  induction s as [|c t IH]; [by left|]. simpl.
  destruct (is_ws c) eqn:Hc; [done|]. right. by exists c, t.
Qed.

(** [trim] is idempotent. *)
Lemma trim_idemp s : trim (trim s) = trim s.
Proof.
  unfold trim. destruct (trimStart_head s) as [->|(c & t & -> & Hc)]; [done|].
  destruct (trimEnd_head c t Hc) as [t' E]. rewrite E.
  simpl trimStart. rewrite Hc, <- E. apply trimEnd_idemp.
Qed.

(** X4: normalising a normalised text changes nothing; a normalised text
    has no whitespace at its ends, and every whitespace code unit in it is
    an ASCII space. *)
Theorem normalizeWhitespace_idempotent s :
  normalizeWhitespace (normalizeWhitespace s) = normalizeWhitespace s
  ∧ trim (normalizeWhitespace s) = normalizeWhitespace s
  ∧ (∀ c, c ∈ normalizeWhitespace s → is_ws c = true → c = SPACE).
Proof.
  split; [|split].
  - rewrite !normalizeWhitespace_words. f_equal. apply words_join_space, words_spec.
  - unfold normalizeWhitespace. apply trim_idemp.
  - intros c Hc Hws. rewrite normalizeWhitespace_words in Hc.
    pose proof (words_spec s) as Hw.
    destruct (words s) as [|w rest]; [by apply elem_of_nil in Hc|].
    apply Forall_cons in Hw as [[_ Hnw] Hall]. simpl in Hc.
    apply elem_of_app in Hc as [Hc|Hc].
    + unfold no_ws in Hnw. rewrite Forall_forall in Hnw. rewrite (Hnw c Hc) in Hws. done.
    + clear Hnw. induction rest as [|x rest IH]; [by apply elem_of_nil in Hc|].
      apply Forall_cons in Hall as [[_ Hx] Hall]. simpl in Hc.
      apply elem_of_cons in Hc as [->|Hc]; [done|].
      apply elem_of_app in Hc as [Hc|Hc]; [|by apply IH].
      unfold no_ws in Hx. rewrite Forall_forall in Hx. rewrite (Hx c Hc) in Hws. done.
Qed.

(** ** Search *)

Section search_more.
Context {R : Type} `{Keyed R}.
Variable toLowerCase : jsstring → jsstring.
Variable text_of : R → jsstring.

(** X5: on a query that is not blank after lower-casing, the hits for a
    cap are the first hits for any larger cap, and every hit is a record
    of the store; with cap 0 the search still opens its transaction and
    answers [[]]. *)
Theorem searchTextCursor_cap_prefix storeName query (n m : nat) (w : World R) :
  toLowerCase (trim query) ≠ [] → (n ≤ m)%nat →
  ∃ hits_n hits_m w',
    searchTextCursor toLowerCase text_of storeName query n w = (Resolved hits_n, w')
    ∧ searchTextCursor toLowerCase text_of storeName query m w = (Resolved hits_m, w')
    ∧ hits_n = take n hits_m
    ∧ (∀ r, r ∈ hits_m → ∃ k, objs w !! k = Some r)
    ∧ searchTextCursor toLowerCase text_of storeName query 0 w = (Resolved [], w')
    ∧ txlog w' = txlog w ++ [{| tx_store := storeName; tx_mode := readonly |}].
Proof.
  intros Hq Hnm. eexists _, _, _.
  rewrite !searchTextCursor_nonblank by done.
  rewrite !cursor_loop_take by (simpl; lia). rewrite !app_nil_l.
  split; [done|]. split; [done|].
  split; [by rewrite take_take, Nat.min_l|].
  split; [|done].
  intros r (i & Hr%list_elem_of_lookup_2 & _)%elem_of_take.
  apply list_elem_of_filter in Hr as [_ Hr].
  by apply elem_of_store_rows.
Qed.
End search_more.

(** ** The object store, continued *)

Section store_more.
Context {R : Type} `{Keyed R}.

Lemma put_all_lookup_last (m : gmap jsstring R) (batch : list R) k :
  put_all m batch !! k
  = match last (filter (λ r, key_of r = k) batch) with
    | Some r => Some r
    | None => m !! k
    end.
Proof.
  induction batch as [|r batch IH] using rev_ind; [done|].
  rewrite put_all_snoc, filter_app, filter_cons, filter_nil.
  destruct (decide (key_of r = k)) as [<-|Hne].
  - by rewrite lookup_insert_eq, last_snoc.
  - by rewrite lookup_insert_ne, app_nil_r.
Qed.

Lemma store_rows_sorted (m : gmap jsstring R) :
  store_wf m → StronglySorted (λ a b, lexico (key_of a) (key_of b)) (store_rows m).
Proof.
  intros Hwf. rewrite store_rows_entries.
  assert (∀ p, p ∈ store_entries m → key_of p.2 = p.1) as Hk.
  { intros [k r] Hp. by apply Hwf, elem_of_store_entries. }
  pose proof (store_entries_sorted m) as Hs.
  revert Hk Hs. generalize (store_entries m). intros l Hk Hs.
  induction Hs as [|p l Hs IH Hp]; [constructor|].
  rewrite fmap_cons. constructor.
  - apply IH. intros q Hq. apply Hk. by right.
  - apply Forall_fmap, Forall_forall. intros q Hq. simpl.
    rewrite Forall_forall in Hp.
    rewrite (Hk p), (Hk q); [by apply Hp|by right|left].
Qed.

(** X6: after a bulk write, a key the batch names holds the last row of
    the batch with that key, and a key the batch does not name holds what
    it held before. *)
Theorem putMany_last_wins storeName (batch : list R) k (w : World R) :
  (putMany storeName batch w).1 = Resolved true
  ∧ (getOne storeName k (putMany storeName batch w).2).1
    = Resolved (match last (filter (λ r, key_of r = k) batch) with
                | Some r => Some r
                | None => objs w !! k
                end).
Proof.
  rewrite putMany_run, getOne_run. cbn [fst snd objs].
  by rewrite put_all_lookup_last.
Qed.

(** X7: in a store whose records sit under their key paths, [getAll]
    answers with every record once, in strictly ascending order of key;
    [countStore] answers the length of that list, and [getOne] finds a
    record under a key exactly when [getAll] lists it with that key. *)
Theorem getAll_countStore_getOne storeName (w : World R) :
  store_wf (objs w) →
  ∃ all,
    (getAll storeName w).1 = Resolved all
    ∧ StronglySorted (λ a b, lexico (key_of a) (key_of b)) all
    ∧ NoDup all
    ∧ (countStore storeName w).1 = Resolved (length all)
    ∧ (∀ k r, (getOne storeName k w).1 = Resolved (Some r) ↔ r ∈ all ∧ key_of r = k).
Proof.
  intros Hwf. exists (store_rows (objs w)).
  rewrite getAll_run, countStore_run, length_store_rows.
  split; [done|]. split; [|split; [|split; [done|]]].
  - by apply store_rows_sorted.
  - eapply NoDup_fmap_1, (NoDup_store_rows_keys _ Hwf).
  - intros k r. rewrite getOne_run. cbn [fst]. rewrite elem_of_store_rows. split.
    + intros [= Hr]. split; [by exists k|by apply Hwf].
    + intros [[k' Hr] <-]. f_equal. by rewrite (Hwf _ _ Hr).
Qed.
End store_more.

(** ** What an import reports *)

Section put_all_size.
Context {R : Type} `{Keyed R}.

Lemma put_all_lookup_Some (batch : list R) k r :
  put_all ∅ batch !! k = Some r → r ∈ batch ∧ key_of r = k.
Proof.
  rewrite put_all_lookup_last, lookup_empty.
  destruct (last _) as [r'|] eqn:E; [|done]. intros [= ->].
  apply last_Some in E as [l' E].
  assert (r ∈ filter (λ r, key_of r = k) batch) as Hr
    by (rewrite E; apply elem_of_app; right; left).
  by apply list_elem_of_filter in Hr as [? ?].
Qed.

Lemma size_put_all_le (batch : list R) :
  (size (put_all (∅ : gmap jsstring R) batch) ≤ length batch)%nat
  ∧ (size (put_all (∅ : gmap jsstring R) batch) = length batch → NoDup (key_of <$> batch)).
Proof.
  induction batch as [|r batch [IHle IHeq]] using rev_ind.
  - split; [done|]. intros _. constructor.
  - rewrite put_all_snoc, length_app, fmap_app. cbn [length fmap list_fmap].
    destruct (put_all ∅ batch !! key_of r) as [r'|] eqn:E.
    + rewrite map_size_insert_Some by (by exists r'). split; [lia|lia].
    + rewrite map_size_insert_None by done. split; [lia|].
      intros Hsize. apply NoDup_app. split; [apply IHeq; lia|].
      split; [|apply NoDup_singleton].
      intros k Hk ->%list_elem_of_singleton.
      by apply put_all_lookup_None in E as [_ E].
Qed.
End put_all_size.

Lemma collect_rows_NoDup_locators xml :
  NoDup (vr_key <$> rows (collect_rows xml)) →
  NoDup (locator <$> rows (collect_rows xml)).
Proof.
  intros Hnd.
  apply (NoDup_fmap_1 (λ loc : jsstring * Z * Z, verseKey loc.1.1 loc.1.2 loc.2)).
  rewrite <- list_fmap_compose.
  erewrite list_fmap_ext; [exact Hnd|].
  intros i r Hr%list_elem_of_lookup_2. symmetry. by apply (collect_rows_keyed xml).
Qed.

(** C9: a successful import reports the number of verse rows it handed to
    the bulk write and the number of distinct books of the records it
    wrote.  The collection afterwards holds the records written over what
    it held; the reported verse count is at least the number of records
    written, and equals it exactly when no two rows handed over share a
    locator: a later row replaces the earlier one under their common key.
    Each row handed over has a record under its key afterwards. *)
Theorem import_reports_written res storeName (w w' : World VerseRow) result :
  importBibleFromXML res storeName w = (Resolved result, w') →
  let handed := rows (collect_rows (res_xml res)) in
  let written : gmap jsstring VerseRow := put_all ∅ handed in
  putMany storeName handed w = (Resolved true, w')
  ∧ objs w' = written ∪ objs w
  ∧ verses result = length handed
  ∧ (size written ≤ verses result)%nat
  ∧ (size written = verses result ↔ NoDup (locator <$> handed))
  ∧ books result = size (list_to_set (vr_book <$> store_rows written) : gset jsstring)
  ∧ (∀ r, r ∈ handed → is_Some (objs w' !! vr_key r))
  ∧ (objs w = ∅ → NoDup (locator <$> handed) → size (objs w') = verses result).
Proof.
  intros Himp handed written.
  assert (verses result = length handed
          ∧ books result = length (remove_dups (vr_book <$> handed))
          ∧ objs w' = put_all (objs w) handed
          ∧ putMany storeName handed w = (Resolved true, w')) as (Ev & Eb & Ew & Ep).
  { rewrite importBibleFromXML_run in Himp. rewrite putMany_run.
    destruct (negb _); [done|]. destruct (parsererror _); [done|].
    cbv zeta in Himp. fold handed in Himp.
    destruct handed as [|r0 l0]; [done|]. by injection Himp as <- <-. }
  destruct (size_put_all_le handed) as [Hle Heq]. fold written in Hle, Heq.
  split; [exact Ep|]. split; [by rewrite Ew, put_all_union|]. split; [exact Ev|].
  rewrite Ev. split; [exact Hle|]. split; [|split; [|split]].
  - split.
    + intros Hsize. by apply collect_rows_NoDup_locators, Heq.
    + intros Hnd. by apply size_put_all_NoDup, collect_rows_NoDup_keys.
  - rewrite Eb. unfold size, set_size.
    apply Permutation_length, NoDup_Permutation.
    + apply NoDup_remove_dups.
    + apply NoDup_elements.
    + intros x. rewrite elem_of_remove_dups, elem_of_elements, elem_of_list_to_set.
      rewrite !list_elem_of_fmap. split.
      * intros (r & -> & Hr).
        destruct (put_all_lookup_elem (∅ : gmap jsstring VerseRow) handed r Hr) as [r' Hr'].
        fold written in Hr'.
        exists r'. split; [|by apply elem_of_store_rows; exists (key_of r)].
        apply put_all_lookup_Some in Hr' as [Hin Hk].
        by injection (collect_rows_key_inj _ r' r Hin Hr Hk) as -> _ _.
      * intros (r & -> & [k Hr]%elem_of_store_rows).
        exists r. split; [done|]. by apply put_all_lookup_Some in Hr as [? _].
  - intros r Hr. rewrite Ew. by apply (put_all_lookup_elem (objs w) handed r).
  - intros Hempty Hnd. rewrite Ew, Hempty.
    by apply size_put_all_NoDup, collect_rows_NoDup_keys.
Qed.

(** The claim of C9 as stated fails: the document that holds Genesis 1:1
    twice is imported with a report of two verses, and the collection,
    empty before, holds one record. *)
Lemma import_report_exceeds_written :
  ∃ w',
    importBibleFromXML duplicate_response STORE_KJV_VERSES empty_world
    = (Resolved {| verses := 2; books := 1 |}, w')
    ∧ (countStore STORE_KJV_VERSES w').1 = Resolved 1%nat
    ∧ size (objs w') = 1%nat
    ∧ vr_text <$> store_rows (objs w') = [js "In the beginning, again"].
Proof.
  eexists. split; [vm_compute; reflexivity|].
  split; [vm_compute; reflexivity|]. split; vm_compute; reflexivity.
Qed.

(** ** Sorting, newest first *)

Lemma array_sort_ext {A} (cmp cmp' : A → A → Z) l :
  (∀ a b, cmp a b = cmp' a b) → array_sort cmp l = array_sort cmp' l.
Proof.
  intros Hc. induction l as [|x l IH]; [done|]. simpl. rewrite IH.
  generalize (array_sort cmp' l). intros s.
  induction s as [|y s IHs]; [done|]. simpl. by rewrite Hc, IHs.
Qed.

(** Sorting by [g b - g a] lists the larger [g] first. *)
Lemma array_sort_desc {A} (g : A → Z) l :
  array_sort (λ a b, g b - g a) l ≡ₚ l
  ∧ StronglySorted (λ a b, g b ≤ g a) (array_sort (λ a b, g b - g a) l).
Proof.
  rewrite (array_sort_ext _ (λ a b, (λ x, - g x) a - (λ x, - g x) b)) by (intros; lia).
  split; [apply (array_sort_perm (λ x, - g x))|].
  pose proof (array_sort_sorted (λ x, - g x) l) as Hs.
  induction Hs as [|x s Hs IH Hx]; constructor; [done|].
  eapply Forall_impl; [exact Hx|]. simpl. lia.
Qed.

(** ** Bookmarks, continued *)

Lemma listBookmarks_run translation (w : World Bookmark) :
  listBookmarks translation w
  = (Resolved (array_sort (λ a b, bm_savedAt b - bm_savedAt a)
                 (filter (λ b, bm_translation b = translation) (store_rows (objs w)))),
     {| objs := objs w; txlog := opened STORE_BOOKMARKS readonly w |}).
Proof. done. Qed.

Lemma elem_of_listBookmarks translation (w : World Bookmark) items x :
  (listBookmarks translation w).1 = Resolved items →
  x ∈ items ↔ (∃ k, objs w !! k = Some x) ∧ bm_translation x = translation.
Proof.
  rewrite listBookmarks_run. intros [= <-].
  destruct (array_sort_desc bm_savedAt
              (filter (λ b, bm_translation b = translation) (store_rows (objs w)))) as [Hp _].
  rewrite Hp, list_elem_of_filter, elem_of_store_rows. tauto.
Qed.

(** X8: the bookmark list of a translation always resolves, writes
    nothing, and holds exactly the stored bookmarks of that translation,
    latest [savedAt] first. *)
Theorem listBookmarks_newest_first translation (w : World Bookmark) :
  ∃ items w',
    listBookmarks translation w = (Resolved items, w')
    ∧ objs w' = objs w
    ∧ (∀ x, x ∈ items ↔ (∃ k, objs w !! k = Some x) ∧ bm_translation x = translation)
    ∧ StronglySorted (λ a b, bm_savedAt b ≤ bm_savedAt a) items
    ∧ items ≡ₚ filter (λ b, bm_translation b = translation) (store_rows (objs w)).
Proof.
  eexists _, _. split; [apply listBookmarks_run|]. split; [done|].
  split; [intros x; by apply elem_of_listBookmarks|].
  destruct (array_sort_desc bm_savedAt
              (filter (λ b, bm_translation b = translation) (store_rows (objs w)))) as [Hp Hs].
  done.
Qed.

(** X9: the list follows the toggles.  After a toggle that adds, the new
    bookmark is listed for its translation; after a toggle that removes,
    in a store keyed by locator, no listed bookmark carries the book and
    the chapter; a bookmark under another key is listed after the toggle
    exactly when it was listed before. *)
Theorem listBookmarks_follows_toggle now translation book chapter (w : World Bookmark) :
  let key := bookmarkKey translation book chapter in
  let w1 := (toggleBookmark now translation book chapter w).2 in
  ∃ before after,
    (listBookmarks translation w).1 = Resolved before
    ∧ (listBookmarks translation w1).1 = Resolved after
    ∧ (objs w !! key = None → new_bookmark now translation book chapter ∈ after)
    ∧ (is_Some (objs w !! key) → bookmarks_ok (objs w) →
         ∀ x, x ∈ after → ¬ (bm_book x = book ∧ bm_chapter x = chapter))
    ∧ (bookmarks_ok (objs w) →
         ∀ x, bookmarkKey (bm_translation x) (bm_book x) (bm_chapter x) ≠ key →
              x ∈ after ↔ x ∈ before).
Proof.
  intros key w1. eexists _, _. split; [by rewrite listBookmarks_run|].
  split; [by rewrite listBookmarks_run|].
  assert (∀ w0 x, x ∈ array_sort (λ a b, bm_savedAt b - bm_savedAt a)
                    (filter (λ b, bm_translation b = translation) (store_rows (objs w0)))
                  ↔ (∃ k, objs w0 !! k = Some x) ∧ bm_translation x = translation) as Hin.
  { intros w0 x. by apply (elem_of_listBookmarks translation w0). }
  assert (objs w1 = match objs w !! key with
                    | Some _ => delete key (objs w)
                    | None => <[key := new_bookmark now translation book chapter]> (objs w)
                    end) as E1.
  { unfold w1. rewrite toggleBookmark_run. fold key. by destruct (objs w !! key). }
  split; [|split].
  - intros Hnone. apply Hin. rewrite E1, Hnone. split; [|done].
    exists key. by rewrite lookup_insert_eq.
  - intros [r Hr] Hok x [[k Hk] Ht]%Hin [Hb Hc].
    rewrite E1, Hr in Hk. apply lookup_delete_Some in Hk as [Hne Hk].
    apply Hne. rewrite (Hok _ _ Hk). unfold key. by rewrite Ht, Hb, Hc.
  - intros Hok x Hx. rewrite !Hin, E1. split.
    + intros [[k Hk] Ht]. split; [|done]. exists k.
      destruct (objs w !! key).
      * by apply lookup_delete_Some in Hk as [_ ?].
      * apply lookup_insert_Some in Hk as [[<- <-]|[_ ?]]; [by destruct Hx|done].
    + intros [[k Hk] Ht]. split; [|done]. exists k.
      assert (key ≠ k) as Hne by (intros <-; apply Hx; by rewrite <- (Hok _ _ Hk)).
      destruct (objs w !! key).
      * by apply lookup_delete_Some.
      * by rewrite lookup_insert_ne.
Qed.

(** X10: the keys of two bookmarks agree only when their locators agree,
    provided the translation ids and the book names hold no delimiter; so
    a toggle on one chapter leaves the bookmark of every other chapter as
    it was. *)
Theorem toggleBookmark_other_chapter now t1 b1 c1 t2 b2 c2 (w : World Bookmark) :
  BAR_code ∉ t1 → BAR_code ∉ b1 → BAR_code ∉ t2 → BAR_code ∉ b2 →
  (t1, b1, c1) ≠ (t2, b2, c2) →
  bookmarkKey t1 b1 c1 ≠ bookmarkKey t2 b2 c2
  ∧ objs (toggleBookmark now t1 b1 c1 w).2 !! bookmarkKey t2 b2 c2
    = objs w !! bookmarkKey t2 b2 c2.
Proof.
  intros Ht1 Hb1 Ht2 Hb2 Hne.
  assert (bookmarkKey t1 b1 c1 ≠ bookmarkKey t2 b2 c2) as Hk.
  { intros E. unfold bookmarkKey in E.
    apply app_bar_inj in E as [-> E]; [|done..].
    apply app_bar_inj in E as [-> E%Number_toString_inj]; [|done..].
    by subst. }
  split; [done|]. rewrite toggleBookmark_run.
  destruct (objs w !! bookmarkKey t1 b1 c1); cbn [snd objs].
  - by rewrite lookup_delete_ne.
  - by rewrite lookup_insert_ne.
Qed.

(** ** Sorting, continued *)

Lemma sort_insert_perm_any {A} (cmp : A → A → Z) x l : sort_insert cmp x l ≡ₚ x :: l.
Proof.
  induction l as [|y l IH]; [done|]. simpl.
  destruct (cmp x y <=? 0); [done|]. by rewrite IH, Permutation_swap.
Qed.

(** Whatever the comparator, sorting permutes. *)
Lemma array_sort_perm_any {A} (cmp : A → A → Z) l : array_sort cmp l ≡ₚ l.
Proof.
  induction l as [|x l IH]; [done|]. simpl. by rewrite sort_insert_perm_any, IH.
Qed.

Lemma sort_insert_ext_on {A} (cmp cmp' : A → A → Z) x l :
  (∀ y, y ∈ l → cmp x y = cmp' x y) → sort_insert cmp x l = sort_insert cmp' x l.
Proof.
  induction l as [|y l IH]; intros Hc; [done|]. simpl.
  rewrite (Hc y) by left. rewrite IH; [done|]. intros z Hz. apply Hc. by right.
Qed.

Lemma array_sort_ext_on {A} (cmp cmp' : A → A → Z) l :
  (∀ a b, a ∈ l → b ∈ l → cmp a b = cmp' a b) → array_sort cmp l = array_sort cmp' l.
Proof.
  induction l as [|x l IH]; intros Hc; [done|]. simpl.
  rewrite IH by (intros a b Ha Hb; apply Hc; by right).
  apply sort_insert_ext_on. intros y Hy. apply Hc; [left|right].
  by rewrite (array_sort_perm_any cmp' l) in Hy.
Qed.

Lemma StronglySorted_filter {A} (R : relation A) (P : A → Prop) `{∀ x, Decision (P x)} l :
  StronglySorted R l → StronglySorted R (filter P l).
Proof.
  induction 1 as [|x l Hs IH Hx]; [constructor|].
  rewrite filter_cons. destruct (decide (P x)); [|done].
  constructor; [done|]. apply Forall_forall. intros y [_ Hy]%list_elem_of_filter.
  rewrite Forall_forall in Hx. by apply Hx.
Qed.

(** ** Verse styles, continued *)

Lemma styles_stamped_empty : styles_stamped ∅.
Proof. intros k s. by rewrite lookup_empty. Qed.

Lemma listAllStyles_run translation (w : World VerseStyle) :
  listAllStyles translation w
  = (Resolved (array_sort (λ a b, sub_or_NaN (vs_updatedAt b) (vs_updatedAt a))
                 (filter (λ s, vs_translation s = translation) (store_rows (objs w)))),
     {| objs := objs w; txlog := opened STORE_VERSE_STYLES readonly w |}).
Proof. done. Qed.

Lemma listNotes_run translation (w : World VerseStyle) :
  listNotes translation w
  = (Resolved (filter (λ s, trim (vs_note s) ≠ [])
                 (array_sort (λ a b, sub_or_NaN (vs_updatedAt b) (vs_updatedAt a))
                    (filter (λ s, vs_translation s = translation) (store_rows (objs w))))),
     {| objs := objs w; txlog := opened STORE_VERSE_STYLES readonly w |}).
Proof. done. Qed.

Lemma elem_of_listNotes translation (w : World VerseStyle) notes s :
  (listNotes translation w).1 = Resolved notes →
  s ∈ notes ↔ (∃ k, objs w !! k = Some s) ∧ vs_translation s = translation
              ∧ ¬ Forall (λ c, is_ws c = true) (vs_note s).
Proof.
  rewrite listNotes_run. intros [= <-].
  rewrite list_elem_of_filter, array_sort_perm_any, list_elem_of_filter,
    elem_of_store_rows, trim_nil_iff. tauto.
Qed.

Lemma listAllStyles_sorted (translation : jsstring) (m : gmap jsstring VerseStyle) :
  styles_stamped m →
  StronglySorted (λ a b, stamp b ≤ stamp a)
    (array_sort (λ a b, sub_or_NaN (vs_updatedAt b) (vs_updatedAt a))
       (filter (λ s, vs_translation s = translation) (store_rows m))).
Proof.
  intros Hst. rewrite (array_sort_ext_on _ (λ a b, stamp b - stamp a)).
  - apply (array_sort_desc stamp).
  - intros a b [_ [ka Ha]%elem_of_store_rows]%list_elem_of_filter
                [_ [kb Hb]%elem_of_store_rows]%list_elem_of_filter.
    destruct (Hst _ _ Ha) as [x Hx], (Hst _ _ Hb) as [y Hy].
    unfold stamp. by rewrite Hx, Hy.
Qed.

(** X11: the notes of a translation always resolve, write nothing and are
    exactly the stored styles of the translation whose note is not blank;
    when every stored style carries its [updatedAt], as every style the
    save stamps does, they and all the styles of the translation come
    latest first. *)
Theorem listNotes_newest_first translation (w : World VerseStyle) :
  ∃ notes styles w',
    listNotes translation w = (Resolved notes, w')
    ∧ (listAllStyles translation w).1 = Resolved styles
    ∧ objs w' = objs w
    ∧ (∀ s, s ∈ notes ↔ (∃ k, objs w !! k = Some s) ∧ vs_translation s = translation
                       ∧ ¬ Forall (λ c, is_ws c = true) (vs_note s))
    ∧ (∀ s, s ∈ styles ↔ (∃ k, objs w !! k = Some s) ∧ vs_translation s = translation)
    ∧ (styles_stamped (objs w) →
         StronglySorted (λ a b, stamp b ≤ stamp a) styles
         ∧ StronglySorted (λ a b, stamp b ≤ stamp a) notes).
Proof.
  eexists _, _, _. split; [apply listNotes_run|]. split; [by rewrite listAllStyles_run|].
  split; [done|]. split; [intros s; by apply (elem_of_listNotes translation w)|].
  split.
  - intros s. rewrite array_sort_perm_any, list_elem_of_filter, elem_of_store_rows. tauto.
  - intros Hst. split; [by apply listAllStyles_sorted|].
    by apply StronglySorted_filter, listAllStyles_sorted.
Qed.

Lemma removeVerseStyle_run translation book chapter verse (w : World VerseStyle) :
  removeVerseStyle translation book chapter verse w
  = (Resolved tt,
     {| objs := delete (verseStyleKey translation book chapter verse) (objs w);
        txlog := opened STORE_VERSE_STYLES readwrite w |}).
Proof. done. Qed.

(** X12: removing a style always resolves; afterwards the key of the verse
    holds nothing, every other key holds what it held, and the styles of
    the chapter have no entry for the verse.  Removing a style that is not
    there changes nothing, and so does removing twice. *)
Theorem removeVerseStyle_removes translation book chapter verse (w : World VerseStyle) :
  let key := verseStyleKey translation book chapter verse in
  let w' := (removeVerseStyle translation book chapter verse w).2 in
  (removeVerseStyle translation book chapter verse w).1 = Resolved tt
  ∧ (getOne STORE_VERSE_STYLES key w').1 = Resolved None
  ∧ (∀ k, k ≠ key → objs w' !! k = objs w !! k)
  ∧ (objs w !! key = None → objs w' = objs w)
  ∧ objs (removeVerseStyle translation book chapter verse w').2 = objs w'
  ∧ (store_wf (objs w) →
       ∃ styles, (getStylesForChapter translation book chapter w').1 = Resolved styles
                 ∧ styles !! key = None
                 ∧ ∀ k, k ≠ key →
                     styles !! k
                     = match (getStylesForChapter translation book chapter w).1 with
                       | Resolved before => before !! k
                       | Rejected _ => None
                       end).
Proof.
  intros key w'. unfold w'. rewrite !removeVerseStyle_run, getOne_run.
  cbn [fst snd objs]. fold key.
  split; [done|]. split; [by rewrite lookup_delete_eq|].
  split; [intros k Hk; by rewrite lookup_delete_ne|].
  split; [apply delete_id|]. split; [apply delete_id, lookup_delete_eq|].
  intros Hwf. rewrite !getStylesForChapter_run. cbn [fst objs].
  eexists. split; [done|].
  assert (store_wf (delete key (objs w))) as Hwf' by by apply store_wf_delete.
  split.
  - apply eq_None_not_Some. intros [s Hs].
    apply chapter_styles_lookup in Hs as [Hs _]; [|done].
    by rewrite lookup_delete_eq in Hs.
  - intros k Hk. apply option_eq. intros s.
    rewrite !chapter_styles_lookup by done. by rewrite lookup_delete_ne.
Qed.

(** ** The upsert and the lists *)

(** The store of the styles after an upsert on the selected verse. *)
Lemma upsertSelectedStyle_db now now' patch (st : AppState) v :
  state_selected st = Some v → cache_entry_ok st v →
  let key := verseStyleKey (state_translation st) (sv_book v) (sv_chapter v) (sv_verse v) in
  let next := spread_patch (current_style st v) patch now in
  let st' := (upsertSelectedStyle now now' patch st).2 in
  objs (state_db st') = <[key := with_updatedAt next now']> (objs (state_db st))
  ∧ state_stylesMap st' = <[key := next]> (state_stylesMap st)
  ∧ txlog (state_db st') = style_tx (state_db st)
  ∧ state_translation st' = state_translation st
  ∧ vs_key next = key ∧ vs_translation next = state_translation st
  ∧ vs_book next = sv_book v ∧ vs_chapter next = sv_chapter v.
Proof.
  intros Hsel Hok key next st'.
  destruct (current_style_key st v Hok) as (Ek & Et & Eb & Ec).
  unfold st'. rewrite (upsertSelectedStyle_run _ _ _ _ v Hsel). cbv zeta.
  cbn [snd state_db state_stylesMap state_translation objs txlog].
  fold key. change (vs_key (spread_patch (current_style st v) patch now))
    with (vs_key (current_style st v)). rewrite Ek. fold key. done.
Qed.

(** X13: an upsert with no verse selected does nothing, not even open a
    transaction.  With a verse selected it opens one read-write
    transaction and writes one record, under the style key of the verse:
    every other key of the store and of the cache keeps what it held.  The
    record is the current style (the cached one, or the default) in which
    each of the seven properties takes the value the patch names for it
    and keeps its value when the patch does not name it; the cache holds
    it with the clock reading of the upsert, the store with the later one
    of the save.  Stores whose records sit under their key paths and carry
    [updatedAt] stay so. *)
Theorem upsertSelectedStyle_one_key now now' patch (st : AppState) :
  (state_selected st = None →
     upsertSelectedStyle now now' patch st = (Resolved tt, st))
  ∧ (∀ v, state_selected st = Some v → cache_entry_ok st v →
       let t := state_translation st in
       let key := verseStyleKey t (sv_book v) (sv_chapter v) (sv_verse v) in
       let cur :=
         default (default_style key t (sv_book v) (sv_chapter v) (sv_verse v))
                 (state_stylesMap st !! key) in
       let merged := λ stamp,
         {| vs_key := key; vs_translation := vs_translation cur; vs_book := vs_book cur;
            vs_chapter := vs_chapter cur; vs_verse := vs_verse cur;
            vs_color := default (vs_color cur) (p_color patch);
            vs_underline := default (vs_underline cur) (p_underline patch);
            vs_bold := default (vs_bold cur) (p_bold patch);
            vs_bookmarked := default (vs_bookmarked cur) (p_bookmarked patch);
            vs_note := default (vs_note cur) (p_note patch);
            vs_noteType := default (vs_noteType cur) (p_noteType patch);
            vs_noteFavorite := default (vs_noteFavorite cur) (p_noteFavorite patch);
            vs_updatedAt := Some stamp |} in
       let st' := (upsertSelectedStyle now now' patch st).2 in
       (∀ k, k ≠ key →
          objs (state_db st') !! k = objs (state_db st) !! k
          ∧ state_stylesMap st' !! k = state_stylesMap st !! k)
       ∧ state_stylesMap st' !! key = Some (merged now)
       ∧ objs (state_db st') !! key = Some (merged now')
       ∧ txlog (state_db st')
         = txlog (state_db st)
           ++ [{| tx_store := STORE_VERSE_STYLES; tx_mode := readwrite |}]
       ∧ (store_wf (objs (state_db st)) → store_wf (objs (state_db st')))
       ∧ (styles_stamped (objs (state_db st)) → styles_stamped (objs (state_db st')))).
Proof.
  split.
  { intros Hsel. unfold upsertSelectedStyle. by rewrite Hsel. }
  intros v Hsel Hok t key cur merged st'.
  assert (current_style st v = cur) as Ecur by done.
  destruct (current_style_key st v Hok) as (Ek & _). fold t key in Ek. rewrite Ecur in Ek.
  destruct (upsertSelectedStyle_stored now now' patch st v cur Hsel Ecur Ek)
    as (Edb & Emap & Etx & _).
  fold t key merged st' in Edb, Emap, Etx. rewrite Edb, Emap.
  split.
  { intros k Hk. by rewrite !lookup_insert_ne. }
  split; [by rewrite lookup_insert_eq|]. split; [by rewrite lookup_insert_eq|].
  split; [exact Etx|].
  split.
  - intros Hwf.
    change (store_wf (<[key_of (merged now') := merged now']> (objs (state_db st)))).
    by apply store_wf_put.
  - intros Hst k s [[_ <-]|[_ Hs]]%lookup_insert_Some; [by eexists|by eapply Hst].
Qed.

(** X14: after an upsert whose patch sets the note of the selected verse,
    the notes of the translation list the style of the verse when the note
    is not blank and list no style under its key when the note is blank,
    as after the removal of a note. *)
Theorem upsert_note_then_listNotes now now' patch x (st : AppState) v :
  state_selected st = Some v → cache_entry_ok st v →
  store_wf (objs (state_db st)) → p_note patch = Some x →
  let key := verseStyleKey (state_translation st) (sv_book v) (sv_chapter v) (sv_verse v) in
  let st' := (upsertSelectedStyle now now' patch st).2 in
  ∃ notes,
    (listNotes (state_translation st) (state_db st')).1 = Resolved notes
    ∧ (¬ Forall (λ c, is_ws c = true) x →
         ∃ s, s ∈ notes ∧ vs_key s = key ∧ vs_note s = x
              ∧ vs_updatedAt s = Some now')
    ∧ (Forall (λ c, is_ws c = true) x → ∀ s, s ∈ notes → vs_key s ≠ key).
Proof.
  intros Hsel Hok Hwf Hnote key st'.
  destruct (upsertSelectedStyle_db now now' patch st v Hsel Hok)
    as (Edb & _ & _ & _ & Ek & Et & _).
  fold key st' in Edb, Ek.
  set (next := spread_patch (current_style st v) patch now) in *.
  assert (vs_note next = x) as En by (unfold next; simpl; by rewrite Hnote).
  eexists. split; [by rewrite listNotes_run|].
  assert (∀ s, s ∈ filter (λ s, trim (vs_note s) ≠ [])
                 (array_sort (λ a b, sub_or_NaN (vs_updatedAt b) (vs_updatedAt a))
                    (filter (λ s, vs_translation s = state_translation st)
                       (store_rows (objs (state_db st')))))
               ↔ (∃ k, objs (state_db st') !! k = Some s)
                 ∧ vs_translation s = state_translation st
                 ∧ ¬ Forall (λ c, is_ws c = true) (vs_note s)) as Hin.
  { intros s. by apply (elem_of_listNotes (state_translation st) (state_db st')). }
  split.
  - intros Hx. exists (with_updatedAt next now'). split; [|done].
    apply Hin. split; [|split; [done|]].
    2: { change (vs_note (with_updatedAt next now')) with (vs_note next). by rewrite En. }
    exists key. by rewrite Edb, lookup_insert_eq.
  - intros Hx s [[k Hk] [_ Hn]]%Hin Es. apply Hn.
    assert (store_wf (objs (state_db st'))) as Hwf'.
    { rewrite Edb. assert (key = key_of (with_updatedAt next now')) as -> by by rewrite <- Ek.
      by apply store_wf_put. }
    pose proof (Hwf' _ _ Hk) as Ekk. unfold key_of, VerseStyle_keyed in Ekk.
    rewrite Es in Ekk. subst k. rewrite Edb, lookup_insert_eq in Hk.
    injection Hk as <-.
    change (vs_note (with_updatedAt next now')) with (vs_note next). by rewrite En.
Qed.

(** X15: the join after a reload.  After an upsert, the styles of the
    chapter read back from the store give the verse of the upsert the
    stored style and give every other verse of the chapter the style the
    store held for it before. *)
Theorem reload_after_upsert now now' patch (st : AppState) v :
  state_selected st = Some v → cache_entry_ok st v →
  store_wf (objs (state_db st)) →
  let t := state_translation st in
  let key := verseStyleKey t (sv_book v) (sv_chapter v) (sv_verse v) in
  let st' := (upsertSelectedStyle now now' patch st).2 in
  ∃ before after,
    (getStylesForChapter t (sv_book v) (sv_chapter v) (state_db st)).1 = Resolved before
    ∧ (getStylesForChapter t (sv_book v) (sv_chapter v) (state_db st')).1 = Resolved after
    ∧ ∀ r : VerseRow,
        vr_book r = sv_book v → vr_chapter r = sv_chapter v →
        sv_style <$> join_styles t after [r]
        = [if bool_decide (vr_verse r = sv_verse v)
           then Some (with_updatedAt (spread_patch (current_style st v) patch now) now')
           else before !! verseStyleKey t (vr_book r) (vr_chapter r) (vr_verse r)].
Proof.
  intros Hsel Hok Hwf t key st'.
  destruct (upsertSelectedStyle_db now now' patch st v Hsel Hok)
    as (Edb & _ & _ & _ & Ek & Et & Eb & Ec).
  fold t key st' in Edb, Ek, Et.
  set (next := spread_patch (current_style st v) patch now) in *.
  eexists _, _. rewrite !getStylesForChapter_run. cbn [fst].
  split; [done|]. split; [done|].
  intros r Hb Hc. simpl. f_equal. rewrite Hb, Hc.
  assert (store_wf (objs (state_db st'))) as Hwf'.
  { rewrite Edb. assert (key = key_of (with_updatedAt next now')) as -> by by rewrite <- Ek.
    by apply store_wf_put. }
  apply option_eq. intros s. rewrite chapter_styles_lookup by done.
  destruct (bool_decide_reflect (vr_verse r = sv_verse v)) as [->|Hne].
  - fold key. rewrite Edb, lookup_insert_eq. split.
    + by intros [[= <-] _].
    + intros [= <-]. done.
  - rewrite chapter_styles_lookup by done. rewrite Edb, lookup_insert_ne; [done|].
    unfold key, verseStyleKey. intros E.
    do 6 apply app_inv_head in E. apply Number_toString_inj in E. congruence.
Qed.

(** ** Translations and their stores *)

Lemma elem_of_TRANSLATIONS t :
  t ∈ TRANSLATIONS →
  t = {| tm_id := js "KJV"; tm_label := js "KJV (English)";
         tm_xml := js "./data/EnglishKJBible.xml"; tm_store := STORE_KJV_VERSES |}
  ∨ (tm_id t ≠ js "KJV" ∧ translationMeta (tm_id t) = t).
Proof.
  unfold TRANSLATIONS. rewrite !elem_of_cons, elem_of_nil.
  intros [->|[->|[->|[->|[->|[->|[]]]]]]]; [by left|right..];
    (split; [by vm_compute|reflexivity]).
Qed.

(** X16: for every entry of the table of translations whose id
    upper-casing leaves as it is, the entry is what its id looks up, the
    store searched and the store chapters are read from are the store of
    the entry, the one the import of the translation writes. *)
Theorem translation_store_agrees (toUpperCase : jsstring → jsstring) t :
  t ∈ TRANSLATIONS → toUpperCase (tm_id t) = tm_id t →
  translationMeta (tm_id t) = t
  ∧ storeForSearch toUpperCase (tm_id t) = tm_store t
  ∧ ∀ book chapter db,
      getChapterOffline toUpperCase (tm_id t) book chapter db
      = in_store (tm_store t) (getChapterFromStore (tm_store t) book chapter) db.
Proof.
  unfold TRANSLATIONS. rewrite !elem_of_cons, elem_of_nil.
  unfold storeForSearch, getChapterOffline.
  intros [->|[->|[->|[->|[->|[->|[]]]]]]] Hup; cbn [tm_id tm_store] in *; rewrite Hup;
    (split; [reflexivity|]); (split; [reflexivity|]); intros; reflexivity.
Qed.

(** X17: for an id that upper-cases to none of the ids the switch names,
    the chapter read answers [[]] and touches no store, while the search
    falls back to the store of the KJV. *)
Theorem getChapterOffline_unknown (toUpperCase : jsstring → jsstring) id book chapter
    (db : VerseDb) :
  toUpperCase id ∉ js <$> ["KJV"; "ESV"; "NIV"; "AMP"; "AMPC"; "NVI-ES"; "NVI_ES"]%string →
  getChapterOffline toUpperCase id book chapter db = (Resolved [], db)
  ∧ storeForSearch toUpperCase id = STORE_KJV_VERSES.
Proof.
  rewrite !fmap_cons, !not_elem_of_cons. intros (H1 & H2 & H3 & H4 & H5 & H6 & H7 & _).
  unfold getChapterOffline, storeForSearch.
  by rewrite !bool_decide_eq_false_2.
Qed.

Lemma in_store_objs_other {A} name (t : Task (World VerseRow) A) (db : VerseDb) n :
  n ≠ name → (in_store name t db).2 n = db n.
Proof.
  intros Hn. unfold in_store. destruct (t (db name)). simpl.
  unfold set_store. by rewrite bool_decide_eq_false_2.
Qed.

Lemma in_store_same {A} name (t : Task (World VerseRow) A) (db : VerseDb) :
  (in_store name t db).2 name = (t (db name)).2
  ∧ (in_store name t db).1 = (t (db name)).1.
Proof.
  unfold in_store. destruct (t (db name)). simpl.
  unfold set_store. by rewrite bool_decide_eq_true_2.
Qed.

(** What [ensureTranslationImported] does for an entry of the table. *)
Lemma ensureTranslationImported_run fetch t (db : VerseDb) :
  t ∈ TRANSLATIONS →
  ensureTranslationImported fetch (tm_id t) db
  = ((count ← in_store (tm_store t) (countStore (tm_store t)) ;
      if (0 <? count)%nat then mret tt
      else in_store (tm_store t)
             (importBibleFromXML (fetch (tm_xml t)) (tm_store t)) ;; mret tt)
     : Task VerseDb unit) db.
Proof.
  intros [->|[Hne Hmeta]]%elem_of_TRANSLATIONS; [reflexivity|].
  unfold ensureTranslationImported. rewrite bool_decide_eq_false_2 by done.
  cbv zeta. by rewrite Hmeta.
Qed.

(** X18: for a translation of the table, the import on demand writes
    nothing when the store of the translation already holds a record; on
    an empty store it imports the document of the translation into that
    store, fails as the import fails and leaves the store empty then, and
    after a successful import a second call writes nothing, whatever the
    network answers.  No other store is touched. *)
Theorem ensureTranslationImported_once fetch fetch' t (db : VerseDb) :
  t ∈ TRANSLATIONS →
  let name := tm_store t in
  let first := ensureTranslationImported fetch (tm_id t) db in
  (∀ n, n ≠ name → objs (first.2 n) = objs (db n))
  ∧ (objs (db name) ≠ ∅ →
       first.1 = Resolved tt ∧ objs (first.2 name) = objs (db name))
  ∧ (objs (db name) = ∅ →
       match (importBibleFromXML (fetch (tm_xml t)) name (db name)).1 with
       | Rejected e => first.1 = Rejected e ∧ objs (first.2 name) = ∅
       | Resolved _ =>
           first.1 = Resolved tt
           ∧ objs (first.2 name)
             = put_all ∅ (rows (collect_rows (res_xml (fetch (tm_xml t)))))
           ∧ objs (first.2 name) ≠ ∅
           ∧ ∀ n, objs ((ensureTranslationImported fetch' (tm_id t) first.2).2 n)
                  = objs (first.2 n)
       end).
Proof.
  intros Ht name first.
  assert (∀ f (d : VerseDb),
            ensureTranslationImported f (tm_id t) d
            = let counted := {| objs := objs (d name);
                                txlog := opened name readonly (d name) |} in
              if (0 <? size (objs (d name)))%nat
              then (Resolved tt, set_store name counted d)
              else
                let '(o, w) := importBibleFromXML (f (tm_xml t)) name counted in
                (match o with Resolved _ => Resolved tt | Rejected e => Rejected e end,
                 set_store name w (set_store name counted d))) as Hrun.
  { intros f d. rewrite ensureTranslationImported_run by done. fold name.
    unfold mbind, task_bind, in_store.
    change (countStore name (d name))
      with (Resolved (size (objs (d name))),
            {| objs := objs (d name); txlog := opened name readonly (d name) |}).
    cbv beta iota zeta.
    destruct (0 <? size (objs (d name)))%nat; [done|].
    assert (∀ x, set_store name x d name = x) as ->
      by (intros; unfold set_store; by rewrite bool_decide_eq_true_2).
    by destruct (importBibleFromXML _ _ _) as [[?|?] ?]. }
  assert (∀ m : gmap jsstring VerseRow, (0 <? size m)%nat = false ↔ m = ∅) as Hsz.
  { intros m. rewrite Nat.ltb_ge, <- map_size_empty_iff. lia. }
  unfold first. rewrite Hrun. cbv zeta.
  split; [|split].
  - intros n Hn. destruct (0 <? _)%nat.
    + cbn [snd]. unfold set_store. by rewrite bool_decide_eq_false_2.
    + destruct (importBibleFromXML _ _ _) as [o w']. cbn [snd]. unfold set_store.
      by rewrite !bool_decide_eq_false_2.
  - intros Hne. destruct (0 <? _)%nat eqn:E; [|by apply Hsz in E].
    cbn [fst snd]. unfold set_store. by rewrite bool_decide_eq_true_2.
  - intros Hempty. assert ((0 <? size (objs (db name)))%nat = false) as -> by by apply Hsz.
    rewrite !importBibleFromXML_run.
    destruct (negb _);
      [cbn [fst snd]; unfold set_store; by rewrite bool_decide_eq_true_2|].
    destruct (parsererror _);
      [cbn [fst snd]; unfold set_store; by rewrite bool_decide_eq_true_2|].
    cbv zeta. destruct (rows _) as [|r l] eqn:Er;
      [cbn [fst snd]; unfold set_store; by rewrite bool_decide_eq_true_2|].
    cbn [fst snd objs]. rewrite Hempty.
    assert (put_all ∅ (r :: l) ≠ (∅ : gmap jsstring VerseRow)) as Hne.
    { intros E. pose proof (put_all_lookup_elem ∅ (r :: l) r) as [x Hx]; [left|].
      by rewrite E, lookup_empty in Hx. }
    split; [done|].
    assert (∀ x y, objs (set_store name x y name) = objs x) as Hset
      by (intros; unfold set_store; by rewrite bool_decide_eq_true_2).
    split; [by rewrite Hset|]. split; [by rewrite Hset|].
    intros n. rewrite Hrun. cbv zeta. rewrite Hset. cbn [objs].
    destruct (0 <? size _)%nat eqn:E; [|by apply Hsz in E].
    cbn [snd]. unfold set_store. destruct (bool_decide (n = name)); done.
Qed.

(** ** Reference packs *)

Lemma dive_ensure_run {P} (response : PackFetch P) (m : DiveMemo P) :
  dive_ensure response m
  = match dive_table m, response with
    | Some table, _ => (Fulfilled table, m)
    | None, PackRejects =>
        (Thrown, {| dive_table := None; dive_fetches := S (dive_fetches m) |})
    | None, PackNotOk =>
        (Fulfilled ∅, {| dive_table := Some ∅; dive_fetches := S (dive_fetches m) |})
    | None, PackBody table =>
        (Fulfilled table, {| dive_table := Some table; dive_fetches := S (dive_fetches m) |})
    end.
Proof.
  unfold dive_ensure, loadJsonOnce.
  destruct (dive_table m) eqn:E; [done|]. by destruct response.
Qed.

Lemma getDiveTags_getDiveCrossrefs (response : PackFetch (list jsstring))
    book chapter verse (m : DiveMemo (list jsstring)) :
  getDiveTags response book chapter verse m
  = getDiveCrossrefs response book chapter verse m.
Proof. reflexivity. Qed.

(** X19: a pack of cross references is fetched until a fetch resolves,
    and never again, by calls made one after the other.  A call on a memo
    that holds a table answers from it and fetches nothing.  On an empty
    memo, a fetch that rejects makes the call reject and leaves the memo
    empty, so that the next call fetches again; a fetch that resolves is
    kept, as the empty table when the answer is not [ok], and the next
    call answers from the kept table and fetches nothing, whatever the
    network would answer then.  A locator without entry gives [[]]. *)
Theorem dive_pack_loaded_once {X} (response response' : PackFetch (list X))
    book chapter verse book' chapter' verse' (m : DiveMemo (list X)) :
  let first := getDiveCrossrefs response book chapter verse m in
  let second := getDiveCrossrefs response' book' chapter' verse' first.2 in
  let fetched := {| dive_table := None; dive_fetches := S (dive_fetches m) |} in
  let kept := λ table, {| dive_table := Some table; dive_fetches := S (dive_fetches m) |} in
  (∀ table, dive_table m = Some table →
     first = (Fulfilled (default [] (table !! verseKey book chapter verse)), m))
  ∧ (dive_table m = None →
     match response with
     | PackRejects =>
         first = (Thrown, fetched)
         ∧ dive_fetches second.2 = S (S (dive_fetches m))
     | PackNotOk =>
         first = (Fulfilled [], kept ∅) ∧ second = (Fulfilled [], kept ∅)
     | PackBody table =>
         first = (Fulfilled (default [] (table !! verseKey book chapter verse)), kept table)
         ∧ second
           = (Fulfilled (default [] (table !! verseKey book' chapter' verse')), kept table)
     end)
  ∧ (∀ table, dive_table first.2 = Some table →
       table !! verseKey book' chapter' verse' = None → second = (Fulfilled [], first.2)).
Proof.
  intros first second fetched kept. unfold second, first, getDiveCrossrefs.
  split; [|split].
  - intros table E. by rewrite dive_ensure_run, E.
  - intros E. rewrite (dive_ensure_run response), E.
    destruct response as [| |table]; cbn [fst snd]; rewrite dive_ensure_run;
      cbn [dive_table dive_fetches].
    + split; [done|]. by destruct response'.
    + by rewrite !lookup_empty.
    + done.
  - intros table. destruct (dive_ensure response m) as [[t1|] m1] eqn:E1; cbn [fst snd];
      intros E Hnone; rewrite dive_ensure_run, E; by rewrite ?Hnone.
Qed.

(** X20: the explanations are kept the same way.  A call on a memo that
    holds a table answers the entry of the table, or [null], and fetches
    nothing.  On an empty memo, a fetch that rejects makes the call
    reject and leaves the memo empty, so that the next call fetches
    again; a fetch that resolves is kept, as the empty table when the
    answer is not [ok], and the next call answers from the kept table and
    fetches nothing. *)
Theorem getDiveExplain_loaded_once {P} (response response' : PackFetch P)
    book chapter verse book' chapter' verse' (m : DiveMemo P) :
  let first := getDiveExplain response book chapter verse m in
  let second := getDiveExplain response' book' chapter' verse' first.2 in
  let fetched := {| dive_table := None; dive_fetches := S (dive_fetches m) |} in
  let kept := λ table, {| dive_table := Some table; dive_fetches := S (dive_fetches m) |} in
  (∀ table, dive_table m = Some table →
     first = (Fulfilled (table !! verseKey book chapter verse), m))
  ∧ (dive_table m = None →
     match response with
     | PackRejects =>
         first = (Thrown, fetched)
         ∧ dive_fetches second.2 = S (S (dive_fetches m))
     | PackNotOk =>
         first = (Fulfilled None, kept ∅) ∧ second = (Fulfilled None, kept ∅)
     | PackBody table =>
         first = (Fulfilled (table !! verseKey book chapter verse), kept table)
         ∧ second = (Fulfilled (table !! verseKey book' chapter' verse'), kept table)
     end).
Proof.
  intros first second fetched kept. unfold second, first, getDiveExplain.
  split.
  - intros table E. by rewrite dive_ensure_run, E.
  - intros E. rewrite (dive_ensure_run response), E.
    destruct response as [| |table]; cbn [fst snd]; rewrite dive_ensure_run;
      cbn [dive_table dive_fetches].
    + split; [done|]. by destruct response'.
    + by rewrite !lookup_empty.
    + done.
Qed.

(** ** Selection *)

Lemma verseKey_nonempty book chapter verse : verseKey book chapter verse ≠ [].
Proof.
  unfold verseKey. intros E. apply app_eq_nil in E as [_ E]. discriminate.
Qed.

(** X21: selecting a verse that is not the selected one selects it;
    selecting it again clears the selection; selecting a verse with
    another locator moves the selection there (the book names holding no
    delimiter). *)
Theorem selectVerse_toggles (v u : ShownVerse) (s : Selection) :
  sel_selectedKey s ≠ verseKey (sv_book v) (sv_chapter v) (sv_verse v) →
  BAR_code ∉ sv_book v → BAR_code ∉ sv_book u →
  let s1 := selectVerse v s in
  sel_selected s1 = Some v
  ∧ sel_selectedKey s1 = verseKey (sv_book v) (sv_chapter v) (sv_verse v)
  ∧ selectVerse v s1 = {| sel_selected := None; sel_selectedKey := [] |}
  ∧ selectVerse v (selectVerse v s1) = s1
  ∧ ((sv_book u, sv_chapter u, sv_verse u) ≠ (sv_book v, sv_chapter v, sv_verse v) →
       sel_selected (selectVerse u s1) = Some u).
Proof.
  intros Hne Hv Hu s1.
  assert (s1 = {| sel_selected := Some v;
                  sel_selectedKey := verseKey (sv_book v) (sv_chapter v) (sv_verse v) |}) as E1.
  { unfold s1, selectVerse. rewrite (bool_decide_eq_false_2 _) by done.
    by rewrite andb_false_r. }
  pose proof (verseKey_nonempty (sv_book v) (sv_chapter v) (sv_verse v)) as Hk.
  assert (selectVerse v s1 = {| sel_selected := None; sel_selectedKey := [] |}) as E2.
  { rewrite E1. unfold selectVerse. cbn [sel_selectedKey].
    rewrite bool_decide_eq_true_2 by done.
    by destruct (verseKey (sv_book v) (sv_chapter v) (sv_verse v)). }
  rewrite E2. split; [by rewrite E1|]. split; [by rewrite E1|]. split; [done|].
  split; [by rewrite E1|].
  intros Hloc. rewrite E1. unfold selectVerse. cbn [sel_selectedKey].
  rewrite (bool_decide_eq_false_2 _); [by rewrite andb_false_r|].
  intros E. apply verseKey_eq_inv in E as (? & ? & ?); [|done..]. apply Hloc. congruence.
Qed.

(** ** Navigation *)

Lemma CHAPTER_COUNTS_positive book n :
  (list_to_map CHAPTER_COUNTS : gmap jsstring Z) !! book = Some n → 1 ≤ n ≤ 150.
Proof.
  intros Hn%elem_of_list_to_map_2.
  assert (bool_decide (Forall (λ p : jsstring * Z, 1 ≤ p.2 ≤ 150) CHAPTER_COUNTS) = true) as H
    by (vm_compute; reflexivity).
  apply bool_decide_eq_true in H. rewrite Forall_forall in H. apply (H _ Hn).
Qed.

Lemma maxChaptersForBook_range book : 1 ≤ maxChaptersForBook book ≤ 150.
Proof.
  unfold maxChaptersForBook.
  destruct (list_to_map CHAPTER_COUNTS !! book) as [n|] eqn:E; [|lia].
  apply CHAPTER_COUNTS_positive in E. unfold falsy_num.
  destruct (Z.eqb_spec n 0); lia.
Qed.

Lemma BOOKS_counted book :
  book ∈ BOOKS →
  ∃ n, (list_to_map CHAPTER_COUNTS : gmap jsstring Z) !! book = Some n
       ∧ maxChaptersForBook book = n ∧ 1 ≤ n.
Proof.
  intros Hb.
  assert (bool_decide (Forall (λ b, is_Some ((list_to_map CHAPTER_COUNTS : gmap jsstring Z) !! b))
                         BOOKS) = true) as H by (vm_compute; reflexivity).
  apply bool_decide_eq_true in H. rewrite Forall_forall in H.
  destruct (H _ Hb) as [n Hn]. exists n. split; [done|].
  pose proof (CHAPTER_COUNTS_positive _ _ Hn).
  unfold maxChaptersForBook. rewrite Hn. unfold falsy_num.
  destruct (Z.eqb_spec n 0); [lia|]. split; [done|lia].
Qed.

Lemma in_book_move p m : in_book p → offered p m → in_book (move p m).
Proof.
  unfold in_book. intros [Hb Hp] Hm.
  destruct m as [| |value|value]; unfold move, prev_click, next_click, onBookChanged,
    onChapterChanged, populateChapters; cbn [pos_book pos_chapter]; cbv zeta.
  - split; [done|]. lia.
  - split; [done|]. lia.
  - split; [exact Hm|]. pose proof (maxChaptersForBook_range value).
    destruct (Z.ltb_spec (maxChaptersForBook value) 1); lia.
  - split; [done|]. exact Hm.
Qed.

(** X22: the reader stays on a chapter of its book.  From a position
    inside a book of the canon, every run of previous, next, and choices
    the two selects offer ends inside a book of the canon, the chapter
    between 1 and the count of that book; previous stops at chapter 1
    and next at the last chapter; a change of book opens chapter 1. *)
Theorem navigation_stays_in_book (p : Position) (moves : list Move) :
  in_book p → offered_run p moves →
  in_book (foldl move p moves)
  ∧ (pos_chapter p = 1 → prev_click p = p)
  ∧ (pos_chapter p = maxChaptersForBook (pos_book p) → next_click p = p)
  ∧ (∀ value, onBookChanged value p = {| pos_book := value; pos_chapter := 1 |}).
Proof.
  intros Hp Hrun. split; [|split; [|split]].
  - revert p Hp Hrun. induction moves as [|m moves IH]; intros p Hp Hrun; [done|].
    destruct Hrun as [Hm Hrun]. cbn [foldl]. apply IH; [by apply in_book_move|done].
  - intros E. destruct p as [b c]. cbn [pos_chapter] in E. subst c. reflexivity.
  - intros E. destruct p as [b c]. unfold next_click. cbn [pos_book pos_chapter] in *.
    f_equal. lia.
  - intros value. unfold onBookChanged, populateChapters. cbn [pos_book pos_chapter]. cbv zeta.
    pose proof (maxChaptersForBook_range value).
    destruct (Z.ltb_spec (maxChaptersForBook value) 1); [lia|done].
Qed.

(** X23: every book of the canon, hence the book of every row the
    importer collects, has a chapter count of its own, between 1 and 150,
    and [maxChaptersForBook] returns it.  A name with neither a count nor
    an inherited property gets the fallback of 50; a name of a property
    the object inherits gets no number: the inherited value is returned as
    it is.  For every other name the function returns the number
    [maxChaptersForBook] gives. *)
Theorem maxChaptersForBook_canon (book : jsstring) :
  (book ∈ BOOKS →
     (list_to_map CHAPTER_COUNTS : gmap jsstring Z) !! book = Some (maxChaptersForBook book)
     ∧ maxChaptersForBook_value book = NumberValue (maxChaptersForBook book)
     ∧ 1 ≤ maxChaptersForBook book ≤ 150)
  ∧ (∀ xml r, r ∈ rows (collect_rows xml) → vr_book r = book →
       (list_to_map CHAPTER_COUNTS : gmap jsstring Z) !! book = Some (maxChaptersForBook book)
       ∧ maxChaptersForBook_value book = NumberValue (maxChaptersForBook book))
  ∧ ((list_to_map CHAPTER_COUNTS : gmap jsstring Z) !! book = None →
       book ∉ Object_prototype_names →
       maxChaptersForBook_value book = NumberValue 50)
  ∧ (book ∈ Object_prototype_names →
       maxChaptersForBook_value book = InheritedValue book)
  ∧ (book ∉ Object_prototype_names →
       maxChaptersForBook_value book = NumberValue (maxChaptersForBook book)).
Proof.
  assert (book ∈ BOOKS →
          (list_to_map CHAPTER_COUNTS : gmap jsstring Z) !! book
          = Some (maxChaptersForBook book)
          ∧ maxChaptersForBook_value book = NumberValue (maxChaptersForBook book)) as Hcanon.
  { intros (n & Hn & E & Hpos)%BOOKS_counted. split; [by rewrite E|].
    unfold maxChaptersForBook_value, CHAPTER_COUNTS_at. rewrite Hn, E.
    unfold falsy_num. destruct (Z.eqb_spec n 0); [lia|done]. }
  split; [|split; [|split; [|split]]].
  - intros Hb. destruct (Hcanon Hb) as [? ?].
    split; [done|]. split; [done|]. apply maxChaptersForBook_range.
  - intros xml r Hr <-. eapply Hcanon, collect_rows_book, Hr.
  - intros E Hnot. unfold maxChaptersForBook_value, CHAPTER_COUNTS_at.
    by rewrite E, bool_decide_eq_false_2.
  - intros Hin.
    assert (bool_decide (Forall (λ name, (list_to_map CHAPTER_COUNTS : gmap jsstring Z)
                                           !! name = None) Object_prototype_names) = true)
      as H by (vm_compute; reflexivity).
    apply bool_decide_eq_true in H. rewrite Forall_forall in H.
    unfold maxChaptersForBook_value, CHAPTER_COUNTS_at.
    by rewrite (H _ Hin), bool_decide_eq_true_2.
  - intros Hnot. unfold maxChaptersForBook_value, CHAPTER_COUNTS_at, maxChaptersForBook.
    destruct (list_to_map CHAPTER_COUNTS !! book) as [n|]; [by destruct (falsy_num n)|].
    by rewrite bool_decide_eq_false_2.
Qed.

(** ** The further statements at the worked inputs *)

(** Decidable facts about the worked inputs, by evaluation. *)
Ltac by_evaluation :=
  match goal with
  | |- ?P => apply (bool_decide_unpack P); vm_compute; exact I
  end.

Lemma fixture_locators_NoDup : NoDup (locator <$> rows (collect_rows fixture_xml)).
Proof. by_evaluation. Qed.

Lemma fixture_import :
  importBibleFromXML fixture_response STORE_KJV_VERSES empty_world
  = (Resolved {| verses := 3; books := 1 |}, fixture_world).
Proof. vm_compute. reflexivity. Qed.

Lemma genesis_1_1_collected : genesis_1_1 ∈ rows (collect_rows fixture_xml).
Proof. vm_compute. do 2 right. left. Qed.

Lemma fixture_world_wf : store_wf (objs fixture_world).
Proof.
  assert (objs fixture_world = put_all ∅ (rows (collect_rows fixture_xml))) as ->
    by (vm_compute; reflexivity).
  apply store_wf_put_all, store_wf_empty.
Qed.

Lemma noted_state_db :
  objs (state_db noted_state)
  = <[verseStyleKey (js "KJV") (js "Genesis") 1 1 :=
        with_updatedAt
          (spread_patch (current_style fixture_state shown_genesis_1_1)
             (patch_note (js "x")) 1000) 1001]> ∅.
Proof.
  by destruct (upsertSelectedStyle_db 1000 1001 (patch_note (js "x")) fixture_state
                 shown_genesis_1_1 eq_refl
                 (cache_entry_ok_fresh fixture_state shown_genesis_1_1 eq_refl)) as (E & _).
Qed.

Lemma noted_state_stamped : styles_stamped (objs (state_db noted_state)).
Proof.
  rewrite noted_state_db. intros k s [[_ <-]|[_ Hs]]%lookup_insert_Some; [by eexists|].
  by rewrite lookup_empty in Hs.
Qed.

Lemma noted_state_wf : store_wf (objs (state_db noted_state)).
Proof.
  rewrite noted_state_db. intros k s [[<- <-]|[_ Hs]]%lookup_insert_Some; [done|].
  by rewrite lookup_empty in Hs.
Qed.

Lemma x_not_blank : ¬ Forall (λ c, is_ws c = true) (js "x").
Proof. intros HF. apply trim_nil_iff in HF. vm_compute in HF. discriminate. Qed.

Lemma verseKey_inj_witness :
  js "Genesis" ∈ BOOKS
  ∧ (BAR_code ∉ js "Genesis")
  ∧ verseKey (js "Genesis") 1 11 ≠ verseKey (js "Genesis") 11 1.
Proof.
  destruct (verseKey_inj (js "Genesis") 1 11 (js "Genesis") 11 1) as (Hinj & Hbooks & _).
  assert (js "Genesis" ∈ BOOKS) as Hb by (vm_compute; left).
  split; [exact Hb|]. split; [exact (Hbooks Hb)|].
  intros E. destruct (Hinj (Hbooks Hb) (Hbooks Hb) E) as (_ & E' & _). discriminate.
Defined.

Lemma import_distinct_locators_stored_witness :
  objs (empty_world : World VerseRow) = ∅
  ∧ NoDup (locator <$> rows (collect_rows (res_xml fixture_response)))
  ∧ (countStore STORE_KJV_VERSES fixture_world).1 = Resolved 3%nat
  ∧ (getOne STORE_KJV_VERSES (vr_key genesis_1_1) fixture_world).1
    = Resolved (Some genesis_1_1).
Proof.
  destruct (import_distinct_locators_stored fixture_response STORE_KJV_VERSES empty_world
              fixture_world {| verses := 3; books := 1 |} eq_refl
              fixture_locators_NoDup fixture_import) as (Hcount & _ & Hone).
  split; [reflexivity|]. split; [exact fixture_locators_NoDup|].
  split; [exact Hcount|exact (Hone _ genesis_1_1_collected)].
Defined.

Lemma import_then_getChapter_witness :
  objs (empty_world : World VerseRow) = ∅
  ∧ NoDup (locator <$> rows (collect_rows (res_xml fixture_response)))
  ∧ ∃ verses w'',
      getChapterFromStore STORE_KJV_VERSES (js "Genesis") 1 fixture_world
      = (Resolved verses, w'')
      ∧ StronglySorted (λ a b, vr_verse a < vr_verse b) verses
      ∧ length verses = 3%nat.
Proof.
  destruct (import_then_getChapter fixture_response STORE_KJV_VERSES empty_world
              fixture_world {| verses := 3; books := 1 |} (js "Genesis") 1 eq_refl
              fixture_locators_NoDup fixture_import) as (verses & w'' & E & Hperm & Hsorted & _).
  split; [reflexivity|]. split; [exact fixture_locators_NoDup|].
  exists verses, w''. split; [exact E|]. split; [exact Hsorted|].
  rewrite Hperm. vm_compute. reflexivity.
Defined.

Lemma searchTextCursor_cap_prefix_witness :
  ascii_toLowerCase (trim (js "AND")) ≠ []
  ∧ (1 ≤ 2)%nat
  ∧ ∃ hits_1 hits_2 w',
      searchTextCursor ascii_toLowerCase vr_text STORE_KJV_VERSES (js "AND") 1 fixture_world
      = (Resolved hits_1, w')
      ∧ searchTextCursor ascii_toLowerCase vr_text STORE_KJV_VERSES (js "AND") 2 fixture_world
        = (Resolved hits_2, w')
      ∧ hits_1 = take 1 hits_2.
Proof.
  assert (ascii_toLowerCase (trim (js "AND")) ≠ []) as Hq by (vm_compute; discriminate).
  destruct (searchTextCursor_cap_prefix ascii_toLowerCase vr_text STORE_KJV_VERSES (js "AND")
              1 2 fixture_world Hq (le_S 1 1 (le_n 1)))
    as (hits_1 & hits_2 & w' & E1 & E2 & Htake & _).
  split; [exact Hq|]. split; [exact (le_S 1 1 (le_n 1))|].
  exists hits_1, hits_2, w'. split; [exact E1|]. split; [exact E2|exact Htake].
Defined.

Lemma getAll_countStore_getOne_witness :
  store_wf (objs fixture_world)
  ∧ ∃ all,
      (getAll STORE_KJV_VERSES fixture_world).1 = Resolved all
      ∧ NoDup all
      ∧ (countStore STORE_KJV_VERSES fixture_world).1 = Resolved (length all)
      ∧ genesis_1_1 ∈ all.
Proof.
  destruct (getAll_countStore_getOne STORE_KJV_VERSES fixture_world fixture_world_wf)
    as (all & E & _ & Hnd & Hcount & Hone).
  split; [exact fixture_world_wf|].
  exists all. split; [exact E|]. split; [exact Hnd|]. split; [exact Hcount|].
  apply (Hone (vr_key genesis_1_1) genesis_1_1). vm_compute. reflexivity.
Defined.

Lemma listBookmarks_follows_toggle_witness :
  objs (empty_world : World Bookmark) !! bookmarkKey (js "KJV") (js "Genesis") 1 = None
  ∧ bookmarks_ok (objs (empty_world : World Bookmark))
  ∧ ∃ after,
      (listBookmarks (js "KJV")
         (toggleBookmark 1000 (js "KJV") (js "Genesis") 1 empty_world).2).1
      = Resolved after
      ∧ new_bookmark 1000 (js "KJV") (js "Genesis") 1 ∈ after.
Proof.
  destruct (listBookmarks_follows_toggle 1000 (js "KJV") (js "Genesis") 1 empty_world)
    as (before & after & _ & Ea & Hadd & _).
  split; [reflexivity|]. split; [exact bookmarks_ok_empty|].
  exists after. split; [exact Ea|exact (Hadd eq_refl)].
Defined.

Lemma toggleBookmark_other_chapter_witness :
  (BAR_code ∉ js "KJV") ∧ (BAR_code ∉ js "Genesis")
  ∧ (js "KJV", js "Genesis", 1) ≠ (js "KJV", js "Genesis", 2)
  ∧ bookmarkKey (js "KJV") (js "Genesis") 1 ≠ bookmarkKey (js "KJV") (js "Genesis") 2
  ∧ objs (toggleBookmark 2000 (js "KJV") (js "Genesis") 1
            (toggleBookmark 1000 (js "KJV") (js "Genesis") 2 empty_world).2).2
      !! bookmarkKey (js "KJV") (js "Genesis") 2
    = Some (new_bookmark 1000 (js "KJV") (js "Genesis") 2).
Proof.
  assert (BAR_code ∉ js "KJV") as Ht by by_evaluation.
  assert (BAR_code ∉ js "Genesis") as Hb by by_evaluation.
  assert ((js "KJV", js "Genesis", 1) ≠ (js "KJV", js "Genesis", 2)) as Hne by congruence.
  destruct (toggleBookmark_other_chapter 2000 (js "KJV") (js "Genesis") 1
              (js "KJV") (js "Genesis") 2
              (toggleBookmark 1000 (js "KJV") (js "Genesis") 2 empty_world).2
              Ht Hb Ht Hb Hne) as (Hkeys & Hkept).
  split; [exact Ht|]. split; [exact Hb|]. split; [exact Hne|]. split; [exact Hkeys|].
  rewrite Hkept. vm_compute. reflexivity.
Defined.

Lemma listNotes_newest_first_witness :
  styles_stamped (objs styled_world)
  ∧ vs_verse <$> store_rows (objs styled_world) = [4; 1; 2; 3]
  ∧ ∃ notes styles,
      (listNotes (js "KJV") styled_world).1 = Resolved notes
      ∧ (listAllStyles (js "KJV") styled_world).1 = Resolved styles
      ∧ StronglySorted (λ a b, stamp b ≤ stamp a) styles
      ∧ StronglySorted (λ a b, stamp b ≤ stamp a) notes
      ∧ vs_verse <$> styles = [2; 3; 1]
      ∧ vs_verse <$> notes = [3; 1]
      ∧ with_updatedAt (mk_style "KJV" 3 "y") 2001 ∈ notes
      ∧ (with_updatedAt (mk_style "KJV" 2 "  ") 4001 ∉ notes)
      ∧ (with_updatedAt (mk_style "ESV" 4 "z") 3001 ∉ notes).
Proof.
  assert (styles_stamped (objs styled_world)) as Hst.
  { change (map_Forall (λ _ s, is_Some (vs_updatedAt s)) (objs styled_world)).
    by_evaluation. }
  destruct (listNotes_newest_first (js "KJV") styled_world)
    as (notes & styles & w' & E & Es & _ & Hnotes & _ & Hsorted).
  destruct (Hsorted Hst) as (Hs & Hn).
  split; [exact Hst|]. split; [vm_compute; reflexivity|].
  exists notes, styles. split; [by rewrite E|]. split; [exact Es|].
  split; [exact Hs|]. split; [exact Hn|].
  split; [vm_compute in Es; injection Es as <-; vm_compute; reflexivity|].
  split; [vm_compute in E; injection E as <- _; vm_compute; reflexivity|].
  split; [|split].
  - apply Hnotes. split; [|split; [reflexivity|]].
    + exists (js "KJV|Genesis|1|3"). vm_compute. reflexivity.
    + intros HF. apply trim_nil_iff in HF. vm_compute in HF. discriminate.
  - intros (_ & _ & Hblank)%Hnotes. apply Hblank. by_evaluation.
  - intros (_ & Ht & _)%Hnotes. vm_compute in Ht. discriminate.
Defined.

Lemma removeVerseStyle_removes_witness :
  store_wf (objs (state_db noted_state))
  ∧ objs (empty_world : World VerseStyle) !! verseStyleKey (js "KJV") (js "Genesis") 1 1 = None
  ∧ (getOne STORE_VERSE_STYLES (verseStyleKey (js "KJV") (js "Genesis") 1 1)
       (removeVerseStyle (js "KJV") (js "Genesis") 1 1 (state_db noted_state)).2).1
    = Resolved None
  ∧ objs (removeVerseStyle (js "KJV") (js "Genesis") 1 1 empty_world).2 = ∅
  ∧ ∃ styles,
      (getStylesForChapter (js "KJV") (js "Genesis") 1
         (removeVerseStyle (js "KJV") (js "Genesis") 1 1 (state_db noted_state)).2).1
      = Resolved styles
      ∧ styles !! verseStyleKey (js "KJV") (js "Genesis") 1 1 = None.
Proof.
  destruct (removeVerseStyle_removes (js "KJV") (js "Genesis") 1 1 (state_db noted_state))
    as (_ & Hgone & _ & _ & _ & Hchapter).
  destruct (removeVerseStyle_removes (js "KJV") (js "Genesis") 1 1 empty_world)
    as (_ & _ & _ & Hsame & _).
  destruct (Hchapter noted_state_wf) as (styles & Es & Hnone & _).
  split; [exact noted_state_wf|]. split; [reflexivity|]. split; [exact Hgone|].
  split; [exact (Hsame eq_refl)|].
  exists styles. split; [exact Es|exact Hnone].
Defined.

Lemma upsertSelectedStyle_one_key_witness :
  state_selected idle_state = None
  ∧ state_selected fixture_state = Some shown_genesis_1_1
  ∧ cache_entry_ok fixture_state shown_genesis_1_1
  ∧ upsertSelectedStyle 1000 1001 (patch_note (js "x")) idle_state = (Resolved tt, idle_state)
  ∧ objs (state_db noted_state) !! verseStyleKey (js "KJV") (js "Genesis") 1 2 = None
  ∧ objs (state_db noted_state) !! verseStyleKey (js "KJV") (js "Genesis") 1 1
    = Some {| vs_key := js "KJV|Genesis|1|1"; vs_translation := js "KJV";
              vs_book := js "Genesis"; vs_chapter := 1; vs_verse := 1;
              vs_color := js "none"; vs_underline := false; vs_bold := false;
              vs_bookmarked := false; vs_note := js "x"; vs_noteType := js "study";
              vs_noteFavorite := false; vs_updatedAt := Some 1001 |}
  ∧ txlog (state_db noted_state)
    = [{| tx_store := STORE_VERSE_STYLES; tx_mode := readwrite |}]
  ∧ store_wf (objs (state_db noted_state))
  ∧ styles_stamped (objs (state_db noted_state)).
Proof.
  destruct (upsertSelectedStyle_one_key 1000 1001 (patch_note (js "x")) idle_state)
    as (Hidle & _).
  destruct (upsertSelectedStyle_one_key 1000 1001 (patch_note (js "x")) fixture_state)
    as (_ & Hsel).
  destruct (Hsel shown_genesis_1_1 eq_refl
              (cache_entry_ok_fresh fixture_state shown_genesis_1_1 eq_refl))
    as (Hother & _ & Hstored & Htx & Hwf & Hst).
  split; [reflexivity|]. split; [reflexivity|].
  split; [exact (cache_entry_ok_fresh fixture_state shown_genesis_1_1 eq_refl)|].
  split; [exact (Hidle eq_refl)|].
  split.
  { destruct (Hother (verseStyleKey (js "KJV") (js "Genesis") 1 2)) as (E & _).
    - vm_compute. discriminate.
    - exact E. }
  split; [exact Hstored|]. split; [exact Htx|].
  split; [exact (Hwf store_wf_empty)|exact (Hst styles_stamped_empty)].
Defined.

Lemma upsert_note_then_listNotes_witness :
  state_selected fixture_state = Some shown_genesis_1_1
  ∧ cache_entry_ok fixture_state shown_genesis_1_1
  ∧ store_wf (objs (state_db fixture_state))
  ∧ p_note (patch_note (js "x")) = Some (js "x")
  ∧ ¬ Forall (λ c, is_ws c = true) (js "x")
  ∧ ∃ notes s,
      (listNotes (js "KJV") (state_db noted_state)).1 = Resolved notes
      ∧ s ∈ notes ∧ vs_note s = js "x" ∧ vs_updatedAt s = Some 1001.
Proof.
  destruct (upsert_note_then_listNotes 1000 1001 (patch_note (js "x")) (js "x")
              fixture_state shown_genesis_1_1 eq_refl
              (cache_entry_ok_fresh fixture_state shown_genesis_1_1 eq_refl)
              store_wf_empty eq_refl) as (notes & E & Hnote & _).
  destruct (Hnote x_not_blank) as (s & Hs & _ & Hx & Hu).
  split; [reflexivity|].
  split; [exact (cache_entry_ok_fresh fixture_state shown_genesis_1_1 eq_refl)|].
  split; [exact store_wf_empty|]. split; [reflexivity|]. split; [exact x_not_blank|].
  exists notes, s. split; [exact E|]. split; [exact Hs|]. split; [exact Hx|exact Hu].
Defined.

Lemma reload_after_upsert_witness :
  state_selected fixture_state = Some shown_genesis_1_1
  ∧ cache_entry_ok fixture_state shown_genesis_1_1
  ∧ store_wf (objs (state_db fixture_state))
  ∧ ∃ after s,
      (getStylesForChapter (js "KJV") (js "Genesis") 1 (state_db noted_state)).1
      = Resolved after
      ∧ sv_style <$> join_styles (js "KJV") after [genesis_1_1] = [Some s]
      ∧ vs_note s = js "x".
Proof.
  destruct (reload_after_upsert 1000 1001 (patch_note (js "x")) fixture_state
              shown_genesis_1_1 eq_refl
              (cache_entry_ok_fresh fixture_state shown_genesis_1_1 eq_refl)
              store_wf_empty) as (before & after & _ & Ea & Hjoin).
  split; [reflexivity|].
  split; [exact (cache_entry_ok_fresh fixture_state shown_genesis_1_1 eq_refl)|].
  split; [exact store_wf_empty|].
  exists after, (with_updatedAt
                   (spread_patch (current_style fixture_state shown_genesis_1_1)
                      (patch_note (js "x")) 1000) 1001).
  split; [exact Ea|]. split; [exact (Hjoin genesis_1_1 eq_refl eq_refl)|reflexivity].
Defined.

Lemma translation_store_agrees_witness :
  esv_meta ∈ TRANSLATIONS
  ∧ ascii_toUpperCase (tm_id esv_meta) = tm_id esv_meta
  ∧ translationMeta (js "ESV") = esv_meta
  ∧ storeForSearch ascii_toUpperCase (js "ESV") = STORE_ESV_VERSES.
Proof.
  assert (esv_meta ∈ TRANSLATIONS) as Ht by (right; left).
  destruct (translation_store_agrees ascii_toUpperCase esv_meta Ht eq_refl) as (Hm & Hs & _).
  split; [exact Ht|]. split; [reflexivity|]. split; [exact Hm|exact Hs].
Defined.

Lemma getChapterOffline_unknown_witness :
  (ascii_toUpperCase (js "web")
   ∉ js <$> ["KJV"; "ESV"; "NIV"; "AMP"; "AMPC"; "NVI-ES"; "NVI_ES"]%string)
  ∧ getChapterOffline ascii_toUpperCase (js "web") (js "Genesis") 1 fixture_db
    = (Resolved [], fixture_db)
  ∧ storeForSearch ascii_toUpperCase (js "web") = STORE_KJV_VERSES.
Proof.
  assert (ascii_toUpperCase (js "web")
          ∉ js <$> ["KJV"; "ESV"; "NIV"; "AMP"; "AMPC"; "NVI-ES"; "NVI_ES"]%string) as Hid
    by by_evaluation.
  destruct (getChapterOffline_unknown ascii_toUpperCase (js "web") (js "Genesis") 1
              fixture_db Hid) as (Hc & Hs).
  split; [exact Hid|]. split; [exact Hc|exact Hs].
Defined.

Lemma ensureTranslationImported_once_witness :
  esv_meta ∈ TRANSLATIONS
  ∧ objs (fixture_db STORE_ESV_VERSES) = ∅
  ∧ (ensureTranslationImported fixture_fetch (js "ESV") fixture_db).1 = Resolved tt
  ∧ ∀ n, objs ((ensureTranslationImported malformed_fetch (js "ESV")
                  (ensureTranslationImported fixture_fetch (js "ESV") fixture_db).2).2 n)
         = objs ((ensureTranslationImported fixture_fetch (js "ESV") fixture_db).2 n).
Proof.
  assert (esv_meta ∈ TRANSLATIONS) as Ht by (right; left).
  destruct (ensureTranslationImported_once fixture_fetch malformed_fetch esv_meta fixture_db Ht)
    as (_ & _ & Hempty).
  specialize (Hempty eq_refl).
  destruct (importBibleFromXML _ _ _).1 as [result|e] eqn:E in Hempty.
  - destruct Hempty as (Hok & _ & _ & Hsecond).
    split; [exact Ht|]. split; [reflexivity|]. split; [exact Hok|exact Hsecond].
  - vm_compute in E. discriminate.
Defined.

Lemma dive_pack_loaded_once_witness :
  dive_table (empty_memo : DiveMemo (list jsstring)) = None
  ∧ (∃ m, getDiveTags (PackBody fixture_tags) (js "Genesis") 1 1 empty_memo
          = (Fulfilled [js "creation"], m)
          ∧ dive_table m = Some fixture_tags
          ∧ dive_fetches m = 1%nat
          ∧ getDiveTags PackRejects (js "Genesis") 1 1 m = (Fulfilled [js "creation"], m)
          ∧ getDiveTags PackRejects (js "Genesis") 1 2 m = (Fulfilled [], m))
  ∧ (∃ m, getDiveTags PackRejects (js "Genesis") 1 1 empty_memo = (Thrown, m)
          ∧ dive_table m = None
          ∧ dive_fetches
              (getDiveTags (PackBody fixture_tags) (js "Genesis") 1 1 m).2 = 2%nat)
  ∧ getDiveTags (PackBody fixture_tags) (js "Genesis") 1 1
      (getDiveTags PackNotOk (js "Genesis") 1 1 empty_memo).2
    = (Fulfilled [], {| dive_table := Some ∅; dive_fetches := 1 |}).
Proof.
  destruct (dive_pack_loaded_once (PackBody fixture_tags) PackRejects
              (js "Genesis") 1 1 (js "Genesis") 1 1 (empty_memo : DiveMemo (list jsstring)))
    as (_ & Hbody & _).
  destruct (dive_pack_loaded_once (PackBody fixture_tags) PackRejects
              (js "Genesis") 1 1 (js "Genesis") 1 2 (empty_memo : DiveMemo (list jsstring)))
    as (_ & _ & Hmiss).
  destruct (dive_pack_loaded_once PackRejects (PackBody fixture_tags)
              (js "Genesis") 1 1 (js "Genesis") 1 1 (empty_memo : DiveMemo (list jsstring)))
    as (_ & Hrejects & _).
  destruct (dive_pack_loaded_once PackNotOk (PackBody fixture_tags)
              (js "Genesis") 1 1 (js "Genesis") 1 1 (empty_memo : DiveMemo (list jsstring)))
    as (_ & Hnotok & _).
  destruct (Hbody eq_refl) as (E1 & E2).
  destruct (Hrejects eq_refl) as (E3 & E4).
  destruct (Hnotok eq_refl) as (_ & E5).
  split; [reflexivity|]. split; [|split].
  - eexists. split; [exact E1|]. split; [reflexivity|]. split; [reflexivity|].
    split; [exact E2|]. exact (Hmiss fixture_tags eq_refl eq_refl).
  - eexists. split; [exact E3|]. split; [reflexivity|exact E4].
  - exact E5.
Defined.

Lemma getDiveExplain_loaded_once_witness :
  dive_table (empty_memo : DiveMemo (list jsstring)) = None
  ∧ getDiveExplain PackRejects (js "Genesis") 1 1
      (getDiveExplain (PackBody fixture_tags) (js "Genesis") 1 1 empty_memo).2
    = (Fulfilled (Some [js "creation"]), {| dive_table := Some fixture_tags; dive_fetches := 1 |})
  ∧ getDiveExplain (PackBody fixture_tags) (js "Genesis") 1 1
      (getDiveExplain PackNotOk (js "Genesis") 1 1 empty_memo).2
    = (Fulfilled None, {| dive_table := Some ∅; dive_fetches := 1 |})
  ∧ getDiveExplain PackRejects (js "Genesis") 1 1 (empty_memo : DiveMemo (list jsstring))
    = (Thrown, {| dive_table := None; dive_fetches := 1 |}).
Proof.
  destruct (getDiveExplain_loaded_once (PackBody fixture_tags) PackRejects
              (js "Genesis") 1 1 (js "Genesis") 1 1 (empty_memo : DiveMemo (list jsstring)))
    as (_ & Hbody).
  destruct (getDiveExplain_loaded_once PackNotOk (PackBody fixture_tags)
              (js "Genesis") 1 1 (js "Genesis") 1 1 (empty_memo : DiveMemo (list jsstring)))
    as (_ & Hnotok).
  destruct (getDiveExplain_loaded_once PackRejects PackRejects
              (js "Genesis") 1 1 (js "Genesis") 1 1 (empty_memo : DiveMemo (list jsstring)))
    as (_ & Hrejects).
  destruct (Hbody eq_refl) as (_ & E1).
  destruct (Hnotok eq_refl) as (_ & E2).
  destruct (Hrejects eq_refl) as (E3 & _).
  split; [reflexivity|]. split; [exact E1|]. split; [exact E2|exact E3].
Defined.

Lemma selectVerse_toggles_witness :
  sel_selectedKey no_selection ≠ verseKey (js "Genesis") 1 1
  ∧ (BAR_code ∉ js "Genesis")
  ∧ (js "Genesis", 1, 2) ≠ (js "Genesis", 1, 1)
  ∧ sel_selected (selectVerse shown_genesis_1_1 no_selection) = Some shown_genesis_1_1
  ∧ selectVerse shown_genesis_1_1 (selectVerse shown_genesis_1_1 no_selection) = no_selection
  ∧ sel_selected (selectVerse shown_genesis_1_2 (selectVerse shown_genesis_1_1 no_selection))
    = Some shown_genesis_1_2.
Proof.
  assert (sel_selectedKey no_selection ≠ verseKey (js "Genesis") 1 1) as Hk
    by (vm_compute; discriminate).
  assert (BAR_code ∉ js "Genesis") as Hb by by_evaluation.
  assert ((js "Genesis", 1, 2) ≠ (js "Genesis", 1, 1)) as Hne by congruence.
  destruct (selectVerse_toggles shown_genesis_1_1 shown_genesis_1_2 no_selection Hk Hb Hb)
    as (Hsel & _ & Hclear & _ & Hmove).
  split; [exact Hk|]. split; [exact Hb|]. split; [exact Hne|].
  split; [exact Hsel|]. split; [exact Hclear|exact (Hmove Hne)].
Defined.

Lemma navigation_stays_in_book_witness :
  let p := {| pos_book := js "Genesis"; pos_chapter := 50 |} in
  let moves := [MoveNext; MoveBook (js "Ruth"); MoveChapter 4; MoveNext; MovePrev] in
  in_book p ∧ offered_run p moves
  ∧ in_book (foldl move p moves)
  ∧ next_click p = p
  ∧ foldl move p moves = {| pos_book := js "Ruth"; pos_chapter := 3 |}.
Proof.
  intros p moves.
  assert (in_book p) as Hp by by_evaluation.
  assert (offered_run p moves) as Hrun.
  { unfold moves, p.
    cbn [offered_run offered move next_click prev_click onBookChanged onChapterChanged
           populateChapters pos_book pos_chapter].
    repeat split; try exact I; by_evaluation. }
  destruct (navigation_stays_in_book p moves Hp Hrun) as (Hend & _ & Hlast & _).
  split; [exact Hp|]. split; [exact Hrun|]. split; [exact Hend|].
  split; [apply Hlast; vm_compute; reflexivity|vm_compute; reflexivity].
Defined.

Lemma maxChaptersForBook_canon_witness :
  js "Psalms" ∈ BOOKS
  ∧ (list_to_map CHAPTER_COUNTS : gmap jsstring Z) !! js "Tobit" = None
  ∧ (js "Tobit" ∉ Object_prototype_names)
  ∧ js "constructor" ∈ Object_prototype_names
  ∧ maxChaptersForBook_value (js "Psalms") = NumberValue 150
  ∧ maxChaptersForBook_value (vr_book genesis_1_1) = NumberValue 50
  ∧ maxChaptersForBook_value (js "Tobit") = NumberValue 50
  ∧ maxChaptersForBook_value (js "constructor") = InheritedValue (js "constructor").
Proof.
  assert (js "Psalms" ∈ BOOKS) as Hb by by_evaluation.
  assert ((list_to_map CHAPTER_COUNTS : gmap jsstring Z) !! js "Tobit" = None) as Hn
    by (vm_compute; reflexivity).
  assert (js "Tobit" ∉ Object_prototype_names) as Hnot by by_evaluation.
  assert (js "constructor" ∈ Object_prototype_names) as Hin by by_evaluation.
  destruct (maxChaptersForBook_canon (js "Psalms")) as (Hcanon & _).
  destruct (maxChaptersForBook_canon (vr_book genesis_1_1)) as (_ & Hrow & _).
  destruct (maxChaptersForBook_canon (js "Tobit")) as (_ & _ & Hnone & _).
  destruct (maxChaptersForBook_canon (js "constructor")) as (_ & _ & _ & Hinh & _).
  destruct (Hcanon Hb) as (_ & Hvalue & _).
  destruct (Hrow fixture_xml genesis_1_1 genesis_1_1_collected eq_refl) as (_ & Hgen).
  split; [exact Hb|]. split; [exact Hn|]. split; [exact Hnot|]. split; [exact Hin|].
  split; [exact Hvalue|]. split; [exact Hgen|]. split; [exact (Hnone Hn Hnot)|exact (Hinh Hin)].
Defined.

Lemma import_reports_written_witness :
  importBibleFromXML fixture_response STORE_KJV_VERSES empty_world
  = (Resolved {| verses := 3; books := 1 |}, fixture_world)
  ∧ importBibleFromXML duplicate_response STORE_KJV_VERSES fixture_world
    = (Resolved {| verses := 2; books := 1 |},
       (importBibleFromXML duplicate_response STORE_KJV_VERSES fixture_world).2)
  ∧ size (objs fixture_world) = 3%nat
  ∧ NoDup (locator <$> rows (collect_rows fixture_xml))
  ∧ ¬ NoDup (locator <$> rows (collect_rows duplicate_xml))
  ∧ (size (put_all (∅ : gmap jsstring VerseRow) (rows (collect_rows duplicate_xml))) < 2)%nat
  ∧ size (list_to_set (vr_book <$> store_rows (objs fixture_world)) : gset jsstring) = 1%nat.
Proof.
  assert (importBibleFromXML duplicate_response STORE_KJV_VERSES fixture_world
          = (Resolved {| verses := 2; books := 1 |},
             (importBibleFromXML duplicate_response STORE_KJV_VERSES fixture_world).2)) as Edup
    by (vm_compute; reflexivity).
  assert (¬ NoDup (locator <$> rows (collect_rows duplicate_xml))) as Hdup.
  { intros Hnd. apply NoDup_cons in Hnd as [Hnd _]. apply Hnd. left. }
  destruct (import_reports_written fixture_response STORE_KJV_VERSES empty_world
              fixture_world {| verses := 3; books := 1 |} fixture_import)
    as (_ & Eobjs & _ & _ & _ & Hbooks & _ & Hsize).
  destruct (import_reports_written duplicate_response STORE_KJV_VERSES fixture_world
              _ {| verses := 2; books := 1 |} Edup)
    as (_ & _ & _ & Hle & Hiff & _).
  split; [exact fixture_import|]. split; [exact Edup|].
  split; [exact (Hsize eq_refl fixture_locators_NoDup)|].
  split; [exact fixture_locators_NoDup|]. split; [exact Hdup|]. split.
  - cbn [verses] in Hle, Hiff. apply Nat.le_neq. split; [exact Hle|].
    intros E. apply Hdup, Hiff, E.
  - assert (objs fixture_world
            = put_all (∅ : gmap jsstring VerseRow) (rows (collect_rows fixture_xml))) as ->
      by exact (eq_trans Eobjs (right_id_L (∅ : gmap jsstring VerseRow) (∪) _)).
    symmetry. exact Hbooks.
Defined.
